(** * hcldemo1: the LLM client (app/llm_client.py) and the analysis store

    A shallow embedding of the Python module [app/llm_client.py], and of
    the two [POST] handlers of [app/main.py] that call it:
    - Python [str] values are lists of Unicode code points;
    - the values produced by JSON decoding are the inductive [pyval];
    - [json.loads] is the decoder of the interpreter's [json] package,
      written out as a recursive-descent scanner;
    - [requests.post] is a call to an environment that answers every request,
      and every request issued is appended to a log;
    - exceptions are an explicit [Raise] outcome.  *)

From Stdlib Require Import String Ascii DecimalString.
From stdpp Require Import gmap sorting.
From Stdlib Require Import ZArith NArith List Bool Lia.
From Stdlib Require DecimalPos.
Import ListNotations.

Local Open Scope N_scope.

(** ** Python strings *)

Definition str := list N.

(** An ASCII literal as a Python string. *)
Definition lit (s : string) : str := map N_of_ascii (list_ascii_of_string s).

Module Chr.
Definition TAB : N := 9.
Definition NL : N := 10.
Definition CR : N := 13.
Definition SPACE : N := 32.
Definition DQUOTE : N := 34.
Definition PLUS : N := 43.
Definition COMMA : N := 44.
Definition MINUS : N := 45.
Definition DOT : N := 46.
Definition SLASH : N := 47.
Definition ZERO : N := 48.
Definition COLON : N := 58.
Definition LBRACKET : N := 91.
Definition BACKSLASH : N := 92.
Definition RBRACKET : N := 93.
Definition BACKTICK : N := 96.
Definition LBRACE : N := 123.
Definition RBRACE : N := 125.
Definition BOM : N := 65279.
End Chr.

Fixpoint str_eqb (a b : str) : bool :=
  match a, b with
  | [], [] => true
  | x :: a', y :: b' => (x =? y) && str_eqb a' b'
  | _, _ => false
  end.

Fixpoint startswith (s p : str) {struct p} : bool :=
  match p, s with
  | [], _ => true
  | x :: p', y :: s' => (x =? y) && startswith s' p'
  | _ :: _, [] => false
  end.

(** [str.isspace] for one code point: the characters [str.strip()] removes. *)
Definition isspace (c : N) : bool :=
  ((9 <=? c) && (c <=? 13)) || ((28 <=? c) && (c <=? 32))
  || (c =? 133) || (c =? 160) || (c =? 5760)
  || ((8192 <=? c) && (c <=? 8202))
  || (c =? 8232) || (c =? 8233) || (c =? 8239) || (c =? 8287) || (c =? 12288).

Fixpoint lstrip (s : str) : str :=
  match s with
  | c :: r => if isspace c then lstrip r else s
  | [] => []
  end.

Definition rstrip (s : str) : str := rev (lstrip (rev s)).

(** [s.strip()] *)
Definition strip (s : str) : str := rstrip (lstrip s).

(** [s.find(c)] for a one-character needle: the first index, or -1. *)
Fixpoint find_from (c : N) (s : str) (i : Z) : Z :=
  match s with
  | [] => (-1)%Z
  | x :: r => if x =? c then i else find_from c r (i + 1)%Z
  end.

Definition find (s : str) (c : N) : Z := find_from c s 0%Z.

(** [s.rfind(c)]: the last index, or -1. *)
Fixpoint rfind_from (c : N) (s : str) (i : Z) (last : Z) : Z :=
  match s with
  | [] => last
  | x :: r => rfind_from c r (i + 1)%Z (if x =? c then i else last)
  end.

Definition rfind (s : str) (c : N) : Z := rfind_from c s 0%Z (-1)%Z.

(** [s[lo:hi]] for bounds that are not negative. *)
Definition slice (s : str) (lo hi : Z) : str :=
  firstn (Z.to_nat (hi - lo)) (skipn (Z.to_nat lo) s).

(** ** The two substitutions of [_try_parse_json] *)

(** One letter of the pattern under [re.IGNORECASE]: the letter, its upper
    case, and for [s] the long s (U+017F) that the regex engine folds to it. *)
Definition ci_letter (lower : N) (c : N) : bool :=
  (c =? lower) || (c =? lower - 32) || ((lower =? 115) && (c =? 383)).

(** The length of the match of [```(?:json)?\n] at the start of [s], if any. *)
Definition match_open_fence (s : str) : option nat :=
  match s with
  | b1 :: b2 :: b3 :: r =>
      if (b1 =? Chr.BACKTICK) && (b2 =? Chr.BACKTICK) && (b3 =? Chr.BACKTICK) then
        match r with
        | j :: s' :: o :: n :: nl :: _ =>
            if ci_letter 106 j && ci_letter 115 s' && ci_letter 111 o
               && ci_letter 110 n && (nl =? Chr.NL)
            then Some 8%nat
            else if j =? Chr.NL then Some 4%nat else None
        | nl :: _ => if nl =? Chr.NL then Some 4%nat else None
        | [] => None
        end
      else None
  | _ => None
  end.

(** [re.sub(r"```(?:json)?\n", "", s, flags=re.IGNORECASE)]: every leftmost,
    non-overlapping match is removed.  [skip] counts the characters of the
    current match that are still to be dropped. *)
Fixpoint sub_open_fence_from (skip : nat) (s : str) : str :=
  match s with
  | [] => []
  | c :: r =>
      match skip with
      | S k => sub_open_fence_from k r
      | O =>
          match match_open_fence s with
          | Some (S k) => sub_open_fence_from k r
          | _ => c :: sub_open_fence_from O r
          end
      end
  end.

Definition sub_open_fence (s : str) : str := sub_open_fence_from O s.

Definition closing_fence : str :=
  [Chr.NL; Chr.BACKTICK; Chr.BACKTICK; Chr.BACKTICK].

Definition endswith (s p : str) : bool := startswith (rev s) (rev p).

Definition drop_last (n : nat) (s : str) : str := rev (skipn n (rev s)).

(** [re.sub(r"\n```$", "", s)]: [$] matches at the end of the string and
    also just before a newline that ends the string. *)
Definition sub_close_fence (s : str) : str :=
  if endswith s closing_fence then drop_last 4 s
  else if endswith s (closing_fence ++ [Chr.NL]) then drop_last 5 s ++ [Chr.NL]
  else s.

(** ** Python values, as JSON decoding produces them *)

(** A float is kept as the value its literal denotes: [FDec neg m e] is
    [float] of the decimal [(-1)^neg * m * 10^e], the double nearest to it. *)
Inductive pyfloat : Type :=
| FNaN
| FInf (negative : bool)
| FDec (negative : bool) (mantissa : N) (exponent : Z).

#[warnings="-register-all"]
Inductive pyval : Type :=
| PNone
| PBool (b : bool)
| PInt (z : Z)
| PFloat (f : pyfloat)
| PStr (s : str)
| PList (l : list pyval)
| PDict (d : list (str * pyval)).

(** A [dict] keeps insertion order; assigning an existing key replaces the
    value in place. *)
Fixpoint dict_set (d : list (str * pyval)) (k : str) (v : pyval)
  : list (str * pyval) :=
  match d with
  | [] => [(k, v)]
  | (k', v') :: d' =>
      if str_eqb k' k then (k', v) :: d' else (k', v') :: dict_set d' k v
  end.

Fixpoint dict_lookup (d : list (str * pyval)) (k : str) : option pyval :=
  match d with
  | [] => None
  | (k', v) :: d' => if str_eqb k' k then Some v else dict_lookup d' k
  end.

(** [dict(pairs)] *)
Definition dict_of_pairs (pairs : list (str * pyval)) : list (str * pyval) :=
  fold_left (fun d kv => dict_set d (fst kv) (snd kv)) pairs [].

(** A decimal rounds to the float zero when it is zero or at most half the
    least subnormal, [2^-1075] (ties go to the even mantissa, zero). *)
Definition dec_is_zero (m : N) (e : Z) : bool :=
  (m =? 0) ||
  ((e <? 0)%Z && (Z.of_N m * 2 ^ 1075 <=? 10 ^ (- e))%Z).

(** Truth value of a Python object, as [not], [or] and [all] test it. *)
Definition truthy (v : pyval) : bool :=
  match v with
  | PNone => false
  | PBool b => b
  | PInt z => negb (z =? 0)%Z
  | PFloat FNaN => true
  | PFloat (FInf _) => true
  | PFloat (FDec _ m e) => negb (dec_is_zero m e)
  | PStr s => match s with [] => false | _ => true end
  | PList l => match l with [] => false | _ => true end
  | PDict d => match d with [] => false | _ => true end
  end.

(** ** [json.loads]

    The decoder of the [json] package with its default settings (strict
    strings, [NaN] and [Infinity] accepted).  The limits of the interpreter,
    its recursion depth and the length of an integer literal it converts,
    are outside the model; both would surface as a caught exception. *)

Module Json.

Inductive scan (A : Type) : Type :=
| Scanned (a : A) (rest : str)
| NoParse
| OutOfFuel.
Arguments Scanned {A} a rest.
Arguments NoParse {A}.
Arguments OutOfFuel {A}.

(** JSON whitespace: space, tab, line feed, carriage return. *)
Definition is_ws (c : N) : bool :=
  (c =? Chr.SPACE) || (c =? Chr.TAB) || (c =? Chr.NL) || (c =? Chr.CR).

Fixpoint skip_ws (s : str) : str :=
  match s with
  | c :: r => if is_ws c then skip_ws r else s
  | [] => []
  end.

Definition is_digit (c : N) : bool := (48 <=? c) && (c <=? 57).

Fixpoint span_digits (s : str) : str * str :=
  match s with
  | c :: r =>
      if is_digit c then let '(ds, r') := span_digits r in (c :: ds, r')
      else ([], s)
  | [] => ([], [])
  end.

Definition digits_value (ds : str) : N :=
  fold_left (fun acc c => 10 * acc + (c - 48)) ds 0.

Definition hex_value (c : N) : option N :=
  if is_digit c then Some (c - 48)
  else if (97 <=? c) && (c <=? 102) then Some (c - 87)
  else if (65 <=? c) && (c <=? 70) then Some (c - 55)
  else None.

(** The four hexadecimal digits of a [\uXXXX] escape. *)
Definition hex4 (a b c d : N) : option N :=
  match hex_value a, hex_value b, hex_value c, hex_value d with
  | Some x, Some y, Some z, Some w => Some (((x * 16 + y) * 16 + z) * 16 + w)
  | _, _, _, _ => None
  end.

Definition simple_escape (c : N) : option N :=
  if c =? Chr.DQUOTE then Some Chr.DQUOTE
  else if c =? Chr.BACKSLASH then Some Chr.BACKSLASH
  else if c =? Chr.SLASH then Some Chr.SLASH
  else if c =? 98 then Some 8
  else if c =? 102 then Some 12
  else if c =? 110 then Some 10
  else if c =? 114 then Some 13
  else if c =? 116 then Some 9
  else None.

Definition is_high_surrogate (u : N) : bool := (55296 <=? u) && (u <=? 56319).
Definition is_low_surrogate (u : N) : bool := (56320 <=? u) && (u <=? 57343).

(** [scanstring], strict: the text after the opening quote, up to and
    including the closing quote.  [acc] is the decoded prefix, reversed. *)
Fixpoint scanstring (s : str) (acc : str) : option (str * str) :=
  match s with
  | [] => None
  | c :: r =>
      if c =? Chr.DQUOTE then Some (rev acc, r)
      else if c <? 32 then None
      else if c =? Chr.BACKSLASH then
        match r with
        | [] => None
        | e :: r1 =>
            if e =? 117 then
              match r1 with
              | h1 :: h2 :: h3 :: h4 :: r2 =>
                  match hex4 h1 h2 h3 h4 with
                  | None => None
                  | Some u =>
                      if is_high_surrogate u then
                        match r2 with
                        | b :: u' :: r3 =>
                            if (b =? Chr.BACKSLASH) && (u' =? 117) then
                              match r3 with
                              | g1 :: g2 :: g3 :: g4 :: r4 =>
                                  match hex4 g1 g2 g3 g4 with
                                  | None => None
                                  | Some u2 =>
                                      if is_low_surrogate u2 then
                                        scanstring r4
                                          (65536 + ((u - 55296) * 1024 + (u2 - 56320)) :: acc)
                                      else scanstring r2 (u :: acc)
                                  end
                              | _ => None
                              end
                            else scanstring r2 (u :: acc)
                        | _ => scanstring r2 (u :: acc)
                        end
                      else scanstring r2 (u :: acc)
                  end
              | _ => None
              end
            else
              match simple_escape e with
              | Some x => scanstring r1 (x :: acc)
              | None => None
              end
        end
      else scanstring r (c :: acc)
  end.

(** [NUMBER_RE] has three groups: an integer part (an optional minus sign,
    then a single zero or a nonzero digit and any digits), an optional
    fraction and an optional exponent.  The integer part: sign, digits, rest. *)
Definition match_integer (s : str) : option (bool * str * str) :=
  let '(neg, r) :=
    match s with
    | c :: r' => if c =? Chr.MINUS then (true, r') else (false, s)
    | [] => (false, s)
    end in
  match r with
  | c :: r' =>
      if c =? Chr.ZERO then Some (neg, [c], r')
      else if is_digit c then
        let '(ds, r'') := span_digits r' in Some (neg, c :: ds, r'')
      else None
  | [] => None
  end.

(** The fraction: its digits, when a dot and at least one digit follow. *)
Definition match_frac (s : str) : option (str * str) :=
  match s with
  | c :: r =>
      if c =? Chr.DOT then
        match span_digits r with
        | ([], _) => None
        | (ds, r') => Some (ds, r')
        end
      else None
  | [] => None
  end.

(** The exponent: its value, when [e] or [E], an optional sign and at
    least one digit follow. *)
Definition match_exp (s : str) : option (Z * str) :=
  match s with
  | c :: r =>
      if (c =? 101) || (c =? 69) then
        let '(neg, r1) :=
          match r with
          | sg :: r' =>
              if sg =? Chr.MINUS then (true, r')
              else if sg =? Chr.PLUS then (false, r')
              else (false, r)
          | [] => (false, r)
          end in
        match span_digits r1 with
        | ([], _) => None
        | (ds, r2) =>
            let v := Z.of_N (digits_value ds) in
            Some (if neg then (- v)%Z else v, r2)
        end
      else None
  | [] => None
  end.

(** A number literal: [int] when it has neither fraction nor exponent,
    [float] otherwise. *)
Definition match_number (s : str) : option (pyval * str) :=
  match match_integer s with
  | None => None
  | Some (neg, ids, r) =>
      let (frac, r1) :=
        match match_frac r with
        | Some (fds, r') => (Some fds, r')
        | None => (None, r)
        end in
      let (ex, r2) :=
        match match_exp r1 with
        | Some (e, r') => (Some e, r')
        | None => (None, r1)
        end in
      match frac, ex with
      | None, None =>
          let v := Z.of_N (digits_value ids) in
          Some (PInt (if neg then (- v)%Z else v), r2)
      | _, _ =>
          let fds := match frac with Some f => f | None => [] end in
          let e := match ex with Some e => e | None => 0%Z end in
          Some (PFloat (FDec neg (digits_value (ids ++ fds))
                             (e - Z.of_nat (length fds))%Z), r2)
      end
  end.

Definition after_prefix (p : string) (s : str) : option str :=
  if startswith s (lit p) then Some (skipn (length (lit p)) s) else None.

(** The constants the scanner knows apart from number literals. *)
Definition match_keyword (s : str) : option (pyval * str) :=
  match after_prefix "null" s with
  | Some r => Some (PNone, r)
  | None =>
  match after_prefix "true" s with
  | Some r => Some (PBool true, r)
  | None =>
  match after_prefix "false" s with
  | Some r => Some (PBool false, r)
  | None => None
  end end end.

Definition match_constant (s : str) : option (pyval * str) :=
  match after_prefix "NaN" s with
  | Some r => Some (PFloat FNaN, r)
  | None =>
  match after_prefix "Infinity" s with
  | Some r => Some (PFloat (FInf false), r)
  | None =>
  match after_prefix "-Infinity" s with
  | Some r => Some (PFloat (FInf true), r)
  | None => None
  end end end.

Definition of_option {A} (o : option (A * str)) : scan A :=
  match o with
  | Some (a, r) => Scanned a r
  | None => NoParse
  end.

(** [scan_once], [JSONObject] and [JSONArray].  Every call spends one
    unit of fuel; [json_loads] below supplies enough for any input. *)
Fixpoint scan_once (fuel : nat) (s : str) {struct fuel} : scan pyval :=
  match fuel with
  | O => OutOfFuel
  | S f =>
      match s with
      | [] => NoParse
      | c :: r =>
          if c =? Chr.DQUOTE then
            match scanstring r [] with
            | Some (x, r') => Scanned (PStr x) r'
            | None => NoParse
            end
          else if c =? Chr.LBRACE then
            match skip_ws r with
            | c1 :: r1 =>
                if c1 =? Chr.RBRACE then Scanned (PDict []) r1
                else if c1 =? Chr.DQUOTE then object_pairs f r1 []
                else NoParse
            | [] => NoParse
            end
          else if c =? Chr.LBRACKET then
            match skip_ws r with
            | c1 :: r1 =>
                if c1 =? Chr.RBRACKET then Scanned (PList []) r1
                else array_items f (c1 :: r1) []
            | [] => NoParse
            end
          else
            match match_keyword s with
            | Some (v, r') => Scanned v r'
            | None =>
                match match_number s with
                | Some (v, r') => Scanned v r'
                | None => of_option (match_constant s)
                end
            end
      end
  end

(** The members of an object, from just after the opening quote of a key;
    [acc] holds the pairs read so far, reversed. *)
with object_pairs (fuel : nat) (s : str) (acc : list (str * pyval))
       {struct fuel} : scan pyval :=
  match fuel with
  | O => OutOfFuel
  | S f =>
      match scanstring s [] with
      | None => NoParse
      | Some (key, r) =>
          match skip_ws r with
          | c :: r1 =>
              if c =? Chr.COLON then
                match scan_once f (skip_ws r1) with
                | Scanned v r2 =>
                    match skip_ws r2 with
                    | c2 :: r3 =>
                        if c2 =? Chr.RBRACE then
                          Scanned (PDict (dict_of_pairs (rev ((key, v) :: acc)))) r3
                        else if c2 =? Chr.COMMA then
                          match skip_ws r3 with
                          | c3 :: r4 =>
                              if c3 =? Chr.DQUOTE
                              then object_pairs f r4 ((key, v) :: acc)
                              else NoParse
                          | [] => NoParse
                          end
                        else NoParse
                    | [] => NoParse
                    end
                | NoParse => NoParse
                | OutOfFuel => OutOfFuel
                end
              else NoParse
          | [] => NoParse
          end
      end
  end

(** The elements of an array, from the first character of an element;
    [acc] holds the elements read so far, reversed. *)
with array_items (fuel : nat) (s : str) (acc : list pyval)
       {struct fuel} : scan pyval :=
  match fuel with
  | O => OutOfFuel
  | S f =>
      match scan_once f s with
      | Scanned v r =>
          match skip_ws r with
          | c :: r1 =>
              if c =? Chr.RBRACKET then Scanned (PList (rev (v :: acc))) r1
              else if c =? Chr.COMMA then array_items f (skip_ws r1) (v :: acc)
              else NoParse
          | [] => NoParse
          end
      | NoParse => NoParse
      | OutOfFuel => OutOfFuel
      end
  end.

Definition enough_fuel (s : str) : nat := (2 * length s + 3)%nat.

(** [json.loads(s)]: [None] stands for the raised [JSONDecodeError]. *)
Definition loads (s : str) : option pyval :=
  if startswith s [Chr.BOM] then None
  else
    match scan_once (enough_fuel s) (skip_ws s) with
    | Scanned v rest =>
        match skip_ws rest with
        | [] => Some v
        | _ :: _ => None
        end
    | _ => None
    end.

End Json.

(** ** [json.dumps]

    The encoder of the [json] package with its default settings.  As for
    the decoder, the limits of the interpreter are outside the model: the
    length of an integer it converts (4300 digits by default) and the depth
    of nesting it recurses through.  Properties that need a value to pass
    through the encoder or the decoder unharmed state those limits as a
    hypothesis ([within_limits]). *)

Module JsonEnc.

Definition hex_digit (n : N) : N := if n <? 10 then 48 + n else 87 + n.

(** [ '\\u{0:04x}'.format(n) ] *)
Definition u_escape (n : N) : str :=
  [Chr.BACKSLASH; 117;
   hex_digit (N.shiftr n 12 mod 16); hex_digit (N.shiftr n 8 mod 16);
   hex_digit (N.shiftr n 4 mod 16); hex_digit (n mod 16)].

(** One character under [ensure_ascii]: printable ASCII other than the quote
    and the backslash is kept, the rest is escaped. *)
Definition escape_char (c : N) : str :=
  if c =? Chr.DQUOTE then [Chr.BACKSLASH; Chr.DQUOTE]
  else if c =? Chr.BACKSLASH then [Chr.BACKSLASH; Chr.BACKSLASH]
  else if (32 <=? c) && (c <=? 126) then [c]
  else if c =? 8 then [Chr.BACKSLASH; 98]
  else if c =? 12 then [Chr.BACKSLASH; 102]
  else if c =? 10 then [Chr.BACKSLASH; 110]
  else if c =? 13 then [Chr.BACKSLASH; 114]
  else if c =? 9 then [Chr.BACKSLASH; 116]
  else if c <? 65536 then u_escape c
  else
    let n := c - 65536 in
    u_escape (N.lor 55296 (N.land (N.shiftr n 10) 1023))
    ++ u_escape (N.lor 56320 (N.land n 1023)).

Definition quote (s : str) : str :=
  [Chr.DQUOTE] ++ flat_map escape_char s ++ [Chr.DQUOTE].

Definition decimal (z : Z) : str := lit (NilZero.string_of_int (Z.to_int z)).

Fixpoint join (sep : str) (parts : list str) : str :=
  match parts with
  | [] => []
  | [p] => p
  | p :: ps => p ++ sep ++ join sep ps
  end.

Section Dumps.

(** [float.__repr__] of a finite float, the shortest decimal that reads back
    as the same double, belongs to the interpreter. *)
Variable float_repr : bool -> N -> Z -> str.

Definition dumps_float (f : pyfloat) : str :=
  match f with
  | FNaN => lit "NaN"
  | FInf false => lit "Infinity"
  | FInf true => lit "-Infinity"
  | FDec neg m e => float_repr neg m e
  end.

(** [json.dumps(v)] with the default separators. *)
Fixpoint dumps (v : pyval) : str :=
  match v with
  | PNone => lit "null"
  | PBool true => lit "true"
  | PBool false => lit "false"
  | PInt z => decimal z
  | PFloat f => dumps_float f
  | PStr s => quote s
  | PList l => lit "[" ++ join (lit ", ") (map dumps l) ++ lit "]"
  | PDict d =>
      lit "{"
      ++ join (lit ", ")
           (map (fun kv => let '(k, x) := kv in quote k ++ lit ": " ++ dumps x) d)
      ++ lit "}"
  end.

End Dumps.

End JsonEnc.

(** ** Exceptions and requests *)

Inductive exc_class : Type :=
| LLMError
| IndexError
| KeyError
| TypeError
| AttributeError
| HTTPError
| JSONDecodeError
| ConnectionError
| Timeout
| MissingSchema.

Record exc : Type := mk_exc { exc_type : exc_class; exc_text : str }.

Inductive result (A : Type) : Type :=
| Ok (a : A)
| Raise (e : exc).
Arguments Ok {A} a.
Arguments Raise {A} e.

(** The three [requests.post] calls of the module, with what each passes.
    [bearer] is the object formatted into the [Authorization] header. *)
Inductive http_call : Type :=
| TokenPost (url client_id client_secret : option str) (timeout : Z)
| InferencePost (url : option str) (bearer : pyval) (payload : pyval) (timeout : Z)
| LocalPost (url : option str) (payload : pyval) (timeout : Z).

Record response : Type := mk_response {
  status_code : Z;
  reason : str;
  resp_url : str;
  body : str
}.

Inductive post_outcome : Type :=
| PostRaises (e : exc)
| PostReturns (r : response).

(** What the client does not own: the remote end, which answers a request
    given the requests made before it, and two texts the interpreter
    builds. *)
Record world : Type := mk_world {
  respond : list http_call -> http_call -> post_outcome;
  float_repr : bool -> N -> Z -> str;
  decode_error_text : str -> str
}.

(** A computation that may issue requests: it reads the log of the calls
    made so far and returns the extended log. *)
Definition io (A : Type) : Type := list http_call -> result A * list http_call.

Definition ret {A} (a : A) : io A := fun log => (Ok a, log).

Definition raise {A} (e : exc) : io A := fun log => (Raise e, log).

Definition bind {A B} (m : io A) (k : A -> io B) : io B :=
  fun log =>
    match m log with
    | (Ok a, log') => k a log'
    | (Raise e, log') => (Raise e, log')
    end.

Definition lift {A} (r : result A) : io A := fun log => (r, log).

(** [try: m  except Exception as e: h e] *)
Definition try_except {A} (m : io A) (h : exc -> io A) : io A :=
  fun log =>
    match m log with
    | (Ok a, log') => (Ok a, log')
    | (Raise e, log') => h e log'
    end.

Notation "'call' x <- m ; k" := (bind m (fun x => k))
  (at level 10, x name, m at level 100, k at level 200,
   format "'[v' 'call'  x  <-  m ; '/' k ']'").

(** [str(e)] *)
Definition str_of_exc (e : exc) : str := exc_text e.

(** ** Dynamic operations on objects *)

Definition type_name (v : pyval) : string :=
  match v with
  | PNone => "NoneType"
  | PBool _ => "bool"
  | PInt _ => "int"
  | PFloat _ => "float"
  | PStr _ => "str"
  | PList _ => "list"
  | PDict _ => "dict"
  end.

Definition no_attribute (v : pyval) (attr : string) : exc :=
  mk_exc AttributeError
    (lit "'" ++ lit (type_name v) ++ lit "' object has no attribute '"
     ++ lit attr ++ lit "'").

Definition not_subscriptable (v : pyval) : exc :=
  mk_exc TypeError (lit "'" ++ lit (type_name v) ++ lit "' object is not subscriptable").

(** [obj.get(key, default)] *)
Definition py_get (obj : pyval) (key : string) (default : pyval) : result pyval :=
  match obj with
  | PDict d =>
      Ok (match dict_lookup d (lit key) with Some v => v | None => default end)
  | _ => Raise (no_attribute obj "get")
  end.

(** [obj[0]] *)
Definition py_item0 (obj : pyval) : result pyval :=
  match obj with
  | PList (x :: _) => Ok x
  | PList [] => Raise (mk_exc IndexError (lit "list index out of range"))
  | PStr (c :: _) => Ok (PStr [c])
  | PStr [] => Raise (mk_exc IndexError (lit "string index out of range"))
  | PDict _ => Raise (mk_exc KeyError (lit "0"))
  | _ => Raise (not_subscriptable obj)
  end.

(** [obj["access_token"]] *)
Definition py_item_access_token (obj : pyval) : result pyval :=
  match obj with
  | PDict d =>
      match dict_lookup d (lit "access_token") with
      | Some v => Ok v
      | None => Raise (mk_exc KeyError (lit "'access_token'"))
      end
  | PList _ =>
      Raise (mk_exc TypeError (lit "list indices must be integers or slices, not str"))
  | PStr _ =>
      Raise (mk_exc TypeError (lit "string indices must be integers, not 'str'"))
  | _ => Raise (not_subscriptable obj)
  end.

(** [all([...])] over attributes read from the environment: each is [None]
    or a string, and only a non-empty string is true. *)
Definition attr_truthy (a : option str) : bool :=
  match a with
  | Some (_ :: _) => true
  | _ => false
  end.

(** [all(attrs)] *)
Definition py_all (attrs : list (option str)) : bool := forallb attr_truthy attrs.

Definition attr_value (a : option str) : pyval :=
  match a with
  | Some s => PStr s
  | None => PNone
  end.

(** ** class LLMClient *)

(** The attributes [__init__] reads from the process environment. *)
Record LLMClient : Type := mk_client {
  provider : str;
  token_url : option str;
  client_id : option str;
  client_secret : option str;
  inference_url : option str;
  model_name : option str;
  local_url : option str;
  max_tokens : Z;
  temperature : pyfloat
}.

(** The body of [_try_parse_json] once [text] is known to be a non-empty
    string. *)
Definition parse_text (text : str) : pyval :=
  let s := strip text in
  let s := sub_open_fence s in
  let s := sub_close_fence s in
  let first := find s Chr.LBRACE in
  let last := rfind s Chr.RBRACE in
  let attempt :=
    if negb (first =? -1)%Z && negb (last =? -1)%Z && (last >? first)%Z
    then Json.loads (slice s first (last + 1))
    else None in
  match attempt with
  | Some v => v
  | None =>
      match Json.loads s with
      | Some v => v
      | None => PNone
      end
  end.

(** [_try_parse_json(self, text)].  The argument is whatever object the
    caller extracted; [text.strip()] exists on strings only. *)
Definition _try_parse_json (text : pyval) : result pyval :=
  if negb (truthy text) then Ok PNone
  else
    match text with
    | PStr t => Ok (parse_text t)
    | _ => Raise (no_attribute text "strip")
    end.

Definition analysis (text parsed raw : pyval) : pyval :=
  PDict [(lit "text", text); (lit "json", parsed); (lit "raw", raw)].

Definition http_error_text (r : response) (kind : string) : str :=
  JsonEnc.decimal (status_code r) ++ lit kind ++ reason r
  ++ lit " for url: " ++ resp_url r.

(** [r.raise_for_status()] *)
Definition raise_for_status (r : response) : result unit :=
  let code := status_code r in
  if ((400 <=? code) && (code <? 500))%Z
  then Raise (mk_exc HTTPError (http_error_text r " Client Error: "))
  else if ((500 <=? code) && (code <? 600))%Z
  then Raise (mk_exc HTTPError (http_error_text r " Server Error: "))
  else Ok tt.

Section Client.

Variable W : world.

(** [requests.post(...)]: the call is logged, and either raises or returns
    the response of the remote end. *)
Definition post (c : http_call) : io response :=
  fun log =>
    (match respond W log c with
     | PostRaises e => Raise e
     | PostReturns r => Ok r
     end, log ++ [c]).

(** [r.json()] *)
Definition response_json (r : response) : result pyval :=
  match Json.loads (body r) with
  | Some v => Ok v
  | None => Raise (mk_exc JSONDecodeError (decode_error_text W (body r)))
  end.

(** The [try] suite of [_get_access_token]. *)
Definition token_request (self : LLMClient) : io pyval :=
  call resp <- post (TokenPost (token_url self) (client_id self)
                       (client_secret self) 15);
  call _ <- lift (raise_for_status resp);
  call j <- lift (response_json resp);
  lift (py_item_access_token j).

Definition _get_access_token (self : LLMClient) : io pyval :=
  try_except (token_request self)
    (fun _ => raise (mk_exc LLMError (lit "SAP AI Core authentication failed"))).

Definition chat_payload (self : LLMClient) (prompt : str) : pyval :=
  PDict
    [(lit "model", attr_value (model_name self));
     (lit "messages",
      PList
        [PDict [(lit "role", PStr (lit "system"));
                (lit "content", PStr (lit "You are an SAP short dump analysis expert."))];
         PDict [(lit "role", PStr (lit "user"));
                (lit "content", PStr prompt)]]);
     (lit "max_tokens", PInt (max_tokens self));
     (lit "temperature", PFloat (temperature self))].

(** [raw.get("choices", [{}])[0].get("message", {}).get("content", "")] *)
Definition first_choice_content (raw : pyval) : result pyval :=
  match py_get raw "choices" (PList [PDict []]) with
  | Raise e => Raise e
  | Ok choices =>
      match py_item0 choices with
      | Raise e => Raise e
      | Ok choice =>
          match py_get choice "message" (PDict []) with
          | Raise e => Raise e
          | Ok message => py_get message "content" (PStr [])
          end
      end
  end.

(** The [try] suite of [_call_sap_aicore]. *)
Definition inference_request (self : LLMClient) (prompt : str) (token : pyval)
  : io pyval :=
  call r <- post (InferencePost (inference_url self) token
                    (chat_payload self prompt) 60);
  call _ <- lift (raise_for_status r);
  call raw <- lift (response_json r);
  call text <- lift (first_choice_content raw);
  call parsed <- lift (_try_parse_json text);
  ret (analysis text parsed raw).

Definition _call_sap_aicore (self : LLMClient) (prompt : str) : io pyval :=
  if negb (py_all [token_url self; client_id self; client_secret self;
                   inference_url self])
  then raise (mk_exc LLMError (lit "SAP AI Core configuration missing"))
  else
    call token <- _get_access_token self;
    try_except (inference_request self prompt token)
      (fun e => raise (mk_exc LLMError (str_of_exc e))).

(** [j.get("result") or j.get("text") or j.get("output") or json.dumps(j)] *)
Definition local_text (j : pyval) : result pyval :=
  match py_get j "result" PNone with
  | Raise e => Raise e
  | Ok a =>
      if truthy a then Ok a
      else
        match py_get j "text" PNone with
        | Raise e => Raise e
        | Ok b =>
            if truthy b then Ok b
            else
              match py_get j "output" PNone with
              | Raise e => Raise e
              | Ok c =>
                  if truthy c then Ok c
                  else Ok (PStr (JsonEnc.dumps (float_repr W) j))
              end
        end
  end.

(** The [try] suite of [_call_local]. *)
Definition local_request (self : LLMClient) (prompt : str) : io pyval :=
  call r <- post (LocalPost (local_url self)
                    (PDict [(lit "prompt", PStr prompt)]) 60);
  call _ <- lift (raise_for_status r);
  call j <- lift (response_json r);
  call text <- lift (local_text j);
  call parsed <- lift (_try_parse_json text);
  ret (analysis text parsed j).

Definition _call_local (self : LLMClient) (prompt : str) : io pyval :=
  if negb (attr_truthy (local_url self))
  then raise (mk_exc LLMError (lit "LOCAL_LLM_URL not set"))
  else
    try_except (local_request self prompt)
      (fun e => raise (mk_exc LLMError (str_of_exc e))).

Definition analyze (self : LLMClient) (prompt : str) : io pyval :=
  if str_eqb (provider self) (lit "sap_aicore")
  then _call_sap_aicore self prompt
  else if str_eqb (provider self) (lit "local")
          || str_eqb (provider self) (lit "ollama")
          || str_eqb (provider self) (lit "vllm")
  then _call_local self prompt
  else raise (mk_exc LLMError (lit "Unknown LLM_PROVIDER: " ++ provider self)).

End Client.

(** ** class Storage (app/storage.py) *)

Module Storage.

(** Modelled from the spec: the persisted record of app/storage.py, whose
    source is not part of the files at hand; app/main.py only calls it.  An
    AnalysisRecord holds the record id, the input payload, the analysis
    result and the time of the write. *)
Record AnalysisRecord : Type := mk_record {
  record_id : str;
  input_payload : pyval;
  analysis_result : pyval;
  created_at : Z
}.

(** Modelled from the spec: the state of the store of app/storage.py, a
    durable keyed storage mapping a record identifier to its latest
    record. *)
Abbreviation store := (gmap str AnalysisRecord).

(** Modelled from the spec: [save_analysis] of app/storage.py.  It writes or
    replaces the record for [rid] and sets [created_at] to the write time
    [now]; it returns the record written. *)
Definition save_analysis (st : store) (now : Z) (rid : str)
    (payload result : pyval) : store * AnalysisRecord :=
  let rec := mk_record rid payload result now in
  (<[rid := rec]> st, rec).

(** Modelled from the spec: [get_analysis] of app/storage.py; [None] when
    the id is absent. *)
Definition get_analysis (st : store) (rid : str) : option AnalysisRecord :=
  st !! rid.

(** Modelled from the spec: the order of [list_recent] of app/storage.py,
    descending by [created_at]. *)
Definition newer_first (a b : AnalysisRecord) : Prop :=
  (created_at b <= created_at a)%Z.

#[global] Instance newer_first_dec a b : Decision (newer_first a b).
Proof. unfold newer_first. apply _. Defined.

(** Modelled from the spec: the records app/storage.py holds, one durable
    entry per record id. *)
Definition records (st : store) : list AnalysisRecord :=
  (map_to_list st).*2.

(** Modelled from the spec: [list_recent] of app/storage.py, the records in
    descending order of [created_at], truncated to [limit]. *)
Definition list_recent (st : store) (limit : Z) : list AnalysisRecord :=
  take (Z.to_nat limit) (merge_sort newer_first (records st)).

(** One call of [save_analysis]: the clock reading and the arguments. *)
Record save_call : Type := mk_save {
  at_time : Z;
  save_id : str;
  save_payload : pyval;
  save_result : pyval
}.

Definition apply_save (st : store) (c : save_call) : store :=
  fst (save_analysis st (at_time c) (save_id c) (save_payload c) (save_result c)).

(** The store after a sequence of saves. *)
Definition run_saves (st : store) (calls : list save_call) : store :=
  fold_left apply_save calls st.

(** Every record is filed under its own id. *)
Definition keyed (st : store) : Prop :=
  forall k r, st !! k = Some r -> record_id r = k.

(** The records of a listing that carry the id [rid]. *)
Definition with_id (rid : str) (l : list AnalysisRecord) : list AnalysisRecord :=
  base.filter (fun r => record_id r = rid) l.

End Storage.


(** ** Vocabulary of the statements *)

(** The text [_try_parse_json] searches: trimmed, with the fence markers
    removed. *)
Definition stripped (text : str) : str :=
  sub_close_fence (sub_open_fence (strip text)).

(** JSON text of the parse attempt that is made when no brace-delimited
    substring parses: the whole stripped text. *)
Definition whole_text_value (s : str) : pyval :=
  match Json.loads s with
  | Some v => v
  | None => PNone
  end.

(** A fenced block: three backticks, a tag, a newline, the body, a newline,
    three backticks. *)
Definition fenced (tag body : str) : str :=
  lit "```" ++ tag ++ [Chr.NL] ++ body ++ closing_fence.

(** The tags the opening-fence pattern accepts: none, or [json] in any
    letter case. *)
Definition is_json_tag (tag : str) : bool :=
  match tag with
  | [] => true
  | [j; s; o; n] =>
      ci_letter 106 j && ci_letter 115 s && ci_letter 111 o && ci_letter 110 n
  | _ => false
  end.

(** An opening fence marker: three backticks, a tag, a newline. *)
Definition opening_marker (tag : str) : str := lit "```" ++ tag ++ [Chr.NL].

(** A text that neither starts nor ends with whitespace. *)
Definition trimmed (t : str) : bool :=
  match t with
  | [] => true
  | c :: _ => negb (isspace c) && negb (isspace (List.last t c))
  end.

(** The connection parameters [_call_sap_aicore] insists on. *)
Definition remote_configured (self : LLMClient) : bool :=
  py_all [token_url self; client_id self; client_secret self; inference_url self].

(** The requests of one invocation for the remote-managed provider. *)
Definition token_post (self : LLMClient) : http_call :=
  TokenPost (token_url self) (client_id self) (client_secret self) 15.

Definition inference_post (self : LLMClient) (prompt : str) (token : pyval)
  : http_call :=
  InferencePost (inference_url self) token (chat_payload self prompt) 60.

Definition local_post (self : LLMClient) (prompt : str) : http_call :=
  LocalPost (local_url self) (PDict [(lit "prompt", PStr prompt)]) 60.

Definition is_token_post (c : http_call) : bool :=
  match c with
  | TokenPost _ _ _ _ => true
  | _ => false
  end.

Definition is_inference_post (c : http_call) : bool :=
  match c with
  | InferencePost _ _ _ _ => true
  | _ => false
  end.

Definition count_posts (kind : http_call -> bool) (log : list http_call) : nat :=
  List.length (List.filter kind log).

Definition is_none (v : pyval) : bool :=
  match v with
  | PNone => true
  | _ => false
  end.

Definition is_mapping (v : pyval) : bool :=
  match v with
  | PDict _ => true
  | _ => false
  end.

Module BySpec.

(** The normalizer as the specification words it, for comparison with
    [_try_parse_json]: an opening fence is three backticks and an optional
    language tag up to the end of the line, a closing fence is a newline and
    three backticks at the end of the text. *)
Fixpoint after_line (s : str) : option str :=
  match s with
  | [] => None
  | c :: r => if c =? Chr.NL then Some r else after_line r
  end.

Definition strip_opening_fence (s : str) : str :=
  if startswith s (lit "```") then
    match after_line (skipn 3 s) with
    | Some r => r
    | None => s
    end
  else s.

Definition strip_closing_fence (s : str) : str :=
  if endswith s closing_fence then drop_last 4 s else s.

Definition strip_fences (s : str) : str :=
  strip_closing_fence (strip_opening_fence s).

Definition parse (text : str) : pyval :=
  match text with
  | [] => PNone
  | _ :: _ =>
      let s := strip_fences text in
      let first := find s Chr.LBRACE in
      let last := rfind s Chr.RBRACE in
      let attempt :=
        if (0 <=? first)%Z && (first <? last)%Z
        then Json.loads (slice s first (last + 1))
        else None in
      match attempt with
      | Some v => v
      | None => whole_text_value s
      end
  end.




End BySpec.

(** ** Fixtures: a configured client of each kind and canned remote ends *)

Module Fixture.

Definition remote_client : LLMClient :=
  mk_client (lit "sap_aicore")
    (Some (lit "https://auth.example/oauth/token"))
    (Some (lit "client")) (Some (lit "secret"))
    (Some (lit "https://api.example/chat/completions"))
    (Some (lit "gpt-4o")) None 800 (FDec false 0 (-1)).

(** The same client without [AI_CORE_MODEL_NAME]. *)
Definition no_model_client : LLMClient :=
  mk_client (lit "sap_aicore")
    (Some (lit "https://auth.example/oauth/token"))
    (Some (lit "client")) (Some (lit "secret"))
    (Some (lit "https://api.example/chat/completions"))
    None None 800 (FDec false 0 (-1)).

(** A client with no token endpoint. *)
Definition no_token_url_client : LLMClient :=
  mk_client (lit "sap_aicore") None
    (Some (lit "client")) (Some (lit "secret"))
    (Some (lit "https://api.example/chat/completions"))
    (Some (lit "gpt-4o")) None 800 (FDec false 0 (-1)).

Definition local_client : LLMClient :=
  mk_client (lit "local") None None None None None
    (Some (lit "http://localhost:8000/generate")) 800 (FDec false 0 (-1)).

Definition ok_response (body : str) : post_outcome :=
  PostReturns (mk_response 200 (lit "OK") (lit "https://example") body).

Definition refused : post_outcome :=
  PostRaises (mk_exc ConnectionError (lit "connection refused")).

(** A remote end that answers the token exchange with [token_reply] and any
    other request with [reply]. *)
Definition remote_end (token_reply reply : post_outcome) : world :=
  mk_world
    (fun _ c =>
       match c with
       | TokenPost _ _ _ _ => token_reply
       | _ => reply
       end)
    (fun _ _ _ => lit "0.0")
    (fun _ => lit "Expecting value: line 1 column 1 (char 0)").

Definition q : str := [Chr.DQUOTE].

(** [{"access_token": "T"}] *)
Definition token_body : str :=
  lit "{" ++ q ++ lit "access_token" ++ q ++ lit ": " ++ q ++ lit "T" ++ q ++ lit "}".

(** [{"choices": []}] *)
Definition empty_choices_body : str :=
  lit "{" ++ q ++ lit "choices" ++ q ++ lit ": []}".

(** [{"choices": [{"message": {"content": "hi"}}]}] *)
Definition chat_body : str :=
  lit "{" ++ q ++ lit "choices" ++ q ++ lit ": [{" ++ q ++ lit "message" ++ q
  ++ lit ": {" ++ q ++ lit "content" ++ q ++ lit ": " ++ q ++ lit "hi" ++ q
  ++ lit "}}]}".

(** [{"text": "hello"}] *)
Definition local_body : str :=
  lit "{" ++ q ++ lit "text" ++ q ++ lit ": " ++ q ++ lit "hello" ++ q ++ lit "}".

(** The fenced example of the specification. *)
Definition fenced_priority : str :=
  lit "```json" ++ [Chr.NL] ++ lit "{" ++ q ++ lit "priority" ++ q ++ lit ":"
  ++ q ++ lit "High" ++ q ++ lit "}" ++ [Chr.NL] ++ lit "```".

(** The prose example of the specification. *)
Definition prose_result : str :=
  lit "Here is the result: {" ++ q ++ lit "a" ++ q ++ lit ":1} -- end".

(** The decoded [chat_body]. *)
Definition chat_raw : pyval :=
  PDict [(lit "choices",
          PList [PDict [(lit "message",
                         PDict [(lit "content", PStr (lit "hi"))])]])].

(** A block fenced with another language tag. *)
Definition fenced_python : str := fenced (lit "python") (lit "[1]").

End Fixture.

(** ** More vocabulary: provider names, statuses, degraded bodies *)

(** The provider names [analyze] dispatches on. *)
Definition known_providers : list str :=
  [lit "sap_aicore"; lit "local"; lit "ollama"; lit "vllm"].

Definition local_providers : list str := [lit "local"; lit "ollama"; lit "vllm"].

(** The statuses [raise_for_status] turns into an [HTTPError]. *)
Definition error_status (r : response) : bool :=
  ((400 <=? status_code r) && (status_code r <? 600))%Z.

(** A completion body that has no text to offer although nothing in it has
    the wrong shape: no [choices], or a first choice that is an object
    without [message], or a [message] that is an object without
    [content]. *)
Definition content_absent (d : list (str * pyval)) : bool :=
  match dict_lookup d (lit "choices") with
  | None => true
  | Some (PList (PDict c :: _)) =>
      match dict_lookup c (lit "message") with
      | None => true
      | Some (PDict m) =>
          match dict_lookup m (lit "content") with
          | None => true
          | Some _ => false
          end
      | Some _ => false
      end
  | Some _ => false
  end.

Definition is_str (v : pyval) : bool :=
  match v with
  | PStr _ => true
  | _ => false
  end.

(** ** [analyze] for a prompt of any type

    [analyze] never inspects its prompt: it stores it in the payload of the
    request.  The endpoint [/v1/predict] passes whatever JSON value the
    request holds, so here the client is written again for a prompt that is
    any object. *)

Section ClientAnyPrompt.

Variable W : world.

Definition chat_payload_obj (self : LLMClient) (prompt : pyval) : pyval :=
  PDict
    [(lit "model", attr_value (model_name self));
     (lit "messages",
      PList
        [PDict [(lit "role", PStr (lit "system"));
                (lit "content", PStr (lit "You are an SAP short dump analysis expert."))];
         PDict [(lit "role", PStr (lit "user"));
                (lit "content", prompt)]]);
     (lit "max_tokens", PInt (max_tokens self));
     (lit "temperature", PFloat (temperature self))].

Definition inference_request_obj (self : LLMClient) (prompt token : pyval)
  : io pyval :=
  call r <- post W (InferencePost (inference_url self) token
                      (chat_payload_obj self prompt) 60);
  call _ <- lift (raise_for_status r);
  call raw <- lift (response_json W r);
  call text <- lift (first_choice_content raw);
  call parsed <- lift (_try_parse_json text);
  ret (analysis text parsed raw).

Definition _call_sap_aicore_obj (self : LLMClient) (prompt : pyval) : io pyval :=
  if negb (py_all [token_url self; client_id self; client_secret self;
                   inference_url self])
  then raise (mk_exc LLMError (lit "SAP AI Core configuration missing"))
  else
    call token <- _get_access_token W self;
    try_except (inference_request_obj self prompt token)
      (fun e => raise (mk_exc LLMError (str_of_exc e))).

Definition local_request_obj (self : LLMClient) (prompt : pyval) : io pyval :=
  call r <- post W (LocalPost (local_url self)
                      (PDict [(lit "prompt", prompt)]) 60);
  call _ <- lift (raise_for_status r);
  call j <- lift (response_json W r);
  call text <- lift (local_text W j);
  call parsed <- lift (_try_parse_json text);
  ret (analysis text parsed j).

Definition _call_local_obj (self : LLMClient) (prompt : pyval) : io pyval :=
  if negb (attr_truthy (local_url self))
  then raise (mk_exc LLMError (lit "LOCAL_LLM_URL not set"))
  else
    try_except (local_request_obj self prompt)
      (fun e => raise (mk_exc LLMError (str_of_exc e))).

Definition analyze_obj (self : LLMClient) (prompt : pyval) : io pyval :=
  if str_eqb (provider self) (lit "sap_aicore")
  then _call_sap_aicore_obj self prompt
  else if str_eqb (provider self) (lit "local")
          || str_eqb (provider self) (lit "ollama")
          || str_eqb (provider self) (lit "vllm")
  then _call_local_obj self prompt
  else raise (mk_exc LLMError (lit "Unknown LLM_PROVIDER: " ++ provider self)).

End ClientAnyPrompt.

(** ** The gateway (app/main.py) *)

Module Gateway.

(** How a request handler ends: at its last statement, which answers with
    a status and a content; with an [HTTPException]; or with an exception
    nothing in the handler catches.  [predict] returns its content to the
    framework, which renders it after the handler has ended; [analyze_dump]
    builds the [JSONResponse] itself, and the rendering in its constructor
    is part of the handler ([render_raises] below). *)
Inductive reply : Type :=
| Respond (status : Z) (content : pyval)
| HTTPException (status : Z) (detail : str)
| Unhandled (e : exc).

(** [predict(request)], the handler of [POST /v1/predict].  [request_json]
    is what [await request.json()] gives: the decoded body, or the exception
    it raised. *)
Definition predict (W : world) (llm_client : LLMClient)
    (request_json : result pyval) (log : list http_call)
  : reply * list http_call :=
  match request_json with
  | Raise _ => (HTTPException 400 (lit "Invalid JSON body"), log)
  | Ok body =>
      match py_get body "prompt" PNone with
      | Raise e => (Unhandled e, log)
      | Ok prompt =>
          if negb (truthy prompt)
          then (HTTPException 400 (lit "'prompt' field is required"), log)
          else
            match analyze_obj W llm_client prompt log with
            | (Ok resp, log') => (Respond 200 (PDict [(lit "result", resp)]), log')
            | (Raise e, log') => (HTTPException 500 (str_of_exc e), log')
            end
      end
  end.

(** The request model [DumpIn] of app/schemas.py is not among the files at
    hand: the handler reads its fields [dump_header] and [dump_code] and its
    two renderings, [payload.json()] and [payload.dict()]. *)
Record DumpIn : Type := mk_dump {
  dump_header : pyval;
  dump_code : option str;
  dump_json : str;
  dump_dict : pyval
}.

(** One call of [store.save_analysis]. *)
Record save_request : Type := mk_saved {
  saved_id : pyval;
  saved_payload : pyval;
  saved_result : pyval
}.

(** What app/main.py imports and does not define: the prompt template of
    app/prompts.py, as the function [PROMPT_TEMPLATE.format(dump=, code=)];
    the store, which may raise on a save; and the response class of the
    framework, [JSONResponse], whose constructor renders the content and
    raises when the content cannot be rendered (a float that is not finite,
    for one). *)
Record imported : Type := mk_imported {
  render_prompt : str -> str -> str;
  save_raises : save_request -> option exc;
  render_raises : pyval -> option exc
}.

(** [x or default], as in [payload.dump_header or {}] *)
Definition or_else (x default : pyval) : pyval := if truthy x then x else default.

(** [llm_resp.get("json") or llm_resp.get("parsed") or None], then the
    fallback [{"raw_text": llm_resp.get("text")}] when that is false. *)
Definition ai_summary (llm_resp : pyval) : result pyval :=
  match py_get llm_resp "json" PNone with
  | Raise e => Raise e
  | Ok a =>
      match (if truthy a then Ok a
             else match py_get llm_resp "parsed" PNone with
                  | Raise e => Raise e
                  | Ok b => Ok (or_else b PNone)
                  end) with
      | Raise e => Raise e
      | Ok ai_parsed =>
          if negb (truthy ai_parsed) then
            match py_get llm_resp "text" PNone with
            | Raise e => Raise e
            | Ok t => Ok (PDict [(lit "raw_text", t)])
            end
          else Ok ai_parsed
      end
  end.

(** [ai_parsed.get("priority") if isinstance(ai_parsed, dict) else "Unknown"] *)
Definition priority_of (ai_parsed : pyval) : pyval :=
  match ai_parsed with
  | PDict d =>
      match dict_lookup d (lit "priority") with
      | Some p => p
      | None => PNone
      end
  | _ => PStr (lit "Unknown")
  end.

(** [analyze_dump(payload, request)], the handler of [POST /api/dumps].  It
    threads the log of provider requests and the log of saves. *)
Definition analyze_dump (W : world) (A : imported) (llm_client : LLMClient)
    (payload : DumpIn) (log : list http_call) (saves : list save_request)
  : reply * list http_call * list save_request :=
  match py_get (or_else (dump_header payload) (PDict [])) "id" PNone with
  | Raise e => (Unhandled e, log, saves)
  | Ok dump_id =>
      if negb (truthy dump_id)
      then (HTTPException 400 (lit "dump_header.id is required"), log, saves)
      else
        let code :=
          match dump_code payload with
          | Some c => c
          | None => []
          end in
        let prompt := render_prompt A (dump_json payload) code in
        match analyze W llm_client prompt log with
        | (Raise e, log') =>
            (HTTPException 500
               (match exc_type e with
                | LLMError => lit "LLM provider error: " ++ str_of_exc e
                | _ => str_of_exc e
                end), log', saves)
        | (Ok llm_resp, log') =>
            match ai_summary llm_resp with
            | Raise e => (Unhandled e, log', saves)
            | Ok ai_parsed =>
                let saved := mk_saved dump_id (dump_dict payload) llm_resp in
                match save_raises A saved with
                | Some e => (Unhandled e, log', saves ++ [saved])
                | None =>
                    let out :=
                      PDict [(lit "dump_id", dump_id);
                             (lit "dump", dump_dict payload);
                             (lit "ai_summary", ai_parsed);
                             (lit "priority", priority_of ai_parsed);
                             (lit "raw_llm", llm_resp)] in
                    match render_raises A out with
                    | Some e => (Unhandled e, log', saves ++ [saved])
                    | None => (Respond 201 out, log', saves ++ [saved])
                    end
                end
            end
        end
  end.

Definition is_response (r : reply) : bool :=
  match r with
  | Respond _ _ => true
  | _ => false
  end.

(** The id [analyze_dump] reads from the header, when the header lets it:
    [(payload.dump_header or {}).get("id")]. *)
Definition header_id (payload : DumpIn) : result pyval :=
  py_get (or_else (dump_header payload) (PDict [])) "id" PNone.

(** The prompt [analyze_dump] builds. *)
Definition prompt_of (A : imported) (payload : DumpIn) : str :=
  render_prompt A (dump_json payload)
    (match dump_code payload with Some c => c | None => [] end).

End Gateway.

(** What a call of [analyze] ends with: a dictionary of [text], [json] and
    [raw] whose [json] is what [_try_parse_json] makes of the text, or an
    [LLMError]. *)
Definition provider_outcome (o : result pyval) : Prop :=
  match o with
  | Ok r =>
      exists text parsed raw,
        r = analysis text parsed raw /\ _try_parse_json text = Ok parsed
  | Raise e => exc_type e = LLMError
  end.

(** [j.get(k)] is false: the key is absent or its value is false. *)
Definition get_is_false (d : list (str * pyval)) (k : string) : bool :=
  match dict_lookup d (lit k) with
  | Some v => negb (truthy v)
  | None => true
  end.

(** ** Values that [json.dumps] and [json.loads] carry back and forth *)

(** A Unicode scalar value: a code point that is no surrogate. *)
Definition scalar (c : N) : bool :=
  (c <? 55296) || ((57343 <? c) && (c <? 1114112)).

Fixpoint unique_keys (d : list (str * pyval)) : bool :=
  match d with
  | [] => true
  | (k, _) :: d' =>
      negb (existsb (fun kv => str_eqb (fst kv) k) d') && unique_keys d'
  end.

(** A value without floats, whose strings hold scalar values only and whose
    objects have no key twice. *)
Fixpoint plain (v : pyval) : bool :=
  match v with
  | PNone => true
  | PBool _ => true
  | PInt _ => true
  | PFloat _ => false
  | PStr s => forallb scalar s
  | PList l => forallb plain l
  | PDict d =>
      forallb (fun kv => forallb scalar (fst kv) && plain (snd kv)) d
      && unique_keys d
  end.

(** The limits of the interpreter, at their defaults.  An integer of more
    than [max_str_digits] digits is neither written by [json.dumps] nor read
    by [json.loads] ([sys.int_info.default_max_str_digits]); both recurse
    once for each level of nesting, and [max_depth] levels are far below
    the recursion limit (1000 by default) from wherever a request handler
    calls them. *)
Definition max_str_digits : Z := 4300.

Definition max_depth : nat := 100.

Fixpoint depth (v : pyval) : nat :=
  match v with
  | PList l => S (fold_right (fun x n => Nat.max (depth x) n) O l)
  | PDict d => S (fold_right (fun kv n => Nat.max (depth (snd kv)) n) O d)
  | _ => O
  end.

Fixpoint short_ints (v : pyval) : bool :=
  match v with
  | PInt z => (Z.abs z <? 10 ^ max_str_digits)%Z
  | PList l => forallb short_ints l
  | PDict d => forallb (fun kv => short_ints (snd kv)) d
  | _ => true
  end.

(** A value the encoder and the decoder of the interpreter handle: no
    integer beyond the digit limit, no nesting beyond [max_depth]. *)
Definition within_limits (v : pyval) : bool :=
  short_ints v && (depth v <=? max_depth)%nat.

(** What may follow a value inside a document: nothing, a comma, or a
    closing bracket or brace. *)
Definition closes (rest : str) : bool :=
  match rest with
  | [] => true
  | c :: _ => (c =? Chr.COMMA) || (c =? Chr.RBRACKET) || (c =? Chr.RBRACE)
  end.

(** What may start a value: no whitespace, no closing bracket or brace, no
    byte order mark. *)
Definition opens (c : N) : bool :=
  negb (Json.is_ws c) && negb (c =? Chr.RBRACKET) && negb (c =? Chr.RBRACE)
  && negb (c =? Chr.BOM).

Definition printable (c : N) : bool := (32 <=? c) && (c <=? 126).

(** The characters of a decimal numeral. *)
Fixpoint digits_of (d : Decimal.uint) : str :=
  match d with
  | Decimal.Nil => []
  | Decimal.D0 d => 48 :: digits_of d
  | Decimal.D1 d => 49 :: digits_of d
  | Decimal.D2 d => 50 :: digits_of d
  | Decimal.D3 d => 51 :: digits_of d
  | Decimal.D4 d => 52 :: digits_of d
  | Decimal.D5 d => 53 :: digits_of d
  | Decimal.D6 d => 54 :: digits_of d
  | Decimal.D7 d => 55 :: digits_of d
  | Decimal.D8 d => 56 :: digits_of d
  | Decimal.D9 d => 57 :: digits_of d
  end.

(** What [json.dumps] writes after the opening bracket of a non-empty
    array, and after the opening quote of the first key of a non-empty
    object, followed by [rest]. *)
Fixpoint items_text (fr : bool -> N -> Z -> str) (x : pyval) (l : list pyval)
    (rest : str) : str :=
  match l with
  | [] => JsonEnc.dumps fr x ++ Chr.RBRACKET :: rest
  | y :: l' =>
      JsonEnc.dumps fr x ++ Chr.COMMA :: Chr.SPACE :: items_text fr y l' rest
  end.

Fixpoint members_text (fr : bool -> N -> Z -> str) (k : str) (v : pyval)
    (d : list (str * pyval)) (rest : str) : str :=
  flat_map JsonEnc.escape_char k
  ++ Chr.DQUOTE :: Chr.COLON :: Chr.SPACE :: JsonEnc.dumps fr v
  ++ match d with
     | [] => Chr.RBRACE :: rest
     | (k', v') :: d' =>
         Chr.COMMA :: Chr.SPACE :: Chr.DQUOTE :: members_text fr k' v' d' rest
     end.

(** One member of an object as [json.dumps] writes it. *)
Definition member (fr : bool -> N -> Z -> str) (kv : str * pyval) : str :=
  let '(k, x) := kv in
  JsonEnc.quote k ++ lit ": " ++ JsonEnc.dumps fr x.

(** Scanning the serialized [v], followed by something that closes a value,
    gives [v] back and stops at what follows. *)
Definition scans (fr : bool -> N -> Z -> str) (v : pyval) : Prop :=
  plain v = true ->
  forall rest, closes rest = true ->
    exists n, Json.scan_once n (JsonEnc.dumps fr v ++ rest) = Json.Scanned v rest.

(** ** Sample requests to the gateway *)

Module Sample.

(** A template that writes the dump and then the code. *)
Definition template : Gateway.imported :=
  Gateway.mk_imported (fun dump code => dump ++ lit " / " ++ code)
    (fun _ => None) (fun _ => None).

(** A dump whose header carries the id [D1]. *)
Definition dump : Gateway.DumpIn :=
  Gateway.mk_dump (PDict [(lit "id", PStr (lit "D1"))]) None (lit "{}")
    (PDict [(lit "dump_header", PDict [(lit "id", PStr (lit "D1"))])]).

(** A local service that answers [{"text": "hello"}]. *)
Definition local_service : world :=
  Fixture.remote_end Fixture.refused (Fixture.ok_response Fixture.local_body).

(** What [analyze] makes of that answer. *)
Definition hello : pyval :=
  analysis (PStr (lit "hello")) PNone (PDict [(lit "text", PStr (lit "hello"))]).

(** The one request [analyze_dump] makes the provider send for [dump]. *)
Definition hello_request : http_call :=
  local_post Fixture.local_client (Gateway.prompt_of template dump).

(** [{"answer": "x", "n": [1, true, null]}] *)
Definition bare : list (str * pyval) :=
  [(lit "answer", PStr (lit "x"));
   (lit "n", PList [PInt 1; PBool true; PNone])].



End Sample.

(** * Properties *)

(** ** Strings, search and the fence substitutions *)

Lemma str_eqb_eq (a b : str) : str_eqb a b = true <-> a = b.
Proof.
  revert b; induction a as [|x a IH]; intros [|y b]; simpl; try easy.
  rewrite andb_true_iff, N.eqb_eq, IH. split.
  - intros [-> ->]; reflexivity.
  - intros [= -> ->]; auto.
Qed.

Lemma startswith_app (p r : str) : startswith (p ++ r) p = true.
Proof. induction p as [|x p IH]; simpl; [easy|]. now rewrite N.eqb_refl. Qed.

Lemma startswith_prefix (s p : str) :
  startswith s p = true -> exists r, s = p ++ r.
Proof.
  revert s. induction p as [|x p IH]; intros s H; [now exists s|].
  destruct s as [|y s]; [discriminate|]. cbn [startswith] in H.
  apply andb_true_iff in H as [E H]. apply N.eqb_eq in E as ->.
  destruct (IH s H) as [r ->]. now exists r.
Qed.

Lemma endswith_suffix (s p : str) :
  endswith s p = true -> exists body, s = body ++ p.
Proof.
  unfold endswith. intros H. destruct (startswith_prefix _ _ H) as [r E].
  exists (rev r). apply (f_equal (@rev N)) in E.
  rewrite rev_involutive, rev_app_distr, rev_involutive in E. exact E.
Qed.

Lemma find_from_absent (c : N) (s : str) (i : Z) :
  ~ In c s -> find_from c s i = (-1)%Z.
Proof.
  revert i; induction s as [|x s IH]; intros i H; simpl; [reflexivity|].
  destruct (N.eqb_spec x c) as [->|_]; [exfalso; apply H; now left|].
  apply IH. intros Hin. apply H. now right.
Qed.

Lemma find_from_first (c : N) (pre rest : str) (i : Z) :
  ~ In c pre ->
  find_from c (pre ++ c :: rest) i = (i + Z.of_nat (List.length pre))%Z.
Proof.
  revert i; induction pre as [|x pre IH]; intros i H; simpl.
  - rewrite N.eqb_refl. lia.
  - destruct (N.eqb_spec x c) as [->|_]; [exfalso; apply H; now left|].
    rewrite IH; [lia|]. intros Hin. apply H. now right.
Qed.

Lemma find_from_cases (c : N) (s : str) (i : Z) :
  (~ In c s /\ find_from c s i = (-1)%Z) \/
  (exists pre rest, s = pre ++ c :: rest /\ ~ In c pre /\
     find_from c s i = (i + Z.of_nat (List.length pre))%Z).
Proof.
  revert i; induction s as [|x s IH]; intros i; simpl.
  - left. split; [tauto|reflexivity].
  - destruct (N.eqb_spec x c) as [->|Hne].
    + right. exists [], s. repeat split; [tauto|simpl; lia].
    + destruct (IH (i + 1)%Z) as [[Habs E]|(pre & rest & -> & Hpre & E)].
      * left. split; [|exact E]. intros [?|?]; tauto.
      * right. exists (x :: pre), rest. repeat split.
        -- intros [?|?]; tauto.
        -- rewrite E. simpl List.length. lia.
Qed.

Lemma rfind_from_absent (c : N) (s : str) (i last : Z) :
  ~ In c s -> rfind_from c s i last = last.
Proof.
  revert i last; induction s as [|x s IH]; intros i last H; simpl; [reflexivity|].
  destruct (N.eqb_spec x c) as [->|_]; [exfalso; apply H; now left|].
  apply IH. intros Hin. apply H. now right.
Qed.

Lemma rfind_from_last (c : N) (a post : str) (i last : Z) :
  ~ In c post ->
  rfind_from c (a ++ c :: post) i last = (i + Z.of_nat (List.length a))%Z.
Proof.
  intros H. revert i last; induction a as [|x a IH]; intros i last; simpl.
  - rewrite N.eqb_refl, rfind_from_absent by assumption. lia.
  - rewrite IH. lia.
Qed.

Lemma rfind_from_cases (c : N) (s : str) (i last : Z) :
  (~ In c s /\ rfind_from c s i last = last) \/
  (exists a post, s = a ++ c :: post /\ ~ In c post /\
     rfind_from c s i last = (i + Z.of_nat (List.length a))%Z).
Proof.
  revert i last; induction s as [|x s IH]; intros i last; simpl.
  - left. split; [tauto|reflexivity].
  - destruct (IH (i + 1)%Z (if x =? c then i else last))
      as [[Habs E]|(a & post & -> & Hpost & E)].
    + destruct (N.eqb_spec x c) as [->|Hne].
      * right. exists [], s. repeat split; [assumption|]. rewrite E. simpl. lia.
      * left. split; [|exact E]. intros [?|?]; tauto.
    + right. exists (x :: a), post. repeat split; [assumption|].
      rewrite E. simpl List.length. lia.
Qed.

Lemma slice_middle (pre mid post : str) :
  slice (pre ++ mid ++ post) (Z.of_nat (List.length pre))
        (Z.of_nat (List.length pre) + Z.of_nat (List.length mid)) = mid.
Proof.
  unfold slice.
  replace (Z.to_nat (Z.of_nat (List.length pre) + Z.of_nat (List.length mid)
                     - Z.of_nat (List.length pre))) with (List.length mid) by lia.
  rewrite Nat2Z.id, skipn_app, skipn_all, Nat.sub_diag.
  rewrite skipn_O. cbn [app].
  rewrite firstn_app, firstn_all, Nat.sub_diag, firstn_O. apply app_nil_r.
Qed.

Lemma prefix_split (pre a u v : str) :
  pre ++ u = a ++ v -> (List.length pre < List.length a)%nat ->
  exists m, a = pre ++ m /\ u = m ++ v /\ m <> [].
Proof.
  revert a; induction pre as [|x pre IH]; intros a E L.
  - exists a. simpl in *. repeat split; [assumption|]. intros ->. simpl in L. lia.
  - destruct a as [|y a]; [simpl in L; lia|]. simpl in E. injection E as -> E.
    destruct (IH a E) as (m & -> & -> & Hm); [simpl in L; lia|].
    exists m. repeat split. assumption.
Qed.

(** The text between the first opening brace and the last closing brace. *)
Lemma brace_span (pre mid post : str) :
  let s := pre ++ Chr.LBRACE :: mid ++ Chr.RBRACE :: post in
  ~ In Chr.LBRACE pre -> ~ In Chr.RBRACE post ->
  find s Chr.LBRACE = Z.of_nat (List.length pre) /\
  rfind s Chr.RBRACE = (Z.of_nat (List.length pre) + 1 + Z.of_nat (List.length mid))%Z /\
  slice s (find s Chr.LBRACE) (rfind s Chr.RBRACE + 1)
  = Chr.LBRACE :: mid ++ [Chr.RBRACE].
Proof.
  intros s Hpre Hpost.
  assert (F : find s Chr.LBRACE = Z.of_nat (List.length pre)).
  { unfold find, s. rewrite find_from_first by assumption. lia. }
  assert (R : rfind s Chr.RBRACE
              = (Z.of_nat (List.length pre) + 1 + Z.of_nat (List.length mid))%Z).
  { unfold rfind, s.
    replace (pre ++ Chr.LBRACE :: mid ++ Chr.RBRACE :: post)
      with ((pre ++ Chr.LBRACE :: mid) ++ Chr.RBRACE :: post)
      by (rewrite <- app_assoc; reflexivity).
    rewrite rfind_from_last by assumption.
    rewrite length_app. simpl List.length. lia. }
  repeat split; [exact F|exact R|].
  rewrite F, R. unfold s.
  replace (Chr.LBRACE :: mid ++ Chr.RBRACE :: post)
    with ((Chr.LBRACE :: mid ++ [Chr.RBRACE]) ++ post)
    by (simpl; rewrite <- app_assoc; reflexivity).
  replace (Z.of_nat (List.length pre) + 1 + Z.of_nat (List.length mid) + 1)%Z
    with (Z.of_nat (List.length pre)
          + Z.of_nat (List.length (Chr.LBRACE :: mid ++ [Chr.RBRACE])))%Z.
  - apply slice_middle.
  - simpl List.length. rewrite length_app. simpl List.length. lia.
Qed.

Lemma parse_text_unfold (text : str) :
  parse_text text =
  let s := stripped text in
  let first := find s Chr.LBRACE in
  let last := rfind s Chr.RBRACE in
  match
    (if negb (first =? -1)%Z && negb (last =? -1)%Z && (last >? first)%Z
     then Json.loads (slice s first (last + 1)) else None)
  with
  | Some v => v
  | None => whole_text_value s
  end.
Proof. reflexivity. Qed.

(** First attempt: the brace-delimited substring; only when it does not
    decode, the whole stripped text. *)
Lemma parse_text_span (text pre mid post : str) :
  stripped text = pre ++ Chr.LBRACE :: mid ++ Chr.RBRACE :: post ->
  ~ In Chr.LBRACE pre -> ~ In Chr.RBRACE post ->
  parse_text text =
  match Json.loads (Chr.LBRACE :: mid ++ [Chr.RBRACE]) with
  | Some v => v
  | None => whole_text_value (stripped text)
  end.
Proof.
  intros E Hpre Hpost. rewrite parse_text_unfold. cbv zeta.
  destruct (brace_span pre mid post Hpre Hpost) as (F & R & S).
  rewrite <- E in F, R, S. rewrite S, F, R.
  replace (negb (Z.of_nat (List.length pre) =? -1)%Z) with true
    by (symmetry; apply negb_true_iff, Z.eqb_neq; lia).
  replace (negb (Z.of_nat (List.length pre) + 1 + Z.of_nat (List.length mid) =? -1)%Z)
    with true by (symmetry; apply negb_true_iff, Z.eqb_neq; lia).
  replace (Z.of_nat (List.length pre) + 1 + Z.of_nat (List.length mid)
           >? Z.of_nat (List.length pre))%Z with true
    by (symmetry; apply Z.gtb_lt; lia).
  reflexivity.
Qed.

(** Without an opening brace before a closing one there is one attempt. *)
Lemma parse_text_no_span (text : str) :
  ~ In Chr.LBRACE (stripped text) \/ ~ In Chr.RBRACE (stripped text) ->
  parse_text text = whole_text_value (stripped text).
Proof.
  intros H. rewrite parse_text_unfold. cbv zeta. destruct H as [H|H].
  - unfold find at 1. rewrite find_from_absent by assumption. reflexivity.
  - unfold rfind at 1. rewrite rfind_from_absent by assumption.
    simpl. rewrite andb_false_r. reflexivity.
Qed.

Lemma parse_text_cases (text : str) :
  (exists pre mid post,
     stripped text = pre ++ Chr.LBRACE :: mid ++ Chr.RBRACE :: post /\
     ~ In Chr.LBRACE pre /\ ~ In Chr.RBRACE post) \/
  parse_text text = whole_text_value (stripped text).
Proof.
  rewrite parse_text_unfold. cbv zeta. set (s := stripped text).
  destruct (find_from_cases Chr.LBRACE s 0) as [[Habs F]|(pre & rest & E1 & Hpre & F)].
  { right. unfold find. rewrite F. reflexivity. }
  destruct (rfind_from_cases Chr.RBRACE s 0 (-1)) as [[Habs R]|(a & post & E2 & Hpost & R)].
  { right. unfold rfind at 1. rewrite R. simpl. rewrite andb_false_r. reflexivity. }
  destruct (Z.gtb_spec (rfind s Chr.RBRACE) (find s Chr.LBRACE)) as [L|L].
  - left. unfold find, rfind in L. rewrite F, R in L.
    assert (E : pre ++ Chr.LBRACE :: rest = a ++ Chr.RBRACE :: post) by congruence.
    destruct (prefix_split _ _ _ _ E) as (m & -> & Em & Hm); [lia|].
    destruct m as [|x mid]; [congruence|]. simpl in Em. injection Em as <- ->.
    exists pre, mid, post. repeat split; assumption.
  - right. rewrite andb_false_r. reflexivity.
Qed.

Lemma lstrip_head (c : N) (s : str) : isspace c = false -> lstrip (c :: s) = c :: s.
Proof. intros H. simpl. now rewrite H. Qed.

Lemma strip_fixed (c d : N) (m : str) :
  isspace c = false -> isspace d = false -> strip (c :: m ++ [d]) = c :: m ++ [d].
Proof.
  intros Hc Hd. unfold strip, rstrip. rewrite lstrip_head by assumption.
  change (c :: m ++ [d]) with ((c :: m) ++ [d]).
  rewrite rev_unit, lstrip_head by assumption.
  change (d :: rev (c :: m)) with ([d] ++ rev (c :: m)).
  rewrite rev_app_distr, rev_involutive. reflexivity.
Qed.

(** Whitespace around a text is what [strip] removes. *)
Lemma lstrip_spaces (pad s : str) :
  forallb isspace pad = true -> lstrip (pad ++ s) = lstrip s.
Proof.
  induction pad as [|c pad IH]; [reflexivity|].
  cbn [forallb app]. intros H. apply andb_true_iff in H as [Hc Hpad].
  cbn [lstrip]. rewrite Hc. now apply IH.
Qed.

Lemma lstrip_all_spaces (pad : str) :
  forallb isspace pad = true -> lstrip pad = [].
Proof.
  intros H. rewrite <- (app_nil_r pad). now rewrite lstrip_spaces.
Qed.

Lemma lstrip_cases (s : str) :
  (lstrip s = [] /\ forallb isspace s = true) \/
  (exists pre c r, s = pre ++ c :: r /\ forallb isspace pre = true /\
     isspace c = false /\ lstrip s = c :: r).
Proof.
  induction s as [|x s IH]; [left; split; reflexivity|].
  cbn [lstrip forallb]. destruct (isspace x) eqn:X.
  - destruct IH as [[E F]|(pre & c & r & -> & F & C & E)].
    + left. split; assumption.
    + right. exists (x :: pre), c, r. cbn [forallb]. rewrite X.
      repeat split; assumption.
  - right. exists [], x, s. repeat split. exact X.
Qed.

Lemma rstrip_spaces (s pad : str) :
  forallb isspace pad = true -> rstrip (s ++ pad) = rstrip s.
Proof.
  intros H. unfold rstrip. rewrite rev_app_distr, lstrip_spaces; [reflexivity|].
  rewrite forallb_forall in *. intros x Hx. apply H. now apply in_rev.
Qed.

Lemma strip_padding (pad t pad' : str) :
  forallb isspace pad = true -> forallb isspace pad' = true ->
  strip (pad ++ t ++ pad') = strip t.
Proof.
  intros Hpad Hpad'. unfold strip. rewrite lstrip_spaces by assumption.
  destruct (lstrip_cases t) as [[E F]|(pre & c & r & -> & F & C & E)].
  - rewrite E, lstrip_all_spaces; [reflexivity|].
    rewrite forallb_app. now rewrite F, Hpad'.
  - rewrite E. rewrite <- app_assoc, lstrip_spaces by assumption.
    cbn [app lstrip]. rewrite C.
    change (c :: r ++ pad') with ((c :: r) ++ pad').
    now apply rstrip_spaces.
Qed.

Lemma strip_trimmed (t : str) : trimmed t = true -> strip t = t.
Proof.
  destruct t as [|c m]; [reflexivity|]. unfold trimmed.
  rewrite andb_true_iff, !negb_true_iff. intros [Hc Hd].
  destruct (exists_last (l := c :: m)) as (m' & d & E); [discriminate|].
  rewrite E in Hd. rewrite last_last in Hd.
  destruct m' as [|c' m'].
  - cbn [app] in E. injection E as -> ->.
    change [d] with (d :: [] ++ []). unfold strip, rstrip. cbn [lstrip app].
    rewrite Hc. cbn [rev app lstrip]. rewrite Hc. reflexivity.
  - cbn [app] in E. injection E as -> ->. now apply strip_fixed.
Qed.

Lemma strip_spec (pad t pad' : str) :
  forallb isspace pad = true -> forallb isspace pad' = true ->
  trimmed t = true -> strip (pad ++ t ++ pad') = t.
Proof.
  intros Hp Hp' Ht. rewrite strip_padding by assumption. now apply strip_trimmed.
Qed.

Lemma match_open_fence_other (c : N) (s : str) :
  c <> Chr.BACKTICK -> match_open_fence (c :: s) = None.
Proof.
  intros H. apply N.eqb_neq in H. unfold match_open_fence.
  destruct s as [|b2 [|b3 r]]; try reflexivity. now rewrite H.
Qed.

Lemma match_open_fence_plain (r : str) :
  match_open_fence (lit "```" ++ Chr.NL :: r) = Some 4%nat.
Proof. destruct r as [|a [|b [|c [|d r]]]]; reflexivity. Qed.

Lemma match_open_fence_json (j s o n : N) (r : str) :
  is_json_tag [j; s; o; n] = true ->
  match_open_fence (lit "```" ++ j :: s :: o :: n :: Chr.NL :: r) = Some 8%nat.
Proof. intros H. simpl in H. simpl. now rewrite H. Qed.

Lemma sub_open_fence_skip (a b : str) :
  sub_open_fence_from (List.length a) (a ++ b) = sub_open_fence_from 0 b.
Proof. induction a as [|x a IH]; simpl; [reflexivity|exact IH]. Qed.

Lemma sub_open_fence_keeps (body tail : str) :
  ~ In Chr.BACKTICK body ->
  sub_open_fence_from 0 (body ++ tail) = body ++ sub_open_fence_from 0 tail.
Proof.
  induction body as [|c body IH]; intros H; [reflexivity|].
  change ((c :: body) ++ tail) with (c :: (body ++ tail)).
  cbn [sub_open_fence_from].
  rewrite match_open_fence_other by (intros ->; apply H; now left).
  rewrite IH; [reflexivity|]. intros Hin. apply H. now right.
Qed.

Lemma sub_close_fence_app (body : str) :
  sub_close_fence (body ++ closing_fence) = body.
Proof.
  unfold sub_close_fence, endswith, drop_last.
  rewrite rev_app_distr, startswith_app.
  change (List.length (rev closing_fence)) with 4%nat.
  change 4%nat with (List.length (rev closing_fence)).
  rewrite skipn_app, skipn_all, Nat.sub_diag, skipn_O. apply rev_involutive.
Qed.

(** A fence whose tag is absent or [json] is stripped from around a body
    that holds no backtick. *)
Lemma stripped_fenced (tag body : str) :
  is_json_tag tag = true -> ~ In Chr.BACKTICK body ->
  stripped (fenced tag body) = body.
Proof.
  intros Htag Hbody. unfold stripped.
  assert (Estrip : strip (fenced tag body) = fenced tag body).
  { unfold fenced, closing_fence.
    replace (lit "```" ++ tag ++ [Chr.NL] ++ body
             ++ [Chr.NL; Chr.BACKTICK; Chr.BACKTICK; Chr.BACKTICK])
      with (Chr.BACKTICK ::
            ([Chr.BACKTICK; Chr.BACKTICK] ++ tag ++ [Chr.NL] ++ body
             ++ [Chr.NL; Chr.BACKTICK; Chr.BACKTICK]) ++ [Chr.BACKTICK]).
    - apply strip_fixed; reflexivity.
    - simpl. repeat (rewrite <- app_assoc; simpl). reflexivity. }
  rewrite Estrip.
  assert (Eopen : sub_open_fence (fenced tag body) = body ++ closing_fence).
  { unfold sub_open_fence, fenced.
    destruct tag as [|j [|s [|o [|n [|x tag]]]]]; try discriminate.
    - change (lit "```" ++ [] ++ [Chr.NL] ++ body ++ closing_fence)
        with (Chr.BACKTICK :: [Chr.BACKTICK; Chr.BACKTICK; Chr.NL]
                ++ (body ++ closing_fence)).
      cbn [sub_open_fence_from].
      change (Chr.BACKTICK :: [Chr.BACKTICK; Chr.BACKTICK; Chr.NL]
                ++ body ++ closing_fence)
        with (lit "```" ++ Chr.NL :: (body ++ closing_fence)).
      rewrite match_open_fence_plain.
      change 3%nat with (List.length [Chr.BACKTICK; Chr.BACKTICK; Chr.NL]).
      rewrite sub_open_fence_skip, sub_open_fence_keeps by assumption.
      reflexivity.
    - change (lit "```" ++ [j; s; o; n] ++ [Chr.NL] ++ body ++ closing_fence)
        with (Chr.BACKTICK :: [Chr.BACKTICK; Chr.BACKTICK; j; s; o; n; Chr.NL]
                ++ (body ++ closing_fence)).
      cbn [sub_open_fence_from].
      change (Chr.BACKTICK :: [Chr.BACKTICK; Chr.BACKTICK; j; s; o; n; Chr.NL]
                ++ body ++ closing_fence)
        with (lit "```" ++ j :: s :: o :: n :: Chr.NL :: (body ++ closing_fence)).
      rewrite match_open_fence_json by assumption.
      change 7%nat
        with (List.length [Chr.BACKTICK; Chr.BACKTICK; j; s; o; n; Chr.NL]).
      rewrite sub_open_fence_skip, sub_open_fence_keeps by assumption.
      reflexivity. }
  rewrite Eopen. apply sub_close_fence_app.
Qed.

(** The opening markers, one by one. *)
Lemma match_open_fence_marker (tag rest : str) :
  is_json_tag tag = true ->
  match_open_fence (opening_marker tag ++ rest)
  = Some (List.length (opening_marker tag)).
Proof.
  intros H. destruct tag as [|j [|s [|o [|n [|x tag]]]]]; try discriminate.
  - apply match_open_fence_plain.
  - now apply match_open_fence_json.
Qed.

Lemma match_open_fence_some (s : str) (k : nat) :
  match_open_fence s = Some k ->
  exists tag rest,
    is_json_tag tag = true /\ s = opening_marker tag ++ rest /\
    k = List.length (opening_marker tag).
Proof.
  unfold match_open_fence.
  destruct s as [|b1 [|b2 [|b3 r]]]; try discriminate.
  destruct (N.eqb_spec b1 Chr.BACKTICK) as [->|]; [|discriminate].
  destruct (N.eqb_spec b2 Chr.BACKTICK) as [->|]; [|discriminate].
  destruct (N.eqb_spec b3 Chr.BACKTICK) as [->|]; [|discriminate].
  cbn [andb].
  assert (P : forall c r', (c =? Chr.NL) = true ->
              exists tag rest,
                is_json_tag tag = true /\
                Chr.BACKTICK :: Chr.BACKTICK :: Chr.BACKTICK :: c :: r'
                = opening_marker tag ++ rest /\
                4%nat = List.length (opening_marker tag)).
  { intros c r' E. apply N.eqb_eq in E as ->. exists [], r'. auto. }
  destruct r as [|j [|s' [|o [|n [|nl r]]]]]; try discriminate;
    try (destruct (_ =? Chr.NL) eqn:E; [|discriminate];
         intros [= <-]; now apply P).
  destruct (ci_letter 106 j && ci_letter 115 s' && ci_letter 111 o
            && ci_letter 110 n && (nl =? Chr.NL)) eqn:J.
  - intros [= <-]. apply andb_true_iff in J as [J E].
    apply N.eqb_eq in E as ->. exists [j; s'; o; n], r. auto.
  - destruct (j =? Chr.NL) eqn:E; [|discriminate]. intros [= <-]. now apply P.
Qed.

Lemma match_open_fence_none (s : str) :
  (forall tag rest, is_json_tag tag = true -> s <> opening_marker tag ++ rest) ->
  match_open_fence s = None.
Proof.
  intros H. destruct (match_open_fence s) as [k|] eqn:E; [|reflexivity].
  destruct (match_open_fence_some s k E) as (tag & rest & J & -> & _).
  now destruct (H tag rest J).
Qed.

Lemma sub_open_fence_marker (tag rest : str) :
  is_json_tag tag = true ->
  sub_open_fence (opening_marker tag ++ rest) = sub_open_fence rest.
Proof.
  intros H. unfold sub_open_fence.
  pose proof (match_open_fence_marker tag rest H) as M.
  pose proof (sub_open_fence_skip (opening_marker tag) rest) as K.
  destruct (opening_marker tag ++ rest) as [|c r] eqn:E; [discriminate|].
  cbn [sub_open_fence_from]. rewrite M.
  unfold opening_marker in *. cbn [app List.length] in *.
  injection E as <- <-. exact K.
Qed.

Lemma sub_open_fence_other (c : N) (s : str) :
  (forall tag rest, is_json_tag tag = true -> c :: s <> opening_marker tag ++ rest) ->
  sub_open_fence (c :: s) = c :: sub_open_fence s.
Proof.
  intros H. unfold sub_open_fence. cbn [sub_open_fence_from].
  now rewrite (match_open_fence_none _ H).
Qed.

Lemma json_tag_no_newline (tag : str) : is_json_tag tag = true -> ~ In Chr.NL tag.
Proof.
  destruct tag as [|j [|s [|o [|n [|x tag]]]]]; try discriminate; [intros _ []|].
  cbn [is_json_tag In]. rewrite !andb_true_iff.
  intros [[[H1 H2] H3] H4] [->|[->|[->|[->|[]]]]]; discriminate.
Qed.

Lemma line_unique (a b r r' : str) :
  ~ In Chr.NL a -> ~ In Chr.NL b ->
  a ++ Chr.NL :: r = b ++ Chr.NL :: r' -> a = b.
Proof.
  revert b. induction a as [|x a IH]; intros [|y b] Ha Hb E; cbn [app] in E.
  - reflexivity.
  - injection E as <- _. destruct Hb. now left.
  - injection E as -> _. destruct Ha. now left.
  - injection E as -> E. f_equal. apply IH; [| |exact E].
    + intros H. apply Ha. now right.
    + intros H. apply Hb. now right.
Qed.

Lemma sub_open_fence_other_tag (tag rest : str) :
  is_json_tag tag = false -> ~ In Chr.BACKTICK tag -> ~ In Chr.NL tag ->
  sub_open_fence (opening_marker tag ++ rest)
  = opening_marker tag ++ sub_open_fence rest.
Proof.
  intros J B NL. destruct tag as [|t tag]; [discriminate|].
  assert (T : t <> Chr.BACKTICK) by (intros ->; apply B; now left).
  unfold opening_marker. cbn [lit list_ascii_of_string map app].
  change (N.of_nat (nat_of_ascii "`")) with Chr.BACKTICK.
  rewrite sub_open_fence_other.
  2:{ intros tag' rest' J' E. unfold opening_marker in E.
      cbn [lit list_ascii_of_string map app] in E. injection E as E.
      rewrite <- !app_assoc in E.
      change ([Chr.NL] ++ rest') with (Chr.NL :: rest') in E.
      change ([Chr.NL] ++ rest) with (Chr.NL :: rest) in E.
      change (t :: tag ++ Chr.NL :: rest) with ((t :: tag) ++ Chr.NL :: rest) in E.
      apply line_unique in E; [|exact NL|now apply json_tag_no_newline].
      congruence. }
  f_equal. rewrite sub_open_fence_other.
  2:{ intros tag' rest' _ E. unfold opening_marker in E.
      cbn [lit list_ascii_of_string map app] in E. injection E as E _.
      now destruct T. }
  f_equal. rewrite sub_open_fence_other.
  2:{ intros tag' rest' _ E. unfold opening_marker in E.
      cbn [lit list_ascii_of_string map app] in E. injection E as E _.
      now destruct T. }
  f_equal. unfold sub_open_fence.
  exact (sub_open_fence_keeps ((t :: tag) ++ [Chr.NL]) rest
           ltac:(intros H; apply in_app_or in H as [H|[H|[]]];
                 [now apply B|discriminate])).
Qed.

Lemma sub_close_fence_newline (body : str) :
  sub_close_fence (body ++ closing_fence ++ [Chr.NL]) = body ++ [Chr.NL].
Proof.
  unfold sub_close_fence, endswith, drop_last. rewrite rev_app_distr.
  change (rev (closing_fence ++ [Chr.NL]))
    with [Chr.NL; Chr.BACKTICK; Chr.BACKTICK; Chr.BACKTICK; Chr.NL].
  change (rev closing_fence)
    with [Chr.BACKTICK; Chr.BACKTICK; Chr.BACKTICK; Chr.NL].
  cbn [app startswith]. change (Chr.BACKTICK =? Chr.NL) with false.
  cbn [andb]. rewrite !N.eqb_refl. cbn [andb].
  change (skipn 5 (Chr.NL :: Chr.BACKTICK :: Chr.BACKTICK :: Chr.BACKTICK
                   :: Chr.NL :: rev body)) with (rev body).
  now rewrite rev_involutive.
Qed.

Lemma sub_close_fence_other (s : str) :
  (forall body, s <> body ++ closing_fence) ->
  (forall body, s <> body ++ closing_fence ++ [Chr.NL]) ->
  sub_close_fence s = s.
Proof.
  intros H1 H2. unfold sub_close_fence.
  destruct (endswith s closing_fence) eqn:E1.
  { destruct (endswith_suffix _ _ E1) as [body E]. now destruct (H1 body). }
  destruct (endswith s (closing_fence ++ [Chr.NL])) eqn:E2; [|reflexivity].
  destruct (endswith_suffix _ _ E2) as [body E]. now destruct (H2 body).
Qed.

(** A fence with another tag keeps its opening marker and loses the closing
    one. *)
Lemma stripped_fenced_other (tag body : str) :
  is_json_tag tag = false -> ~ In Chr.BACKTICK tag -> ~ In Chr.NL tag ->
  ~ In Chr.BACKTICK body ->
  stripped (fenced tag body) = opening_marker tag ++ body.
Proof.
  intros J B NL Hbody. unfold stripped.
  assert (Estrip : strip (fenced tag body) = fenced tag body).
  { unfold fenced, closing_fence.
    replace (lit "```" ++ tag ++ [Chr.NL] ++ body
             ++ [Chr.NL; Chr.BACKTICK; Chr.BACKTICK; Chr.BACKTICK])
      with (Chr.BACKTICK ::
            ([Chr.BACKTICK; Chr.BACKTICK] ++ tag ++ [Chr.NL] ++ body
             ++ [Chr.NL; Chr.BACKTICK; Chr.BACKTICK]) ++ [Chr.BACKTICK]).
    - apply strip_fixed; reflexivity.
    - simpl. repeat (rewrite <- app_assoc; simpl). reflexivity. }
  rewrite Estrip.
  replace (fenced tag body) with (opening_marker tag ++ body ++ closing_fence)
    by (unfold fenced, opening_marker; now rewrite <- !app_assoc).
  rewrite sub_open_fence_other_tag by assumption.
  unfold sub_open_fence at 1. rewrite sub_open_fence_keeps by assumption.
  change (sub_open_fence_from 0 closing_fence) with closing_fence.
  rewrite app_assoc. apply sub_close_fence_app.
Qed.

(** ** The decoder consumes its input and never runs out of fuel *)

Module JsonFacts.
Import Json.

Lemma scanstring_length (s acc x r : str) :
  scanstring s acc = Some (x, r) -> (List.length r < List.length s)%nat.
Proof.
  remember (List.length s) as n eqn:Hn.
  revert s acc Hn. induction n as [n IH] using lt_wf_ind. intros s acc Hn.
  assert (step : forall s' acc', (List.length s' < n)%nat ->
            scanstring s' acc' = Some (x, r) -> (List.length r < n)%nat).
  { intros s' acc' L H. specialize (IH _ L s' acc' eq_refl H). lia. }
  clear IH.
  destruct s as [|c s]; cbn [scanstring]; [easy|].
  repeat match goal with
  | |- Some _ = Some _ -> _ => intros [= <- <-]; cbn [List.length] in *; lia
  | |- None = Some _ -> _ => discriminate
  | |- scanstring _ _ = Some _ -> _ => apply step; cbn [List.length] in *; lia
  | |- context [match ?t with _ => _ end] => destruct t eqn:?
  end.
Qed.

Lemma skip_ws_length (s : str) : (List.length (skip_ws s) <= List.length s)%nat.
Proof.
  induction s as [|c s IH]; simpl; [lia|].
  destruct (is_ws c); simpl; lia.
Qed.

Lemma skip_ws_cons (s r : str) (c : N) :
  skip_ws s = c :: r -> (List.length r < List.length s)%nat.
Proof.
  intros H. pose proof (skip_ws_length s) as L. rewrite H in L. simpl in L. lia.
Qed.

Lemma span_digits_length (s ds r : str) :
  span_digits s = (ds, r) -> (List.length r <= List.length s)%nat.
Proof.
  revert ds r; induction s as [|c s IH]; simpl; intros ds r.
  - intros [= <- <-]; simpl; lia.
  - destruct (is_digit c).
    + destruct (span_digits s) as [ds' r'] eqn:E. intros [= <- <-].
      specialize (IH _ _ eq_refl). lia.
    + intros [= <- <-]; simpl; lia.
Qed.

Lemma after_prefix_length (p : string) (s r : str) :
  after_prefix p s = Some r -> (List.length r <= List.length s)%nat.
Proof.
  unfold after_prefix. destruct (startswith s (lit p)); [|easy].
  intros [= <-]. rewrite length_skipn. lia.
Qed.

Lemma match_keyword_length (s r : str) (v : pyval) :
  match_keyword s = Some (v, r) -> (List.length r <= List.length s)%nat.
Proof.
  unfold match_keyword.
  repeat match goal with
  | |- context [after_prefix ?p s] =>
      let E := fresh "E" in
      destruct (after_prefix p s) eqn:E;
      [apply after_prefix_length in E; intros [= <- <-]; exact E|]
  end.
  discriminate.
Qed.

Lemma match_constant_length (s r : str) (v : pyval) :
  match_constant s = Some (v, r) -> (List.length r <= List.length s)%nat.
Proof.
  unfold match_constant.
  repeat match goal with
  | |- context [after_prefix ?p s] =>
      let E := fresh "E" in
      destruct (after_prefix p s) eqn:E;
      [apply after_prefix_length in E; intros [= <- <-]; exact E|]
  end.
  discriminate.
Qed.

Lemma match_integer_length (s ids r : str) (neg : bool) :
  match_integer s = Some (neg, ids, r) -> (List.length r <= List.length s)%nat.
Proof.
  unfold match_integer.
  destruct s as [|c s]; [discriminate|].
  destruct (c =? Chr.MINUS).
  - destruct s as [|d s]; [discriminate|].
    destruct (d =? Chr.ZERO); [intros [= <- <- <-]; simpl; lia|].
    destruct (is_digit d); [|discriminate].
    destruct (span_digits s) as [ds r'] eqn:E. apply span_digits_length in E.
    intros [= <- <- <-]; simpl; lia.
  - destruct (c =? Chr.ZERO); [intros [= <- <- <-]; simpl; lia|].
    destruct (is_digit c); [|discriminate].
    destruct (span_digits s) as [ds r'] eqn:E. apply span_digits_length in E.
    intros [= <- <- <-]; simpl; lia.
Qed.

Lemma match_frac_length (s ds r : str) :
  match_frac s = Some (ds, r) -> (List.length r <= List.length s)%nat.
Proof.
  unfold match_frac. destruct s as [|c s]; [discriminate|].
  destruct (c =? Chr.DOT); [|discriminate].
  destruct (span_digits s) as [[|d ds'] r'] eqn:E; [discriminate|].
  apply span_digits_length in E. intros [= <- <-]; simpl; lia.
Qed.

Lemma match_exp_length (s r : str) (e : Z) :
  match_exp s = Some (e, r) -> (List.length r <= List.length s)%nat.
Proof.
  unfold match_exp. destruct s as [|c s]; [discriminate|].
  destruct ((c =? 101) || (c =? 69)); [|discriminate].
  destruct s as [|sg s']; simpl.
  - discriminate.
  - destruct (sg =? Chr.MINUS); [|destruct (sg =? Chr.PLUS)];
    match goal with
    | |- context [span_digits ?r1] =>
        destruct (span_digits r1) as [[|d ds] r2] eqn:E; [discriminate|];
        apply span_digits_length in E; intros [= _ <-]; simpl in *; lia
    end.
Qed.

Lemma match_number_length (s r : str) (v : pyval) :
  match_number s = Some (v, r) -> (List.length r <= List.length s)%nat.
Proof.
  unfold match_number.
  destruct (match_integer s) as [[[neg ids] r0]|] eqn:E0; [|discriminate].
  apply match_integer_length in E0.
  destruct (match_frac r0) as [[fds r1]|] eqn:E1.
  - apply match_frac_length in E1.
    destruct (match_exp r1) as [[e r2]|] eqn:E2.
    + apply match_exp_length in E2. intros [= <- <-]. lia.
    + intros [= <- <-]. lia.
  - destruct (match_exp r0) as [[e r2]|] eqn:E2.
    + apply match_exp_length in E2. intros [= <- <-]. lia.
    + intros [= <- <-]. lia.
Qed.

Ltac scan_cases IH :=
  repeat match goal with
  | |- Scanned _ _ = Scanned _ _ -> _ => intros [= <- <-]
  | |- NoParse = Scanned _ _ -> _ => discriminate
  | |- OutOfFuel = Scanned _ _ -> _ => discriminate
  | |- of_option ?o = Scanned _ _ -> _ =>
      let E := fresh "E" in destruct o as [[? ?]|] eqn:E; cbn [of_option]
  | |- object_pairs _ _ _ = Scanned _ _ -> _ =>
      let H := fresh "H" in intros H; apply IH in H
  | |- array_items _ _ _ = Scanned _ _ -> _ =>
      let H := fresh "H" in intros H; apply IH in H
  | |- context [match ?t with _ => _ end] => destruct t eqn:?
  end.

Ltac length_facts :=
  repeat match goal with
  | H : skip_ws _ = _ :: _ |- _ => apply skip_ws_cons in H
  | H : scanstring _ _ = Some _ |- _ => apply scanstring_length in H
  | H : match_keyword _ = Some _ |- _ => apply match_keyword_length in H
  | H : match_number _ = Some _ |- _ => apply match_number_length in H
  | H : match_constant _ = Some _ |- _ => apply match_constant_length in H
  end.

Ltac note_skip_ws :=
  repeat match goal with
  | H : context [skip_ws ?t] |- _ =>
      lazymatch goal with
      | _ : (List.length (skip_ws t) <= List.length t)%nat |- _ => fail
      | _ => pose proof (skip_ws_length t)
      end
  end.

Lemma scan_consumes (fuel : nat) :
  (forall s v r, scan_once fuel s = Scanned v r ->
     (List.length r <= List.length s)%nat) /\
  (forall s acc v r, object_pairs fuel s acc = Scanned v r ->
     (List.length r <= List.length s)%nat) /\
  (forall s acc v r, array_items fuel s acc = Scanned v r ->
     (List.length r <= List.length s)%nat).
Proof.
  induction fuel as [|f (IHs & IHo & IHa)]; [repeat split; discriminate|].
  repeat split.
  - intros s v r. cbn [scan_once].
    scan_cases IHo; scan_cases IHa; length_facts;
      cbn [List.length] in *; try lia.
  - intros s acc v r. cbn [object_pairs].
    destruct (scanstring s []) as [[key r0]|] eqn:Es; [|discriminate].
    destruct (skip_ws r0) as [|c r1] eqn:E1; [discriminate|].
    destruct (c =? Chr.COLON); [|discriminate].
    destruct (scan_once f (skip_ws r1)) as [v' r2| |] eqn:E2; try discriminate.
    apply IHs in E2.
    destruct (skip_ws r2) as [|c2 r3] eqn:E3; [discriminate|].
    note_skip_ws. length_facts.
    destruct (c2 =? Chr.RBRACE); [intros [= <- <-]; lia|].
    destruct (c2 =? Chr.COMMA); [|discriminate].
    destruct (skip_ws r3) as [|c3 r4] eqn:E4; [discriminate|].
    destruct (c3 =? Chr.DQUOTE); [|discriminate].
    intros Ho. apply IHo in Ho. length_facts. lia.
  - intros s acc v r. cbn [array_items].
    destruct (scan_once f s) as [v' r0| |] eqn:E; try discriminate.
    apply IHs in E.
    destruct (skip_ws r0) as [|c r1] eqn:E1; [discriminate|].
    length_facts.
    destruct (c =? Chr.RBRACKET); [intros [= <- <-]; lia|].
    destruct (c =? Chr.COMMA); [|discriminate].
    intros Ha. apply IHa in Ha. pose proof (skip_ws_length r1). lia.
Qed.

Lemma scan_fuel (fuel : nat) :
  (forall s, (2 * List.length s + 1 <= fuel)%nat -> scan_once fuel s <> OutOfFuel) /\
  (forall s acc, (2 * List.length s + 2 <= fuel)%nat ->
     object_pairs fuel s acc <> OutOfFuel) /\
  (forall s acc, (2 * List.length s + 2 <= fuel)%nat ->
     array_items fuel s acc <> OutOfFuel).
Proof.
  induction fuel as [|f (IHs & IHo & IHa)]; [repeat split; intros; lia|].
  repeat split.
  - intros s L. cbn [scan_once].
    destruct s as [|c r]; [discriminate|]. cbn [List.length] in L.
    destruct (c =? Chr.DQUOTE).
    { destruct (scanstring r []) as [[? ?]|]; discriminate. }
    destruct (c =? Chr.LBRACE).
    { destruct (skip_ws r) as [|c1 r1] eqn:E1; [discriminate|].
      apply skip_ws_cons in E1.
      destruct (c1 =? Chr.RBRACE); [discriminate|].
      destruct (c1 =? Chr.DQUOTE); [|discriminate].
      apply IHo. lia. }
    destruct (c =? Chr.LBRACKET).
    { destruct (skip_ws r) as [|c1 r1] eqn:E1; [discriminate|].
      pose proof (skip_ws_length r) as L1. rewrite E1 in L1.
      destruct (c1 =? Chr.RBRACKET); [discriminate|].
      apply IHa. lia. }
    destruct (match_keyword (c :: r)) as [[? ?]|]; [discriminate|].
    destruct (match_number (c :: r)) as [[? ?]|]; [discriminate|].
    destruct (match_constant (c :: r)) as [[? ?]|]; discriminate.
  - intros s acc L. cbn [object_pairs].
    destruct (scanstring s []) as [[key r0]|] eqn:Es; [|discriminate].
    destruct (skip_ws r0) as [|c r1] eqn:E1; [discriminate|].
    destruct (c =? Chr.COLON); [|discriminate].
    length_facts. pose proof (skip_ws_length r1) as L1.
    destruct (scan_once f (skip_ws r1)) as [v' r2| |] eqn:E2; try discriminate.
    + apply (proj1 (scan_consumes f)) in E2.
      destruct (skip_ws r2) as [|c2 r3] eqn:E3; [discriminate|].
      destruct (c2 =? Chr.RBRACE); [discriminate|].
      destruct (c2 =? Chr.COMMA); [|discriminate].
      destruct (skip_ws r3) as [|c3 r4] eqn:E4; [discriminate|].
      destruct (c3 =? Chr.DQUOTE); [|discriminate].
      length_facts. apply IHo. lia.
    + exfalso. revert E2. apply IHs. lia.
  - intros s acc L. cbn [array_items].
    destruct (scan_once f s) as [v' r0| |] eqn:E; try discriminate.
    + apply (proj1 (scan_consumes f)) in E.
      destruct (skip_ws r0) as [|c r1] eqn:E1; [discriminate|].
      length_facts. pose proof (skip_ws_length r1) as L1.
      destruct (c =? Chr.RBRACKET); [discriminate|].
      destruct (c =? Chr.COMMA); [|discriminate].
      apply IHa. lia.
    + exfalso. revert E. apply IHs. lia.
Qed.

(** The fuel [loads] supplies is never exhausted: a [None] of [loads] is a
    rejected document. *)
Lemma loads_fuel (s : str) : scan_once (enough_fuel s) (skip_ws s) <> OutOfFuel.
Proof.
  apply (proj1 (scan_fuel _)). unfold enough_fuel.
  pose proof (skip_ws_length s). lia.
Qed.

Lemma object_pairs_dict (fuel : nat) (s r : str) acc (v : pyval) :
  object_pairs fuel s acc = Scanned v r -> exists d, v = PDict d.
Proof.
  revert s acc. induction fuel as [|f IH]; intros s acc; [discriminate|].
  cbn [object_pairs].
  destruct (scanstring s []) as [[key r0]|]; [|discriminate].
  destruct (skip_ws r0) as [|c r1]; [discriminate|].
  destruct (c =? Chr.COLON); [|discriminate].
  destruct (scan_once f (skip_ws r1)) as [v' r2| |]; try discriminate.
  destruct (skip_ws r2) as [|c2 r3]; [discriminate|].
  destruct (c2 =? Chr.RBRACE); [intros [= <- <-]; eauto|].
  destruct (c2 =? Chr.COMMA); [|discriminate].
  destruct (skip_ws r3) as [|c3 r4]; [discriminate|].
  destruct (c3 =? Chr.DQUOTE); [|discriminate].
  apply IH.
Qed.

(** A document that begins with an opening brace decodes to a [dict]. *)
Lemma loads_brace_dict (s : str) (v : pyval) :
  Json.loads (Chr.LBRACE :: s) = Some v -> exists d, v = PDict d.
Proof.
  unfold Json.loads. cbn [startswith]. change (Chr.LBRACE =? Chr.BOM) with false.
  cbn [andb]. change (skip_ws (Chr.LBRACE :: s)) with (Chr.LBRACE :: s).
  destruct (enough_fuel (Chr.LBRACE :: s)) as [|f]; [discriminate|].
  cbn [scan_once]. change (Chr.LBRACE =? Chr.DQUOTE) with false.
  change (Chr.LBRACE =? Chr.LBRACE) with true. cbn iota.
  destruct (skip_ws s) as [|c1 r1]; [discriminate|].
  destruct (c1 =? Chr.RBRACE).
  { destruct (skip_ws r1); [intros [= <-]; eauto|discriminate]. }
  destruct (c1 =? Chr.DQUOTE); [|discriminate].
  destruct (object_pairs f r1 []) as [v' r'| |] eqn:E; try discriminate.
  apply object_pairs_dict in E. destruct (skip_ws r'); [|discriminate].
  intros [= <-]. exact E.
Qed.

End JsonFacts.

(** ** The response normalizer *)

Lemma try_parse_json_str (text : str) :
  text <> [] -> _try_parse_json (PStr text) = Ok (parse_text text).
Proof. destruct text; [congruence|reflexivity]. Qed.

(** C1, as amended.  For every input string [_try_parse_json] follows an
    ordered algorithm in which the first success wins.  The empty text gives
    [None].  Otherwise the text is normalized ([stripped]) in three steps.
    It is trimmed: the whitespace around it is removed.  Then every opening
    marker, three backticks followed by a newline or by the tag [json] in
    any letter case and a newline, is removed wherever it stands, the text
    being read from the left; every other character is kept, so a marker
    with another language tag stays.  Then a closing marker, a newline and
    three backticks, is removed when it ends the text (or stands before a
    newline that ends it), and nothing else is.  So a surrounding fence
    whose tag is absent or [json] is stripped from a body that holds no
    backtick, and a fence with another tag loses the closing marker only.
    Then the substring from the first opening brace through the last
    closing brace is decoded and its value returned; only if that fails, or
    if there is no such substring, the whole stripped text is decoded.  The
    two examples of the specification evaluate as it says. *)
Theorem try_parse_json_order :
  _try_parse_json (PStr []) = Ok PNone /\
  (forall text, stripped text = sub_close_fence (sub_open_fence (strip text))) /\
  (forall pad t pad',
     forallb isspace pad = true -> forallb isspace pad' = true ->
     trimmed t = true -> strip (pad ++ t ++ pad') = t) /\
  (sub_open_fence [] = [] /\
   (forall tag rest,
      is_json_tag tag = true ->
      sub_open_fence (opening_marker tag ++ rest) = sub_open_fence rest) /\
   (forall c s,
      (forall tag rest,
         is_json_tag tag = true -> c :: s <> opening_marker tag ++ rest) ->
      sub_open_fence (c :: s) = c :: sub_open_fence s) /\
   (forall tag rest,
      is_json_tag tag = false -> ~ In Chr.BACKTICK tag -> ~ In Chr.NL tag ->
      sub_open_fence (opening_marker tag ++ rest)
      = opening_marker tag ++ sub_open_fence rest)) /\
  ((forall body, sub_close_fence (body ++ closing_fence) = body) /\
   (forall body,
      sub_close_fence (body ++ closing_fence ++ [Chr.NL]) = body ++ [Chr.NL]) /\
   (forall s,
      (forall body, s <> body ++ closing_fence) ->
      (forall body, s <> body ++ closing_fence ++ [Chr.NL]) ->
      sub_close_fence s = s)) /\
  (forall tag body,
     is_json_tag tag = true -> ~ In Chr.BACKTICK body ->
     stripped (fenced tag body) = body) /\
  (forall tag body,
     is_json_tag tag = false -> ~ In Chr.BACKTICK tag -> ~ In Chr.NL tag ->
     ~ In Chr.BACKTICK body ->
     stripped (fenced tag body) = opening_marker tag ++ body) /\
  (forall text pre mid post,
     text <> [] ->
     stripped text = pre ++ Chr.LBRACE :: mid ++ Chr.RBRACE :: post ->
     ~ In Chr.LBRACE pre -> ~ In Chr.RBRACE post ->
     _try_parse_json (PStr text) =
     Ok (match Json.loads (Chr.LBRACE :: mid ++ [Chr.RBRACE]) with
         | Some v => v
         | None => whole_text_value (stripped text)
         end)) /\
  (forall text,
     text <> [] ->
     (exists pre mid post,
        stripped text = pre ++ Chr.LBRACE :: mid ++ Chr.RBRACE :: post /\
        ~ In Chr.LBRACE pre /\ ~ In Chr.RBRACE post) \/
     _try_parse_json (PStr text) = Ok (whole_text_value (stripped text))) /\
  _try_parse_json (PStr Fixture.fenced_priority)
  = Ok (PDict [(lit "priority", PStr (lit "High"))]) /\
  _try_parse_json (PStr Fixture.prose_result) = Ok (PDict [(lit "a", PInt 1)]).
Proof.
  split; [reflexivity|]. split; [reflexivity|].
  split; [exact strip_spec|].
  split.
  { split; [reflexivity|]. split; [exact sub_open_fence_marker|].
    split; [exact sub_open_fence_other|exact sub_open_fence_other_tag]. }
  split.
  { split; [exact sub_close_fence_app|].
    split; [exact sub_close_fence_newline|exact sub_close_fence_other]. }
  split; [exact stripped_fenced|]. split; [exact stripped_fenced_other|].
  split.
  { intros text pre mid post Hne E Hpre Hpost.
    rewrite try_parse_json_str by assumption. f_equal.
    apply (parse_text_span text pre mid post); assumption. }
  split.
  { intros text Hne. rewrite try_parse_json_str by assumption.
    destruct (parse_text_cases text) as [H| ->]; [left; exact H|right; reflexivity]. }
  split; vm_compute; reflexivity.
Qed.

(** The prose example again, through the ordering part of the theorem; a
    fence with an upper-case tag; a number between a no-break space and a
    line separator; a fence tagged [python]. *)
Lemma try_parse_json_order_witness :
  _try_parse_json (PStr Fixture.prose_result) = Ok (PDict [(lit "a", PInt 1)]) /\
  stripped (fenced (lit "JSON") (lit "{}")) = lit "{}" /\
  strip ([160] ++ lit "42" ++ [8232]) = lit "42" /\
  stripped (fenced (lit "python") (lit "[1]"))
  = opening_marker (lit "python") ++ lit "[1]".
Proof.
  destruct try_parse_json_order
    as (_ & _ & Hstrip & _ & _ & Hfence & Hother & Hspan & _).
  split; [|split; [|split]].
  - rewrite (Hspan Fixture.prose_result (lit "Here is the result: ")
               (Fixture.q ++ lit "a" ++ Fixture.q ++ lit ":1") (lit " -- end")).
    + vm_compute. reflexivity.
    + discriminate.
    + vm_compute. reflexivity.
    + vm_compute. intuition discriminate.
    + vm_compute. intuition discriminate.
  - apply Hfence; [reflexivity|]. vm_compute. intuition discriminate.
  - apply Hstrip; reflexivity.
  - apply Hother; [reflexivity|vm_compute; intuition discriminate..].
Defined.

(** C1 as stated fails on a block fenced with another language tag: the
    normalizer of the specification strips the fence and decodes the body,
    [_try_parse_json] keeps the opening fence and returns [None]. *)
Lemma parse_differs_on_other_tag :
  _try_parse_json (PStr Fixture.fenced_python) = Ok PNone /\
  BySpec.parse Fixture.fenced_python = PList [PInt 1].
Proof. split; vm_compute; reflexivity. Qed.

(** C6.  For every string, [_try_parse_json] returns and does not raise;
    for the empty string the result is [None], and so it is when neither
    the brace-delimited substring nor the whole stripped text decodes.  The
    examples [parse("not json at all")] and [parse("")] give [None]. *)
Theorem try_parse_json_never_raises :
  (forall text,
     exists v,
       _try_parse_json (PStr text) = Ok v /\
       (text = [] -> v = PNone) /\
       ((forall pre mid post,
           stripped text = pre ++ Chr.LBRACE :: mid ++ Chr.RBRACE :: post ->
           ~ In Chr.LBRACE pre -> ~ In Chr.RBRACE post ->
           Json.loads (Chr.LBRACE :: mid ++ [Chr.RBRACE]) = None) ->
        Json.loads (stripped text) = None -> v = PNone)) /\
  _try_parse_json (PStr (lit "not json at all")) = Ok PNone /\
  _try_parse_json (PStr (lit "")) = Ok PNone.
Proof.
  split; [|split; vm_compute; reflexivity].
  intros [|c text].
  - exists PNone. repeat split; reflexivity.
  - exists (parse_text (c :: text)). split; [reflexivity|]. split; [discriminate|].
    intros Hspan Hwhole.
    destruct (parse_text_cases (c :: text)) as [(pre & mid & post & E & Hpre & Hpost)|E].
    + rewrite (parse_text_span _ pre mid post E Hpre Hpost).
      rewrite (Hspan pre mid post E Hpre Hpost).
      unfold whole_text_value. now rewrite Hwhole.
    + rewrite E. unfold whole_text_value. now rewrite Hwhole.
Qed.

(** A text whose braces hold no JSON and which is no JSON as a whole. *)
Lemma try_parse_json_never_raises_witness :
  exists v, _try_parse_json (PStr (lit "{oops} no")) = Ok v /\ v = PNone.
Proof.
  destruct try_parse_json_never_raises as (H & _).
  destruct (H (lit "{oops} no")) as (v & E & _ & Hnone).
  exists v. split; [exact E|]. apply Hnone.
  - intros pre mid post Es Hpre Hpost.
    assert (Hm : Chr.LBRACE :: mid ++ [Chr.RBRACE] = lit "{oops}").
    { destruct (brace_span pre mid post Hpre Hpost) as (_ & _ & S).
      rewrite <- Es in S. rewrite <- S. vm_compute. reflexivity. }
    rewrite Hm. vm_compute. reflexivity.
  - vm_compute. reflexivity.
Defined.

(** C7, as amended.  For every string the result of [_try_parse_json] is
    [None], or a mapping, or the value the whole stripped text decodes to;
    whatever the brace-delimited substring decodes to is a mapping, but the
    whole text may be any JSON value: a number, an array and a boolean are
    returned as they are. *)
Theorem try_parse_json_result_kinds :
  (forall text,
     exists v,
       _try_parse_json (PStr text) = Ok v /\
       (v = PNone \/ is_mapping v = true \/ Json.loads (stripped text) = Some v)) /\
  _try_parse_json (PStr (lit "42")) = Ok (PInt 42) /\
  _try_parse_json (PStr (lit "[1, 2]")) = Ok (PList [PInt 1; PInt 2]) /\
  _try_parse_json (PStr (lit "true")) = Ok (PBool true).
Proof.
  split; [|repeat split; vm_compute; reflexivity].
  intros [|c text].
  - exists PNone. split; [reflexivity|now left].
  - exists (parse_text (c :: text)). split; [reflexivity|].
    assert (W : forall s, whole_text_value s = PNone \/
                          Json.loads s = Some (whole_text_value s)).
    { intros s. unfold whole_text_value. destruct (Json.loads s); auto. }
    destruct (parse_text_cases (c :: text)) as [(pre & mid & post & E & Hpre & Hpost)|E].
    + rewrite (parse_text_span _ pre mid post E Hpre Hpost).
      destruct (Json.loads (Chr.LBRACE :: mid ++ [Chr.RBRACE])) as [v|] eqn:L.
      * right; left. apply JsonFacts.loads_brace_dict in L.
        destruct L as [d ->]. reflexivity.
      * destruct (W (stripped (c :: text))); auto.
    + rewrite E. destruct (W (stripped (c :: text))); auto.
Qed.

(** C7 as stated fails on the text [42]: the result is the number, which is
    neither [None] nor a mapping. *)
Lemma number_is_returned_as_is :
  _try_parse_json (PStr (lit "42")) = Ok (PInt 42) /\
  is_mapping (PInt 42) = false /\
  is_none (PInt 42) = false.
Proof. repeat split. Qed.

(** ** Running the requests *)

Section Runs.

Variable W : world.

(** What the remote end's answer to the token exchange yields. *)
Lemma token_request_run (self : LLMClient) (log : list http_call) :
  token_request W self log =
  (match respond W log (token_post self) with
   | PostRaises e => Raise e
   | PostReturns r =>
       match raise_for_status r with
       | Raise e => Raise e
       | Ok _ =>
           match response_json W r with
           | Raise e => Raise e
           | Ok j => py_item_access_token j
           end
       end
   end, log ++ [token_post self]).
Proof.
  unfold token_request, bind, post, lift, token_post.
  destruct (respond W log _) as [e|r]; [reflexivity|].
  destruct (raise_for_status r); [|reflexivity].
  destruct (response_json W r); reflexivity.
Qed.

Lemma inference_request_run (self : LLMClient) (prompt : str) (token : pyval)
    (log : list http_call) :
  inference_request W self prompt token log =
  (match respond W log (inference_post self prompt token) with
   | PostRaises e => Raise e
   | PostReturns r =>
       match raise_for_status r with
       | Raise e => Raise e
       | Ok _ =>
           match response_json W r with
           | Raise e => Raise e
           | Ok raw =>
               match first_choice_content raw with
               | Raise e => Raise e
               | Ok text =>
                   match _try_parse_json text with
                   | Raise e => Raise e
                   | Ok parsed => Ok (analysis text parsed raw)
                   end
               end
           end
       end
   end, log ++ [inference_post self prompt token]).
Proof.
  unfold inference_request, bind, post, lift, ret, inference_post.
  destruct (respond W log _) as [e|r]; [reflexivity|].
  destruct (raise_for_status r); [|reflexivity].
  destruct (response_json W r) as [raw|]; [|reflexivity].
  destruct (first_choice_content raw) as [text|]; [|reflexivity].
  destruct (_try_parse_json text); reflexivity.
Qed.

Lemma local_request_run (self : LLMClient) (prompt : str) (log : list http_call) :
  local_request W self prompt log =
  (match respond W log (local_post self prompt) with
   | PostRaises e => Raise e
   | PostReturns r =>
       match raise_for_status r with
       | Raise e => Raise e
       | Ok _ =>
           match response_json W r with
           | Raise e => Raise e
           | Ok j =>
               match local_text W j with
               | Raise e => Raise e
               | Ok text =>
                   match _try_parse_json text with
                   | Raise e => Raise e
                   | Ok parsed => Ok (analysis text parsed j)
                   end
               end
           end
       end
   end, log ++ [local_post self prompt]).
Proof.
  unfold local_request, bind, post, lift, ret, local_post.
  destruct (respond W log _) as [e|r]; [reflexivity|].
  destruct (raise_for_status r); [|reflexivity].
  destruct (response_json W r) as [j|]; [|reflexivity].
  destruct (local_text W j) as [text|]; [|reflexivity].
  destruct (_try_parse_json text); reflexivity.
Qed.

Lemma get_access_token_run (self : LLMClient) (log : list http_call) :
  _get_access_token W self log =
  (match fst (token_request W self log) with
   | Ok token => Ok token
   | Raise _ => Raise (mk_exc LLMError (lit "SAP AI Core authentication failed"))
   end, log ++ [token_post self]).
Proof.
  unfold _get_access_token, try_except. rewrite token_request_run. cbn [fst].
  match goal with |- context [match ?x with PostRaises _ => _ | _ => _ end] =>
    destruct x as [e|r] end; [reflexivity|].
  destruct (raise_for_status r); [|reflexivity].
  destruct (response_json W r) as [j|]; [|reflexivity].
  destruct (py_item_access_token j); reflexivity.
Qed.

Lemma call_sap_aicore_unconfigured (self : LLMClient) (prompt : str)
    (log : list http_call) :
  remote_configured self = false ->
  _call_sap_aicore W self prompt log =
  (Raise (mk_exc LLMError (lit "SAP AI Core configuration missing")), log).
Proof.
  intros H. unfold _call_sap_aicore. fold (remote_configured self).
  rewrite H. reflexivity.
Qed.

Lemma call_sap_aicore_run (self : LLMClient) (prompt : str) (log : list http_call) :
  remote_configured self = true ->
  _call_sap_aicore W self prompt log =
  match fst (token_request W self log) with
  | Raise _ =>
      (Raise (mk_exc LLMError (lit "SAP AI Core authentication failed")),
       log ++ [token_post self])
  | Ok token =>
      (match fst (inference_request W self prompt token (log ++ [token_post self])) with
       | Ok r => Ok r
       | Raise e => Raise (mk_exc LLMError (exc_text e))
       end,
       log ++ [token_post self; inference_post self prompt token])
  end.
Proof.
  intros H. unfold _call_sap_aicore. fold (remote_configured self).
  rewrite H. cbn [negb]. unfold bind. rewrite get_access_token_run.
  destruct (fst (token_request W self log)) as [token|e]; [|reflexivity].
  unfold try_except. rewrite inference_request_run. cbn [fst].
  rewrite <- app_assoc. cbn [app].
  match goal with |- context [match ?x with PostRaises _ => _ | _ => _ end] =>
    destruct x as [e|r] end; [reflexivity|].
  destruct (raise_for_status r); [|reflexivity].
  destruct (response_json W r) as [raw|]; [|reflexivity].
  destruct (first_choice_content raw) as [text|]; [|reflexivity].
  destruct (_try_parse_json text); reflexivity.
Qed.

Lemma call_local_unconfigured (self : LLMClient) (prompt : str)
    (log : list http_call) :
  attr_truthy (local_url self) = false ->
  _call_local W self prompt log =
  (Raise (mk_exc LLMError (lit "LOCAL_LLM_URL not set")), log).
Proof. intros H. unfold _call_local. rewrite H. reflexivity. Qed.

Lemma call_local_run (self : LLMClient) (prompt : str) (log : list http_call) :
  attr_truthy (local_url self) = true ->
  _call_local W self prompt log =
  (match fst (local_request W self prompt log) with
   | Ok r => Ok r
   | Raise e => Raise (mk_exc LLMError (exc_text e))
   end, log ++ [local_post self prompt]).
Proof.
  intros H. unfold _call_local. rewrite H. cbn [negb].
  unfold try_except. rewrite local_request_run. cbn [fst].
  match goal with |- context [match ?x with PostRaises _ => _ | _ => _ end] =>
    destruct x as [e|r] end; [reflexivity|].
  destruct (raise_for_status r); [|reflexivity].
  destruct (response_json W r) as [j|]; [|reflexivity].
  destruct (local_text W j) as [text|]; [|reflexivity].
  destruct (_try_parse_json text); reflexivity.
Qed.

Lemma analyze_remote (self : LLMClient) (prompt : str) :
  provider self = lit "sap_aicore" ->
  analyze W self prompt = _call_sap_aicore W self prompt.
Proof. intros H. unfold analyze. rewrite H. reflexivity. Qed.

Lemma analyze_local (self : LLMClient) (prompt : str) :
  In (provider self) [lit "local"; lit "ollama"; lit "vllm"] ->
  analyze W self prompt = _call_local W self prompt.
Proof.
  intros H. unfold analyze.
  destruct H as [<-|[<-|[<-|[]]]]; reflexivity.
Qed.

End Runs.

(** ** Failure kinds *)

(** C2, as amended.  Every failure [analyze] raises has the one class
    [LLMError].  For the remote-managed provider, missing configuration
    raises it with the text "SAP AI Core configuration missing" and no
    request; a failed token exchange raises it with the text "SAP AI Core
    authentication failed"; a failed inference call raises it with the text
    of the underlying error.  The three failures differ in their text only,
    not in their type. *)
Theorem failures_share_one_kind :
  (forall W self prompt log e log',
     analyze W self prompt log = (Raise e, log') -> exc_type e = LLMError) /\
  (forall W self prompt log,
     provider self = lit "sap_aicore" -> remote_configured self = false ->
     analyze W self prompt log =
     (Raise (mk_exc LLMError (lit "SAP AI Core configuration missing")), log)) /\
  (forall W self prompt log cause log',
     provider self = lit "sap_aicore" -> remote_configured self = true ->
     token_request W self log = (Raise cause, log') ->
     analyze W self prompt log =
     (Raise (mk_exc LLMError (lit "SAP AI Core authentication failed")), log')) /\
  (forall W self prompt log token log1 cause log2,
     provider self = lit "sap_aicore" -> remote_configured self = true ->
     token_request W self log = (Ok token, log1) ->
     inference_request W self prompt token log1 = (Raise cause, log2) ->
     analyze W self prompt log = (Raise (mk_exc LLMError (exc_text cause)), log2)).
Proof.
  repeat split.
  - intros W self prompt log e log'. unfold analyze.
    destruct (str_eqb (provider self) (lit "sap_aicore")).
    + destruct (remote_configured self) eqn:C.
      * rewrite call_sap_aicore_run by assumption.
        destruct (fst (token_request W self log)) as [token|e0].
        -- destruct (fst (inference_request W self prompt token _)).
           ++ discriminate.
           ++ intros [= <- _]. reflexivity.
        -- intros [= <- _]. reflexivity.
      * rewrite call_sap_aicore_unconfigured by assumption.
        intros [= <- _]. reflexivity.
    + destruct (str_eqb _ _ || str_eqb _ _ || str_eqb _ _).
      * destruct (attr_truthy (local_url self)) eqn:C.
        -- rewrite call_local_run by assumption.
           destruct (fst (local_request W self prompt log)).
           ++ discriminate.
           ++ intros [= <- _]. reflexivity.
        -- rewrite call_local_unconfigured by assumption.
           intros [= <- _]. reflexivity.
      * intros [= <- _]. reflexivity.
  - intros W self prompt log Hp Hc. rewrite analyze_remote by assumption.
    now apply call_sap_aicore_unconfigured.
  - intros W self prompt log cause log' Hp Hc Ht.
    rewrite analyze_remote, call_sap_aicore_run by assumption.
    rewrite Ht. cbn [fst]. rewrite token_request_run in Ht.
    injection Ht as _ <-. reflexivity.
  - intros W self prompt log token log1 cause log2 Hp Hc Ht Hi.
    rewrite analyze_remote, call_sap_aicore_run by assumption.
    rewrite Ht. cbn [fst]. rewrite token_request_run in Ht.
    injection Ht as _ <-. rewrite Hi. cbn [fst].
    rewrite inference_request_run in Hi. injection Hi as _ <-.
    rewrite <- app_assoc. reflexivity.
Qed.

(** The remote end refuses the token exchange. *)
Lemma failures_share_one_kind_witness :
  analyze (Fixture.remote_end Fixture.refused Fixture.refused)
    Fixture.remote_client (lit "Why?") []
  = (Raise (mk_exc LLMError (lit "SAP AI Core authentication failed")),
     [token_post Fixture.remote_client]).
Proof.
  destruct failures_share_one_kind as (_ & _ & H & _).
  apply (H _ _ _ _ (mk_exc ConnectionError (lit "connection refused")));
    vm_compute; reflexivity.
Defined.

(** C2 as stated fails: a refused token exchange, a refused inference call
    and a missing token endpoint raise exceptions of one and the same
    class. *)
Lemma three_failures_one_kind :
  exists e_auth e_model e_config,
    fst (analyze (Fixture.remote_end Fixture.refused Fixture.refused)
           Fixture.remote_client (lit "Why?") []) = Raise e_auth /\
    fst (analyze (Fixture.remote_end (Fixture.ok_response Fixture.token_body)
                    Fixture.refused)
           Fixture.remote_client (lit "Why?") []) = Raise e_model /\
    fst (analyze (Fixture.remote_end Fixture.refused Fixture.refused)
           Fixture.no_token_url_client (lit "Why?") []) = Raise e_config /\
    exc_type e_auth = exc_type e_model /\
    exc_type e_model = exc_type e_config.
Proof.
  exists (mk_exc LLMError (lit "SAP AI Core authentication failed")),
         (mk_exc LLMError (lit "connection refused")),
         (mk_exc LLMError (lit "SAP AI Core configuration missing")).
  repeat split; vm_compute; reflexivity.
Qed.

(** ** Configuration is checked before any request *)

Lemma py_all_false (attrs : list (option str)) (a : option str) :
  In a attrs -> attr_truthy a = false -> py_all attrs = false.
Proof.
  intros Hin Ha. unfold py_all.
  destruct (forallb attr_truthy attrs) eqn:E; [|reflexivity].
  rewrite forallb_forall in E. rewrite (E a Hin) in Ha. discriminate.
Qed.

(** C3, as amended.  For the remote-managed provider, when the token
    endpoint, the client id, the client secret or the inference endpoint is
    absent or empty, and for a local provider, when the endpoint is absent
    or empty, [analyze] raises [LLMError] with a configuration text and the
    request log is unchanged: no request was issued.  The model name is not
    among the parameters checked. *)
Theorem missing_configuration_fails_fast (W : world) (self : LLMClient)
    (prompt : str) (log : list http_call) :
  (provider self = lit "sap_aicore" ->
   (exists a, In a [token_url self; client_id self; client_secret self;
                    inference_url self] /\ attr_truthy a = false) ->
   analyze W self prompt log =
   (Raise (mk_exc LLMError (lit "SAP AI Core configuration missing")), log)) /\
  (In (provider self) [lit "local"; lit "ollama"; lit "vllm"] ->
   attr_truthy (local_url self) = false ->
   analyze W self prompt log =
   (Raise (mk_exc LLMError (lit "LOCAL_LLM_URL not set")), log)).
Proof.
  split.
  - intros Hp (a & Hin & Ha). rewrite analyze_remote by assumption.
    apply call_sap_aicore_unconfigured. unfold remote_configured.
    now apply (py_all_false _ a).
  - intros Hp Hc. rewrite analyze_local by assumption.
    now apply call_local_unconfigured.
Qed.

(** A client without a token endpoint. *)
Lemma missing_configuration_fails_fast_witness :
  analyze (Fixture.remote_end Fixture.refused Fixture.refused)
    Fixture.no_token_url_client (lit "Why?") []
  = (Raise (mk_exc LLMError (lit "SAP AI Core configuration missing")), []).
Proof.
  apply (missing_configuration_fails_fast
           (Fixture.remote_end Fixture.refused Fixture.refused)
           Fixture.no_token_url_client (lit "Why?") []).
  - reflexivity.
  - exists None. split; [left; reflexivity|reflexivity].
Defined.

(** C3 as stated fails for the model name: without it the client issues
    both requests and returns a result. *)
Lemma missing_model_name_is_not_checked :
  model_name Fixture.no_model_client = None /\
  exists r,
    analyze (Fixture.remote_end (Fixture.ok_response Fixture.token_body)
               (Fixture.ok_response Fixture.chat_body))
      Fixture.no_model_client (lit "Why?") []
    = (Ok r, [token_post Fixture.no_model_client;
              inference_post Fixture.no_model_client (lit "Why?") (PStr (lit "T"))]).
Proof. split; [reflexivity|]. eexists. vm_compute. reflexivity. Qed.

(** ** The first completion choice *)

(** C4, the behaviour at the failing input.  When the inference call
    succeeds with the body [{"choices": []}], indexing the empty array
    raises [IndexError], and [analyze] raises [LLMError] with its text
    instead of returning an empty text. *)
Theorem empty_choices_raise :
  first_choice_content (PDict [(lit "choices", PList [])])
  = Raise (mk_exc IndexError (lit "list index out of range")) /\
  analyze (Fixture.remote_end (Fixture.ok_response Fixture.token_body)
             (Fixture.ok_response Fixture.empty_choices_body))
    Fixture.remote_client (lit "Why?") []
  = (Raise (mk_exc LLMError (lit "list index out of range")),
     [token_post Fixture.remote_client;
      inference_post Fixture.remote_client (lit "Why?") (PStr (lit "T"))]).
Proof. split; vm_compute; reflexivity. Qed.

(** Where the structure is absent rather than empty, the text is empty. *)
Lemma absent_structure_degrades (d : list (str * pyval)) :
  dict_lookup d (lit "choices") = None ->
  first_choice_content (PDict d) = Ok (PStr []).
Proof. intros H. unfold first_choice_content, py_get. rewrite H. reflexivity. Qed.

(** ** The text of a local response *)







(** ** Requests per invocation *)

Lemma count_posts_app (kind : http_call -> bool) (a b : list http_call) :
  count_posts kind (a ++ b) = (count_posts kind a + count_posts kind b)%nat.
Proof. unfold count_posts. now rewrite filter_app, length_app. Qed.

Lemma analyze_remote_log (W : world) (self : LLMClient) (prompt : str)
    (log : list http_call) :
  provider self = lit "sap_aicore" -> remote_configured self = true ->
  snd (analyze W self prompt log) =
  match fst (_get_access_token W self log) with
  | Ok token => log ++ [token_post self; inference_post self prompt token]
  | Raise _ => log ++ [token_post self]
  end.
Proof.
  intros Hp Hc. rewrite analyze_remote, call_sap_aicore_run by assumption.
  rewrite get_access_token_run. cbn [fst].
  destruct (fst (token_request W self log)); reflexivity.
Qed.

(** C8, as amended.  For a configured remote-managed provider every
    invocation of [analyze] issues exactly one token exchange, and, when
    the exchange yields a token, exactly one inference call after it,
    carrying that token; when the exchange fails there is no inference
    call.  Nothing is cached: a second invocation issues a second token
    exchange. *)
Theorem one_exchange_per_invocation (W : world) (self : LLMClient)
    (prompt : str) (log : list http_call) :
  provider self = lit "sap_aicore" -> remote_configured self = true ->
  (snd (analyze W self prompt log) =
   match fst (_get_access_token W self log) with
   | Ok token => log ++ [token_post self; inference_post self prompt token]
   | Raise _ => log ++ [token_post self]
   end) /\
  (forall prompt',
     count_posts is_token_post
       (snd (analyze W self prompt' (snd (analyze W self prompt log))))
     = (2 + count_posts is_token_post log)%nat).
Proof.
  intros Hp Hc. split; [now apply analyze_remote_log|].
  intros prompt'. rewrite (analyze_remote_log W self prompt') by assumption.
  rewrite (analyze_remote_log W self prompt log) by assumption.
  destruct (fst (_get_access_token W self log));
    match goal with |- context [fst (_get_access_token W self ?l)] =>
      destruct (fst (_get_access_token W self l)) end;
    rewrite !count_posts_app; unfold count_posts; cbn; lia.
Qed.

(** A remote end that grants the token and answers the chat request. *)
Lemma one_exchange_per_invocation_witness :
  snd (analyze (Fixture.remote_end (Fixture.ok_response Fixture.token_body)
                  (Fixture.ok_response Fixture.chat_body))
         Fixture.remote_client (lit "Why?") [])
  = [token_post Fixture.remote_client;
     inference_post Fixture.remote_client (lit "Why?") (PStr (lit "T"))].
Proof.
  destruct (one_exchange_per_invocation
              (Fixture.remote_end (Fixture.ok_response Fixture.token_body)
                 (Fixture.ok_response Fixture.chat_body))
              Fixture.remote_client (lit "Why?") []) as [H _].
  - reflexivity.
  - reflexivity.
  - rewrite H. vm_compute. reflexivity.
Defined.

(** C8 as stated fails when the token exchange is refused: the fully
    configured client issues the token exchange and no inference call. *)
Lemma failed_exchange_makes_no_inference_call :
  remote_configured Fixture.remote_client = true /\
  model_name Fixture.remote_client = Some (lit "gpt-4o") /\
  snd (analyze (Fixture.remote_end Fixture.refused Fixture.refused)
         Fixture.remote_client (lit "Why?") [])
  = [token_post Fixture.remote_client] /\
  count_posts is_inference_post
    (snd (analyze (Fixture.remote_end Fixture.refused Fixture.refused)
            Fixture.remote_client (lit "Why?") [])) = 0%nat.
Proof. repeat split; vm_compute; reflexivity. Qed.

(** ** The shape of a result *)

(** C10.  For either provider, a result [analyze] returns is a mapping with
    exactly the keys text, json and raw, in which json is what
    [_try_parse_json] makes of text and raw is the decoded body of the
    response to the last request. *)
Theorem analyze_result_shape (W : world) (self : LLMClient) (prompt : str)
    (log log' : list http_call) (r : pyval) :
  analyze W self prompt log = (Ok r, log') ->
  exists text parsed raw,
    r = PDict [(lit "text", text); (lit "json", parsed); (lit "raw", raw)] /\
    _try_parse_json text = Ok parsed /\
    exists history request resp,
      log' = history ++ [request] /\
      respond W history request = PostReturns resp /\
      Json.loads (body resp) = Some raw.
Proof.
  unfold analyze.
  destruct (str_eqb (provider self) (lit "sap_aicore")).
  - destruct (remote_configured self) eqn:C.
    2:{ rewrite call_sap_aicore_unconfigured by assumption. discriminate. }
    rewrite call_sap_aicore_run by assumption.
    destruct (fst (token_request W self log)) as [token|]; [|discriminate].
    rewrite inference_request_run. cbn [fst].
    destruct (respond W _ _) as [|resp] eqn:R; [discriminate|].
    destruct (raise_for_status resp); [|discriminate].
    unfold response_json.
    destruct (Json.loads (body resp)) as [raw|] eqn:J; [|discriminate].
    destruct (first_choice_content raw) as [text|]; [|discriminate].
    destruct (_try_parse_json text) as [parsed|] eqn:P; [|discriminate].
    intros [= <- <-]. exists text, parsed, raw. repeat split; [assumption|].
    exists (log ++ [token_post self]), (inference_post self prompt token), resp.
    repeat split; [|assumption..]. rewrite <- app_assoc. reflexivity.
  - destruct (str_eqb _ _ || str_eqb _ _ || str_eqb _ _); [|discriminate].
    destruct (attr_truthy (local_url self)) eqn:C.
    2:{ rewrite call_local_unconfigured by assumption. discriminate. }
    rewrite call_local_run, local_request_run by assumption. cbn [fst].
    destruct (respond W _ _) as [|resp] eqn:R; [discriminate|].
    destruct (raise_for_status resp); [|discriminate].
    unfold response_json.
    destruct (Json.loads (body resp)) as [raw|] eqn:J; [|discriminate].
    destruct (local_text W raw) as [text|]; [|discriminate].
    destruct (_try_parse_json text) as [parsed|] eqn:P; [|discriminate].
    intros [= <- <-]. exists text, parsed, raw. repeat split; [assumption|].
    exists log, (local_post self prompt), resp. repeat split; assumption.
Qed.

(** A remote end that grants the token and answers the chat request. *)
Lemma analyze_result_shape_witness :
  exists text parsed raw,
    analysis (PStr (lit "hi")) PNone Fixture.chat_raw
    = PDict [(lit "text", text); (lit "json", parsed); (lit "raw", raw)] /\
    _try_parse_json text = Ok parsed /\
    exists history request resp,
      [token_post Fixture.remote_client;
       inference_post Fixture.remote_client (lit "Why?") (PStr (lit "T"))]
      = history ++ [request] /\
      respond (Fixture.remote_end (Fixture.ok_response Fixture.token_body)
                 (Fixture.ok_response Fixture.chat_body)) history request
      = PostReturns resp /\
      Json.loads (body resp) = Some raw.
Proof.
  apply (analyze_result_shape
           (Fixture.remote_end (Fixture.ok_response Fixture.token_body)
              (Fixture.ok_response Fixture.chat_body))
           Fixture.remote_client (lit "Why?") []).
  vm_compute. reflexivity.
Defined.

(** ** The analysis store *)

Module StorageFacts.
Import Storage.

Lemma keyed_empty : keyed ∅.
Proof. intros k r H. rewrite lookup_empty in H. discriminate. Qed.

Lemma keyed_apply_save (st : store) (c : save_call) :
  keyed st -> keyed (apply_save st c).
Proof.
  intros K k r. unfold apply_save, save_analysis. cbn [fst].
  destruct (decide (save_id c = k)) as [<-|Hne].
  - rewrite lookup_insert_eq. intros [= <-]. reflexivity.
  - rewrite lookup_insert_ne by assumption. apply K.
Qed.

Lemma keyed_run_saves (calls : list save_call) (st : store) :
  keyed st -> keyed (run_saves st calls).
Proof.
  revert st. induction calls as [|c calls IH]; intros st K; [exact K|].
  apply IH, keyed_apply_save, K.
Qed.

Lemma run_saves_app (st : store) (a b : list save_call) :
  run_saves st (a ++ b) = run_saves (run_saves st a) b.
Proof. apply fold_left_app. Qed.

Lemma run_saves_other (calls : list save_call) (st : store) (rid : str) :
  Forall (fun c => save_id c <> rid) calls ->
  run_saves st calls !! rid = st !! rid.
Proof.
  revert st. induction calls as [|c calls IH]; intros st H; [reflexivity|].
  inversion H as [|? ? Hc Hcs]; subst. cbn [run_saves fold_left].
  change (fold_left apply_save calls (apply_save st c))
    with (run_saves (apply_save st c) calls).
  rewrite IH by assumption. unfold apply_save, save_analysis. cbn [fst].
  now rewrite lookup_insert_ne.
Qed.

Lemma with_id_none (rid : str) (l : list AnalysisRecord) :
  Forall (fun r => record_id r <> rid) l -> with_id rid l = [].
Proof.
  unfold with_id. induction 1 as [|r l Hr _ IH]; [reflexivity|].
  rewrite filter_cons_False by assumption. exact IH.
Qed.

Lemma with_id_lookup (st : store) (rid : str) (rec : AnalysisRecord) :
  keyed st -> st !! rid = Some rec -> with_id rid (records st) = [rec].
Proof.
  intros K H. apply Permutation_singleton_r. unfold with_id, records.
  rewrite <- (map_to_list_delete st rid rec H). cbn [fmap list_fmap snd].
  rewrite filter_cons_True by (apply (K _ _ H)).
  apply Permutation_skip.
  assert (E : with_id rid (map_to_list (delete rid st)).*2 = []).
  { apply with_id_none, Forall_forall.
    intros r Hr. apply list_elem_of_In, list_elem_of_fmap in Hr as [[k r'] [-> Hin]].
    apply elem_of_map_to_list in Hin. cbn [snd].
    destruct (decide (k = rid)) as [->|Hne].
    - rewrite lookup_delete_eq in Hin. discriminate.
    - rewrite lookup_delete_ne in Hin by congruence.
      rewrite (K _ _ Hin). exact Hne. }
  unfold with_id in E.
  rewrite E. reflexivity.
Qed.

Lemma with_id_take (rid : str) (n : nat) (l : list AnalysisRecord) :
  (length (with_id rid (take n l)) <= length (with_id rid l))%nat.
Proof.
  unfold with_id. revert n. induction l as [|r l IH]; intros [|n]; cbn [firstn].
  - lia.
  - lia.
  - rewrite filter_nil. cbn [length]. lia.
  - rewrite !filter_cons. specialize (IH n).
    destruct (decide (record_id r = rid)); cbn [length]; lia.
Qed.

Lemma with_id_sorted (st : store) (rid : str) :
  with_id rid (merge_sort newer_first (records st)) ≡ₚ with_id rid (records st).
Proof. unfold with_id. now rewrite merge_sort_Permutation. Qed.

End StorageFacts.

(** C9.  After any sequence of saves into an empty store in which [c] is
    the latest save of its id, the store holds exactly one record for that
    id; it is the record [c] wrote, so its [created_at] is the time of that
    save; [list_recent] never lists the id twice, and lists exactly that
    record when the limit covers the store. *)
Theorem one_live_record_per_id (calls later : list Storage.save_call)
    (c : Storage.save_call) :
  Forall (fun c' => Storage.save_id c' <> Storage.save_id c) later ->
  let st := Storage.run_saves ∅ (calls ++ c :: later) in
  let rec := Storage.mk_record (Storage.save_id c) (Storage.save_payload c)
               (Storage.save_result c) (Storage.at_time c) in
  Storage.get_analysis st (Storage.save_id c) = Some rec /\
  Storage.with_id (Storage.save_id c) (Storage.records st) = [rec] /\
  (forall limit,
     (length (Storage.with_id (Storage.save_id c) (Storage.list_recent st limit))
      <= 1)%nat) /\
  (forall limit,
     (Z.of_nat (size st) <= limit)%Z ->
     Storage.with_id (Storage.save_id c) (Storage.list_recent st limit) = [rec]).
Proof.
  intros Hlater st rec.
  assert (K : Storage.keyed st).
  { apply StorageFacts.keyed_run_saves, StorageFacts.keyed_empty. }
  assert (G : st !! Storage.save_id c = Some rec).
  { unfold st. rewrite StorageFacts.run_saves_app.
    cbn [Storage.run_saves fold_left].
    change (fold_left Storage.apply_save later ?s) with (Storage.run_saves s later).
    rewrite StorageFacts.run_saves_other by assumption.
    unfold Storage.apply_save, Storage.save_analysis. cbn [fst].
    apply lookup_insert_eq. }
  assert (R : Storage.with_id (Storage.save_id c) (Storage.records st) = [rec]).
  { now apply StorageFacts.with_id_lookup. }
  repeat split.
  - exact G.
  - exact R.
  - intros limit. unfold Storage.list_recent.
    etransitivity; [apply StorageFacts.with_id_take|].
    rewrite (Permutation_length (StorageFacts.with_id_sorted st _)), R.
    reflexivity.
  - intros limit L. unfold Storage.list_recent.
    rewrite take_ge.
    + apply Permutation_singleton_r.
      rewrite StorageFacts.with_id_sorted, R. reflexivity.
    + rewrite (Permutation_length (merge_sort_Permutation _ _)).
      unfold Storage.records. rewrite length_fmap, length_map_to_list. lia.
Qed.

(** D1 is saved, then D2, then D1 again. *)
Lemma one_live_record_per_id_witness :
  Storage.with_id (lit "D1")
    (Storage.list_recent
       (Storage.run_saves ∅
          [Storage.mk_save 10 (lit "D1") (PDict []) PNone;
           Storage.mk_save 20 (lit "D2") (PDict []) PNone;
           Storage.mk_save 30 (lit "D1") (PDict []) (PStr (lit "again"))]) 50)
  = [Storage.mk_record (lit "D1") (PDict []) (PStr (lit "again")) 30].
Proof.
  apply (one_live_record_per_id
           [Storage.mk_save 10 (lit "D1") (PDict []) PNone;
            Storage.mk_save 20 (lit "D2") (PDict []) PNone]
           []
           (Storage.mk_save 30 (lit "D1") (PDict []) (PStr (lit "again")))).
  - constructor.
  - vm_compute. discriminate.
Defined.

(** * Further properties *)

(** ** The client *)

Lemma str_eqb_neq (a b : str) : a <> b -> str_eqb a b = false.
Proof.
  intros H. destruct (str_eqb a b) eqn:E; [|reflexivity].
  apply str_eqb_eq in E. contradiction.
Qed.

(** X1.  A provider name other than [sap_aicore], [local], [ollama] and
    [vllm] makes [analyze] raise [LLMError] with the text
    "Unknown LLM_PROVIDER: " followed by the name; no request is sent. *)
Theorem unknown_provider_is_refused (W : world) (self : LLMClient)
    (prompt : str) (log : list http_call) :
  ~ In (provider self) known_providers ->
  analyze W self prompt log =
  (Raise (mk_exc LLMError (lit "Unknown LLM_PROVIDER: " ++ provider self)), log).
Proof.
  intros H. unfold analyze, known_providers in *.
  rewrite !str_eqb_neq; [reflexivity|..];
    intros E; apply H; rewrite E; simpl; tauto.
Qed.

Lemma unknown_provider_is_refused_witness :
  analyze (Fixture.remote_end Fixture.refused Fixture.refused)
    (mk_client (lit "openai") None None None None None None 800 FNaN)
    (lit "Why?") []
  = (Raise (mk_exc LLMError (lit "Unknown LLM_PROVIDER: openai")), []).
Proof.
  apply (unknown_provider_is_refused
           (Fixture.remote_end Fixture.refused Fixture.refused)
           (mk_client (lit "openai") None None None None None None 800 FNaN)
           (lit "Why?") []).
  vm_compute. intuition discriminate.
Defined.

Lemma raise_for_status_ok (r : response) :
  error_status r = false -> raise_for_status r = Ok tt.
Proof.
  unfold error_status, raise_for_status. cbv zeta. intros H.
  destruct ((400 <=? status_code r)%Z && (status_code r <? 500)%Z) eqn:A;
    [exfalso; lia|].
  destruct ((500 <=? status_code r)%Z && (status_code r <? 600)%Z) eqn:B;
    [exfalso; lia|]. reflexivity.
Qed.

Lemma raise_for_status_error (r : response) :
  error_status r = true ->
  exists text, raise_for_status r = Raise (mk_exc HTTPError text) /\
    (text = http_error_text r " Client Error: " \/
     text = http_error_text r " Server Error: ").
Proof.
  unfold error_status, raise_for_status. cbv zeta. intros H.
  destruct ((400 <=? status_code r)%Z && (status_code r <? 500)%Z) eqn:A;
    [eauto|].
  destruct ((500 <=? status_code r)%Z && (status_code r <? 600)%Z) eqn:B;
    [eauto|]. exfalso; lia.
Qed.

Lemma raise_for_status_cases (r : response) :
  (error_status r = false /\ raise_for_status r = Ok tt) \/
  (error_status r = true /\ exists e, raise_for_status r = Raise e).
Proof.
  destruct (error_status r) eqn:E.
  - right. split; [reflexivity|].
    destruct (raise_for_status_error r E) as (t & -> & _). eauto.
  - left. split; [reflexivity|]. now apply raise_for_status_ok.
Qed.

(** X2.  [_get_access_token] sends exactly one request, the token
    exchange.  It returns a token exactly when the endpoint answered with a
    status outside 400..599 and a body that decodes to a JSON object holding
    the key [access_token]; the token is the value of that key, whatever its
    type.  Every failure is the one [LLMError] "SAP AI Core authentication
    failed". *)
Theorem token_exchange_outcome (W : world) (self : LLMClient)
    (log : list http_call) :
  snd (_get_access_token W self log) = log ++ [token_post self] /\
  (forall token,
     fst (_get_access_token W self log) = Ok token <->
     exists resp d,
       respond W log (token_post self) = PostReturns resp /\
       error_status resp = false /\
       Json.loads (body resp) = Some (PDict d) /\
       dict_lookup d (lit "access_token") = Some token) /\
  (forall e,
     fst (_get_access_token W self log) = Raise e ->
     e = mk_exc LLMError (lit "SAP AI Core authentication failed")).
Proof.
  rewrite get_access_token_run, token_request_run. cbn [fst snd].
  split; [reflexivity|]. split.
  - intros token. split.
    + destruct (respond W log (token_post self)) as [|resp]; [discriminate|].
      destruct (raise_for_status_cases resp) as [[Es ->]|[Es [e ->]]];
        [|discriminate].
      unfold response_json.
      destruct (Json.loads (body resp)) as [j|] eqn:J; [|discriminate].
      destruct j; try discriminate. cbn [py_item_access_token].
      destruct (dict_lookup d (lit "access_token")) as [v|] eqn:L;
        [|discriminate].
      intros [= <-]. exists resp, d. auto.
    + intros (resp & d & -> & Es & J & L).
      rewrite (raise_for_status_ok resp Es). unfold response_json.
      rewrite J. cbn [py_item_access_token]. rewrite L. reflexivity.
  - intros e.
    destruct (respond W log (token_post self)) as [|resp];
      [intros [= <-]; reflexivity|].
    destruct (raise_for_status resp); [|intros [= <-]; reflexivity].
    destruct (response_json W resp) as [j|]; [|intros [= <-]; reflexivity].
    destruct (py_item_access_token j); [discriminate|].
    intros [= <-]. reflexivity.
Qed.

(** X3.  For the providers [local], [ollama] and [vllm], [analyze] sends
    one request, the one to [LOCAL_LLM_URL], when that URL is set, and no
    request when it is not; it never asks for a token. *)
Theorem local_provider_single_request (W : world) (self : LLMClient)
    (prompt : str) (log : list http_call) :
  In (provider self) local_providers ->
  snd (analyze W self prompt log) =
  (if attr_truthy (local_url self) then log ++ [local_post self prompt] else log)
  /\ count_posts is_token_post (snd (analyze W self prompt log))
     = count_posts is_token_post log.
Proof.
  intros Hp. rewrite analyze_local by exact Hp.
  destruct (attr_truthy (local_url self)) eqn:C.
  - rewrite call_local_run by assumption. cbn [snd]. split; [reflexivity|].
    rewrite count_posts_app. unfold count_posts at 2. cbn. lia.
  - rewrite call_local_unconfigured by assumption. split; reflexivity.
Qed.

Lemma local_provider_single_request_witness :
  snd (analyze (Fixture.remote_end Fixture.refused
                  (Fixture.ok_response Fixture.local_body))
         Fixture.local_client (lit "Why?") [])
  = [local_post Fixture.local_client (lit "Why?")].
Proof.
  destruct (local_provider_single_request
              (Fixture.remote_end Fixture.refused
                 (Fixture.ok_response Fixture.local_body))
              Fixture.local_client (lit "Why?") []) as [H _].
  - left. reflexivity.
  - exact H.
Defined.

(** X4.  A status from 400 to 599 in the answer to the inference call, or
    to the call of the local service, makes [analyze] raise [LLMError]; its
    text is the text of the [HTTPError] of [raise_for_status], which names
    the status, "Client Error" or "Server Error", the reason and the URL.
    The body of such an answer is not read. *)
Theorem error_status_is_a_failure :
  (forall W self prompt log token log1 resp,
     provider self = lit "sap_aicore" -> remote_configured self = true ->
     token_request W self log = (Ok token, log1) ->
     respond W log1 (inference_post self prompt token) = PostReturns resp ->
     error_status resp = true ->
     exists text,
       analyze W self prompt log =
       (Raise (mk_exc LLMError text), log1 ++ [inference_post self prompt token]) /\
       (text = http_error_text resp " Client Error: " \/
        text = http_error_text resp " Server Error: ")) /\
  (forall W self prompt log resp,
     In (provider self) local_providers -> attr_truthy (local_url self) = true ->
     respond W log (local_post self prompt) = PostReturns resp ->
     error_status resp = true ->
     exists text,
       analyze W self prompt log =
       (Raise (mk_exc LLMError text), log ++ [local_post self prompt]) /\
       (text = http_error_text resp " Client Error: " \/
        text = http_error_text resp " Server Error: ")).
Proof.
  split.
  - intros W self prompt log token log1 resp Hp Hc Ht Hr Hs.
    destruct (raise_for_status_error resp Hs) as (text & Er & Htext).
    exists text. split; [|exact Htext].
    rewrite analyze_remote, call_sap_aicore_run by assumption.
    rewrite Ht. cbn [fst]. rewrite token_request_run in Ht.
    injection Ht as _ <-. rewrite inference_request_run. cbn [fst].
    rewrite Hr, Er. rewrite <- app_assoc. reflexivity.
  - intros W self prompt log resp Hp Hc Hr Hs.
    destruct (raise_for_status_error resp Hs) as (text & Er & Htext).
    exists text. split; [|exact Htext].
    rewrite analyze_local, call_local_run, local_request_run by assumption.
    cbn [fst]. rewrite Hr, Er. reflexivity.
Qed.

Lemma error_status_is_a_failure_witness :
  exists text,
    analyze (Fixture.remote_end Fixture.refused
               (PostReturns (mk_response 503 (lit "Service Unavailable")
                               (lit "http://localhost:8000/generate")
                               Fixture.local_body)))
      Fixture.local_client (lit "Why?") []
    = (Raise (mk_exc LLMError text), [] ++ [local_post Fixture.local_client (lit "Why?")]) /\
    (text = http_error_text (mk_response 503 (lit "Service Unavailable")
                               (lit "http://localhost:8000/generate")
                               Fixture.local_body) " Client Error: " \/
     text = http_error_text (mk_response 503 (lit "Service Unavailable")
                               (lit "http://localhost:8000/generate")
                               Fixture.local_body) " Server Error: ").
Proof.
  destruct error_status_is_a_failure as [_ H].
  apply H.
  - left. reflexivity.
  - reflexivity.
  - reflexivity.
  - reflexivity.
Defined.

(** X5.  When the answer to the inference call, or to the call of the local
    service, has a body that decodes to a JSON value other than an object,
    [analyze] raises [LLMError] with the text of the [AttributeError] for the
    missing method [get] of that value. *)
Theorem body_must_be_an_object :
  (forall W self prompt log token log1 resp v,
     provider self = lit "sap_aicore" -> remote_configured self = true ->
     token_request W self log = (Ok token, log1) ->
     respond W log1 (inference_post self prompt token) = PostReturns resp ->
     error_status resp = false ->
     Json.loads (body resp) = Some v -> is_mapping v = false ->
     analyze W self prompt log =
     (Raise (mk_exc LLMError (exc_text (no_attribute v "get"))),
      log1 ++ [inference_post self prompt token])) /\
  (forall W self prompt log resp v,
     In (provider self) local_providers -> attr_truthy (local_url self) = true ->
     respond W log (local_post self prompt) = PostReturns resp ->
     error_status resp = false ->
     Json.loads (body resp) = Some v -> is_mapping v = false ->
     analyze W self prompt log =
     (Raise (mk_exc LLMError (exc_text (no_attribute v "get"))),
      log ++ [local_post self prompt])).
Proof.
  split.
  - intros W self prompt log token log1 resp v Hp Hc Ht Hr Hs Hj Hv.
    rewrite analyze_remote, call_sap_aicore_run by assumption.
    rewrite Ht. cbn [fst]. rewrite token_request_run in Ht.
    injection Ht as _ <-. rewrite inference_request_run. cbn [fst].
    rewrite Hr, (raise_for_status_ok resp Hs). unfold response_json.
    rewrite Hj, <- app_assoc.
    destruct v; try discriminate; reflexivity.
  - intros W self prompt log resp v Hp Hc Hr Hs Hj Hv.
    rewrite analyze_local, call_local_run, local_request_run by assumption.
    cbn [fst]. rewrite Hr, (raise_for_status_ok resp Hs). unfold response_json.
    rewrite Hj. destruct v; try discriminate; reflexivity.
Qed.

Lemma body_must_be_an_object_witness :
  analyze (Fixture.remote_end Fixture.refused (Fixture.ok_response (lit "[1, 2]")))
    Fixture.local_client (lit "Why?") []
  = (Raise (mk_exc LLMError (lit "'list' object has no attribute 'get'")),
     [local_post Fixture.local_client (lit "Why?")]).
Proof.
  destruct body_must_be_an_object as [_ H].
  apply (H (Fixture.remote_end Fixture.refused (Fixture.ok_response (lit "[1, 2]")))
           Fixture.local_client (lit "Why?") []
           (mk_response 200 (lit "OK") (lit "https://example") (lit "[1, 2]"))
           (PList [PInt 1; PInt 2])).
  - left. reflexivity.
  - reflexivity.
  - reflexivity.
  - reflexivity.
  - vm_compute. reflexivity.
  - reflexivity.
Defined.

Lemma first_choice_content_absent (d : list (str * pyval)) :
  content_absent d = true -> first_choice_content (PDict d) = Ok (PStr []).
Proof.
  unfold content_absent, first_choice_content, py_get.
  destruct (dict_lookup d (lit "choices")) as [v|]; [|reflexivity].
  destruct v as [| | | | |l|]; try discriminate.
  destruct l as [|c l]; [discriminate|].
  destruct c as [| | | | | |c]; try discriminate. cbn [py_item0].
  destruct (dict_lookup c (lit "message")) as [m|]; [|reflexivity].
  destruct m as [| | | | | |m]; try discriminate.
  destruct (dict_lookup m (lit "content")); [discriminate|reflexivity].
Qed.

(** X6.  The remote path degrades to the empty text: when the completion
    body is an object that has no [choices], or whose first choice is an
    object without [message], or whose [message] is an object without
    [content], [analyze] returns the empty text, the [json] value [None] and
    the body as [raw]. *)
Theorem absent_content_gives_empty_text (W : world) (self : LLMClient)
    (prompt : str) (log log1 : list http_call) (token : pyval)
    (resp : response) (d : list (str * pyval)) :
  provider self = lit "sap_aicore" -> remote_configured self = true ->
  token_request W self log = (Ok token, log1) ->
  respond W log1 (inference_post self prompt token) = PostReturns resp ->
  error_status resp = false ->
  Json.loads (body resp) = Some (PDict d) ->
  content_absent d = true ->
  analyze W self prompt log =
  (Ok (analysis (PStr []) PNone (PDict d)),
   log1 ++ [inference_post self prompt token]).
Proof.
  intros Hp Hc Ht Hr Hs Hj Hd.
  rewrite analyze_remote, call_sap_aicore_run by assumption.
  rewrite Ht. cbn [fst]. rewrite token_request_run in Ht.
  injection Ht as _ <-. rewrite inference_request_run. cbn [fst].
  rewrite Hr, (raise_for_status_ok resp Hs). unfold response_json.
  rewrite Hj, (first_choice_content_absent d Hd), <- app_assoc. reflexivity.
Qed.

Lemma absent_content_gives_empty_text_witness :
  analyze (Fixture.remote_end (Fixture.ok_response Fixture.token_body)
             (Fixture.ok_response (lit "{}")))
    Fixture.remote_client (lit "Why?") []
  = (Ok (analysis (PStr []) PNone (PDict [])),
     [token_post Fixture.remote_client]
     ++ [inference_post Fixture.remote_client (lit "Why?") (PStr (lit "T"))]).
Proof.
  apply (absent_content_gives_empty_text
           (Fixture.remote_end (Fixture.ok_response Fixture.token_body)
              (Fixture.ok_response (lit "{}")))
           Fixture.remote_client (lit "Why?") []
           [token_post Fixture.remote_client] (PStr (lit "T"))
           (mk_response 200 (lit "OK") (lit "https://example") (lit "{}")) []).
  - reflexivity.
  - reflexivity.
  - vm_compute. reflexivity.
  - reflexivity.
  - reflexivity.
  - vm_compute. reflexivity.
  - reflexivity.
Defined.

Lemma try_parse_json_outcome (text parsed : pyval) :
  _try_parse_json text = Ok parsed ->
  (truthy text = true /\ is_str text = true) \/
  (truthy text = false /\ parsed = PNone).
Proof.
  unfold _try_parse_json. destruct (truthy text) eqn:T; cbn [negb].
  - destruct text; try discriminate. intros _. left. split; reflexivity.
  - intros [= <-]. right. split; reflexivity.
Qed.

(** X7.  In every result of [analyze] the [text] is a non-empty string, or
    it is a false value ([None], [false], a zero, an empty string, list or
    object) and then [json] is [None]. *)
Theorem text_is_a_string_or_false (W : world) (self : LLMClient)
    (prompt : str) (log log' : list http_call) (r : pyval) :
  analyze W self prompt log = (Ok r, log') ->
  exists text parsed raw,
    r = analysis text parsed raw /\
    ((truthy text = true /\ is_str text = true) \/
     (truthy text = false /\ parsed = PNone)).
Proof.
  unfold analyze.
  destruct (str_eqb (provider self) (lit "sap_aicore")).
  - destruct (remote_configured self) eqn:C.
    2:{ rewrite call_sap_aicore_unconfigured by assumption. discriminate. }
    rewrite call_sap_aicore_run by assumption.
    destruct (fst (token_request W self log)) as [token|]; [|discriminate].
    rewrite inference_request_run. cbn [fst].
    destruct (respond W _ _) as [|resp]; [discriminate|].
    destruct (raise_for_status resp); [|discriminate].
    destruct (response_json W resp) as [raw|]; [|discriminate].
    destruct (first_choice_content raw) as [text|]; [|discriminate].
    destruct (_try_parse_json text) as [parsed|] eqn:P; [|discriminate].
    intros [= <- _]. exists text, parsed, raw. split; [reflexivity|].
    now apply try_parse_json_outcome.
  - destruct (str_eqb _ _ || str_eqb _ _ || str_eqb _ _); [|discriminate].
    destruct (attr_truthy (local_url self)) eqn:C.
    2:{ rewrite call_local_unconfigured by assumption. discriminate. }
    rewrite call_local_run, local_request_run by assumption. cbn [fst].
    destruct (respond W _ _) as [|resp]; [discriminate|].
    destruct (raise_for_status resp); [|discriminate].
    destruct (response_json W resp) as [raw|]; [|discriminate].
    destruct (local_text W raw) as [text|]; [|discriminate].
    destruct (_try_parse_json text) as [parsed|] eqn:P; [|discriminate].
    intros [= <- _]. exists text, parsed, raw. split; [reflexivity|].
    now apply try_parse_json_outcome.
Qed.

Lemma text_is_a_string_or_false_witness :
  exists text parsed raw,
    analysis (PStr (lit "hi")) PNone Fixture.chat_raw = analysis text parsed raw /\
    ((truthy text = true /\ is_str text = true) \/
     (truthy text = false /\ parsed = PNone)).
Proof.
  apply (text_is_a_string_or_false
           (Fixture.remote_end (Fixture.ok_response Fixture.token_body)
              (Fixture.ok_response Fixture.chat_body))
           Fixture.remote_client (lit "Why?") []
           [token_post Fixture.remote_client;
            inference_post Fixture.remote_client (lit "Why?") (PStr (lit "T"))]).
  vm_compute. reflexivity.
Defined.

(** ** Surrounding whitespace *)

Lemma parse_text_strip (a b : str) : strip a = strip b -> parse_text a = parse_text b.
Proof.
  intros E. rewrite !parse_text_unfold. unfold stripped. now rewrite E.
Qed.

(** X8.  Whitespace around the text does not change what
    [_try_parse_json] returns. *)
Theorem surrounding_whitespace_is_ignored (pad t pad' : str) :
  forallb isspace pad = true -> forallb isspace pad' = true ->
  _try_parse_json (PStr (pad ++ t ++ pad')) = _try_parse_json (PStr t).
Proof.
  intros Hpad Hpad'.
  assert (E : parse_text (pad ++ t ++ pad') = parse_text t)
    by (apply parse_text_strip, strip_padding; assumption).
  remember (pad ++ t ++ pad') as u eqn:U.
  destruct t as [|c t].
  - destruct u as [|x s]; [reflexivity|].
    rewrite try_parse_json_str, E by discriminate. reflexivity.
  - destruct u as [|x s]; [destruct pad; discriminate|].
    rewrite !try_parse_json_str, E by discriminate. reflexivity.
Qed.

Lemma surrounding_whitespace_is_ignored_witness :
  _try_parse_json
    (PStr ([Chr.NL; 160] ++ Fixture.prose_result ++ [Chr.SPACE; 8232]))
  = _try_parse_json (PStr Fixture.prose_result).
Proof.
  apply surrounding_whitespace_is_ignored; reflexivity.
Defined.

(** ** The gateway *)

Section RunsAnyPrompt.

Variable W : world.

Lemma inference_request_obj_run (self : LLMClient) (prompt token : pyval)
    (log : list http_call) :
  inference_request_obj W self prompt token log =
  (match respond W log (InferencePost (inference_url self) token
                          (chat_payload_obj self prompt) 60) with
   | PostRaises e => Raise e
   | PostReturns r =>
       match raise_for_status r with
       | Raise e => Raise e
       | Ok _ =>
           match response_json W r with
           | Raise e => Raise e
           | Ok raw =>
               match first_choice_content raw with
               | Raise e => Raise e
               | Ok text =>
                   match _try_parse_json text with
                   | Raise e => Raise e
                   | Ok parsed => Ok (analysis text parsed raw)
                   end
               end
           end
       end
   end,
   log ++ [InferencePost (inference_url self) token
             (chat_payload_obj self prompt) 60]).
Proof.
  unfold inference_request_obj, bind, post, lift, ret.
  destruct (respond W log _) as [e|r]; [reflexivity|].
  destruct (raise_for_status r); [|reflexivity].
  destruct (response_json W r) as [raw|]; [|reflexivity].
  destruct (first_choice_content raw) as [text|]; [|reflexivity].
  destruct (_try_parse_json text); reflexivity.
Qed.

Lemma local_request_obj_run (self : LLMClient) (prompt : pyval)
    (log : list http_call) :
  local_request_obj W self prompt log =
  (match respond W log (LocalPost (local_url self)
                          (PDict [(lit "prompt", prompt)]) 60) with
   | PostRaises e => Raise e
   | PostReturns r =>
       match raise_for_status r with
       | Raise e => Raise e
       | Ok _ =>
           match response_json W r with
           | Raise e => Raise e
           | Ok j =>
               match local_text W j with
               | Raise e => Raise e
               | Ok text =>
                   match _try_parse_json text with
                   | Raise e => Raise e
                   | Ok parsed => Ok (analysis text parsed j)
                   end
               end
           end
       end
   end,
   log ++ [LocalPost (local_url self) (PDict [(lit "prompt", prompt)]) 60]).
Proof.
  unfold local_request_obj, bind, post, lift, ret.
  destruct (respond W log _) as [e|r]; [reflexivity|].
  destruct (raise_for_status r); [|reflexivity].
  destruct (response_json W r) as [j|]; [|reflexivity].
  destruct (local_text W j) as [text|]; [|reflexivity].
  destruct (_try_parse_json text); reflexivity.
Qed.

Lemma analyze_obj_outcome (self : LLMClient) (prompt : pyval)
    (log log' : list http_call) (o : result pyval) :
  analyze_obj W self prompt log = (o, log') -> provider_outcome o.
Proof.
  unfold analyze_obj.
  destruct (str_eqb (provider self) (lit "sap_aicore")).
  - unfold _call_sap_aicore_obj. destruct (negb _).
    { intros [= <- _]. reflexivity. }
    unfold bind. rewrite get_access_token_run.
    destruct (fst (token_request W self log)) as [token|].
    2:{ intros [= <- _]. reflexivity. }
    unfold try_except. rewrite inference_request_obj_run.
    destruct (respond W _ _) as [|resp]; [intros [= <- _]; reflexivity|].
    destruct (raise_for_status resp); [|intros [= <- _]; reflexivity].
    destruct (response_json W resp) as [raw|]; [|intros [= <- _]; reflexivity].
    destruct (first_choice_content raw) as [text|];
      [|intros [= <- _]; reflexivity].
    destruct (_try_parse_json text) as [parsed|] eqn:P;
      [|intros [= <- _]; reflexivity].
    intros [= <- _]. exists text, parsed, raw. split; [reflexivity|exact P].
  - destruct (str_eqb _ _ || str_eqb _ _ || str_eqb _ _).
    2:{ intros [= <- _]. reflexivity. }
    unfold _call_local_obj. destruct (negb _).
    { intros [= <- _]. reflexivity. }
    unfold try_except. rewrite local_request_obj_run.
    destruct (respond W _ _) as [|resp]; [intros [= <- _]; reflexivity|].
    destruct (raise_for_status resp); [|intros [= <- _]; reflexivity].
    destruct (response_json W resp) as [raw|]; [|intros [= <- _]; reflexivity].
    destruct (local_text W raw) as [text|]; [|intros [= <- _]; reflexivity].
    destruct (_try_parse_json text) as [parsed|] eqn:P;
      [|intros [= <- _]; reflexivity].
    intros [= <- _]. exists text, parsed, raw. split; [reflexivity|exact P].
Qed.

Lemma analyze_is_analyze_obj (self : LLMClient) (prompt : str) :
  analyze W self prompt = analyze_obj W self (PStr prompt).
Proof. reflexivity. Qed.

Lemma analyze_outcome (self : LLMClient) (prompt : str)
    (log log' : list http_call) (o : result pyval) :
  analyze W self prompt log = (o, log') -> provider_outcome o.
Proof. rewrite analyze_is_analyze_obj. apply analyze_obj_outcome. Qed.

End RunsAnyPrompt.

Import Gateway.

(** X9.  The replies of [POST /v1/predict], case by case.  A request whose
    body is not JSON gets status 400, "Invalid JSON body".  A JSON body that
    is no object ends the handler with the [AttributeError] of [body.get].
    A JSON object whose [prompt] is absent or false gets status 400,
    "'prompt' field is required".  In these three cases the provider is not
    called.  A JSON object with a true [prompt], of whatever type, has the
    provider called with it: a result [r] of the provider, which is a
    dictionary of [text], [json] and [raw], is returned as [{"result": r}];
    a failure of the provider, which is an [LLMError], gets status 500 with
    the text of the failure. *)
Theorem predict_replies (W : world) (llm_client : LLMClient)
    (log : list http_call) :
  (forall e,
     predict W llm_client (Raise e) log
     = (HTTPException 400 (lit "Invalid JSON body"), log)) /\
  (forall v,
     is_mapping v = false ->
     predict W llm_client (Ok v) log = (Unhandled (no_attribute v "get"), log)) /\
  (forall d,
     get_is_false d "prompt" = true ->
     predict W llm_client (Ok (PDict d)) log
     = (HTTPException 400 (lit "'prompt' field is required"), log)) /\
  (forall d prompt r log',
     dict_lookup d (lit "prompt") = Some prompt -> truthy prompt = true ->
     analyze_obj W llm_client prompt log = (Ok r, log') ->
     predict W llm_client (Ok (PDict d)) log
     = (Respond 200 (PDict [(lit "result", r)]), log') /\
     exists text parsed raw,
       r = analysis text parsed raw /\ _try_parse_json text = Ok parsed) /\
  (forall d prompt e log',
     dict_lookup d (lit "prompt") = Some prompt -> truthy prompt = true ->
     analyze_obj W llm_client prompt log = (Raise e, log') ->
     predict W llm_client (Ok (PDict d)) log
     = (HTTPException 500 (exc_text e), log') /\
     exc_type e = LLMError) /\
  (forall prompt,
     analyze_obj W llm_client (PStr prompt) = analyze W llm_client prompt).
Proof.
  split; [reflexivity|]. split.
  { intros v M. destruct v; try reflexivity. discriminate. }
  split.
  { intros d F. unfold predict, py_get, get_is_false in *.
    destruct (dict_lookup d (lit "prompt")) as [p|]; [|reflexivity].
    apply negb_true_iff in F. rewrite F. reflexivity. }
  split.
  { intros d prompt r log' L T A. unfold predict, py_get. rewrite L, T, A.
    split; [reflexivity|].
    exact (analyze_obj_outcome W _ _ _ _ _ A). }
  split.
  { intros d prompt e log' L T A. unfold predict, py_get. rewrite L, T, A.
    split; [reflexivity|].
    exact (analyze_obj_outcome W _ _ _ _ _ A). }
  reflexivity.
Qed.

(** An empty prompt is refused before the provider is called. *)
Lemma predict_replies_witness :
  predict (Fixture.remote_end Fixture.refused Fixture.refused)
    Fixture.remote_client (Ok (PDict [(lit "prompt", PStr [])])) []
  = (HTTPException 400 (lit "'prompt' field is required"), []).
Proof.
  destruct (predict_replies (Fixture.remote_end Fixture.refused Fixture.refused)
              Fixture.remote_client []) as (_ & _ & H & _).
  apply H. reflexivity.
Defined.

Lemma ai_summary_analysis (text parsed raw : pyval) :
  ai_summary (analysis text parsed raw) =
  Ok (if truthy parsed then parsed else PDict [(lit "raw_text", text)]).
Proof.
  unfold ai_summary, analysis, py_get.
  change (dict_lookup _ (lit "json")) with (Some parsed).
  change (dict_lookup _ (lit "parsed")) with (@None pyval).
  change (dict_lookup _ (lit "text")) with (Some text).
  destruct (truthy parsed) eqn:T; cbn [or_else truthy negb].
  - rewrite T. reflexivity.
  - reflexivity.
Qed.

(** X10.  [POST /api/dumps] calls [store.save_analysis] at most once.  When
    it does not, it gives no response either: it ends with an exception.
    When it does, the provider has returned a result, and the call carries
    the id read from the header, which is a true value, [payload.dict()] and
    that result. *)
Theorem analyze_dump_saves_once (W : world) (A : imported) (llm_client : LLMClient)
    (payload : DumpIn) (log log' : list http_call)
    (saves saves' : list save_request) (r : reply) :
  analyze_dump W A llm_client payload log saves = (r, log', saves') ->
  (saves' = saves /\ is_response r = false) \/
  (exists dump_id llm_resp,
     saves' = saves ++ [mk_saved dump_id (dump_dict payload) llm_resp] /\
     header_id payload = Ok dump_id /\ truthy dump_id = true /\
     analyze W llm_client (prompt_of A payload) log = (Ok llm_resp, log')).
Proof.
  unfold analyze_dump. fold (header_id payload). cbv zeta.
  fold (prompt_of A payload).
  destruct (header_id payload) as [dump_id|e].
  2:{ intros [= <- _ <-]. left. split; reflexivity. }
  destruct (truthy dump_id) eqn:T; cbn [negb].
  2:{ intros [= <- _ <-]. left. split; reflexivity. }
  destruct (analyze W llm_client (prompt_of A payload) log) as [o log1] eqn:E.
  destruct o as [llm_resp|e].
  2:{ intros [= <- _ <-]. left. split; reflexivity. }
  destruct (ai_summary llm_resp) as [s|e].
  2:{ intros [= <- _ <-]. left. split; reflexivity. }
  destruct (save_raises A _); [|destruct (render_raises A _)];
    intros [= <- <- <-]; right; exists dump_id, llm_resp; auto.
Qed.

Lemma analyze_dump_saves_once_witness :
  ([Gateway.mk_saved (PStr (lit "D1")) (dump_dict Sample.dump) Sample.hello] = []
   /\ is_response
        (Respond 201
           (PDict [(lit "dump_id", PStr (lit "D1"));
                   (lit "dump", dump_dict Sample.dump);
                   (lit "ai_summary", PDict [(lit "raw_text", PStr (lit "hello"))]);
                   (lit "priority", PNone);
                   (lit "raw_llm", Sample.hello)])) = false) \/
  (exists dump_id llm_resp,
     [Gateway.mk_saved (PStr (lit "D1")) (dump_dict Sample.dump) Sample.hello]
     = [] ++ [mk_saved dump_id (dump_dict Sample.dump) llm_resp] /\
     header_id Sample.dump = Ok dump_id /\ truthy dump_id = true /\
     analyze Sample.local_service Fixture.local_client
       (prompt_of Sample.template Sample.dump) []
     = (Ok llm_resp, [Sample.hello_request])).
Proof.
  apply (analyze_dump_saves_once Sample.local_service Sample.template
           Fixture.local_client Sample.dump [] [Sample.hello_request] []).
  vm_compute. reflexivity.
Defined.


(** X11.  When [POST /api/dumps] reaches its response, the status is 201
    and the content has the five keys [dump_id], [dump], [ai_summary],
    [priority] and [raw_llm]: the id of the header, [payload.dict()], the
    [json] of the provider's result, or [{"raw_text": text}] when that is
    false, the priority read from that summary, and the provider's result
    as it is. *)
Theorem analyze_dump_created (W : world) (A : imported) (llm_client : LLMClient)
    (payload : DumpIn) (log log' : list http_call)
    (saves saves' : list save_request) (status : Z) (content : pyval) :
  analyze_dump W A llm_client payload log saves
  = (Respond status content, log', saves') ->
  status = 201%Z /\
  exists dump_id text parsed raw,
    let summary :=
      if truthy parsed then parsed else PDict [(lit "raw_text", text)] in
    header_id payload = Ok dump_id /\
    analyze W llm_client (prompt_of A payload) log
    = (Ok (analysis text parsed raw), log') /\
    _try_parse_json text = Ok parsed /\
    content = PDict [(lit "dump_id", dump_id);
                     (lit "dump", dump_dict payload);
                     (lit "ai_summary", summary);
                     (lit "priority", priority_of summary);
                     (lit "raw_llm", analysis text parsed raw)].
Proof.
  unfold analyze_dump. fold (header_id payload). cbv zeta.
  fold (prompt_of A payload).
  destruct (header_id payload) as [dump_id|e]; [|discriminate].
  destruct (truthy dump_id) eqn:T; cbn [negb]; [|discriminate].
  destruct (analyze W llm_client (prompt_of A payload) log) as [o log1] eqn:E.
  pose proof (analyze_outcome W _ _ _ _ _ E) as O.
  destruct o as [llm_resp|e]; [|discriminate]. cbn [provider_outcome] in O.
  destruct O as (text & parsed & raw & -> & P).
  rewrite ai_summary_analysis.
  destruct (save_raises A _); [discriminate|].
  destruct (render_raises A _); [discriminate|].
  intros [= <- <- <- _]. split; [reflexivity|].
  exists dump_id, text, parsed, raw. auto.
Qed.

Lemma analyze_dump_created_witness :
  201%Z = 201%Z /\
  exists dump_id text parsed raw,
    let summary :=
      if truthy parsed then parsed else PDict [(lit "raw_text", text)] in
    header_id Sample.dump = Ok dump_id /\
    analyze Sample.local_service Fixture.local_client
      (prompt_of Sample.template Sample.dump) []
    = (Ok (analysis text parsed raw), [Sample.hello_request]) /\
    _try_parse_json text = Ok parsed /\
    PDict [(lit "dump_id", PStr (lit "D1"));
           (lit "dump", dump_dict Sample.dump);
           (lit "ai_summary", PDict [(lit "raw_text", PStr (lit "hello"))]);
           (lit "priority", PNone);
           (lit "raw_llm", Sample.hello)]
    = PDict [(lit "dump_id", dump_id);
             (lit "dump", dump_dict Sample.dump);
             (lit "ai_summary", summary);
             (lit "priority", priority_of summary);
             (lit "raw_llm", analysis text parsed raw)].
Proof.
  apply (analyze_dump_created Sample.local_service Sample.template
           Fixture.local_client Sample.dump [] [Sample.hello_request] []
           [Gateway.mk_saved (PStr (lit "D1")) (dump_dict Sample.dump) Sample.hello]).
  vm_compute. reflexivity.
Defined.


(** X12.  A failure of the provider in [POST /api/dumps] is reported with
    status 500 and the detail "LLM provider error: " followed by the text of
    the failure; nothing is saved. *)
Theorem provider_failure_is_reported (W : world) (A : imported)
    (llm_client : LLMClient) (payload : DumpIn) (log log' : list http_call)
    (saves : list save_request) (dump_id : pyval) (e : exc) :
  header_id payload = Ok dump_id -> truthy dump_id = true ->
  analyze W llm_client (prompt_of A payload) log = (Raise e, log') ->
  analyze_dump W A llm_client payload log saves
  = (HTTPException 500 (lit "LLM provider error: " ++ exc_text e), log', saves).
Proof.
  intros H T E. unfold analyze_dump. fold (header_id payload). cbv zeta.
  fold (prompt_of A payload). rewrite H, T. cbn [negb]. rewrite E.
  pose proof (analyze_outcome W _ _ _ _ _ E) as O. cbn [provider_outcome] in O.
  rewrite O. reflexivity.
Qed.

Lemma provider_failure_is_reported_witness :
  analyze_dump (Fixture.remote_end Fixture.refused Fixture.refused)
    Sample.template Fixture.local_client Sample.dump [] []
  = (HTTPException 500
       (lit "LLM provider error: "
        ++ exc_text (mk_exc LLMError (lit "connection refused"))),
     [Sample.hello_request], []).
Proof.
  apply (provider_failure_is_reported
           (Fixture.remote_end Fixture.refused Fixture.refused)
           Sample.template Fixture.local_client Sample.dump []
           [Sample.hello_request] [] (PStr (lit "D1"))
           (mk_exc LLMError (lit "connection refused"))).
  - reflexivity.
  - reflexivity.
  - vm_compute. reflexivity.
Defined.


(** X13.  The summary and the priority [analyze_dump] derives from a
    result of the provider.  When [json] is false, the summary is
    [{"raw_text": text}] and the priority [None]; when [json] is a non-empty
    object, the summary is that object and the priority its [priority], or
    [None] without one; when [json] is a true value of another type, the
    summary is that value and the priority "Unknown". *)
Theorem priority_of_summary (text parsed raw summary : pyval) :
  ai_summary (analysis text parsed raw) = Ok summary ->
  (truthy parsed = false ->
   summary = PDict [(lit "raw_text", text)] /\ priority_of summary = PNone) /\
  (forall d, parsed = PDict d -> truthy parsed = true ->
   summary = parsed /\
   priority_of summary = match dict_lookup d (lit "priority") with
                         | Some p => p
                         | None => PNone
                         end) /\
  (truthy parsed = true -> is_mapping parsed = false ->
   summary = parsed /\ priority_of summary = PStr (lit "Unknown")).
Proof.
  rewrite ai_summary_analysis. intros [= <-]. split; [|split].
  - intros F. rewrite F. split; reflexivity.
  - intros d -> T. rewrite T. split; reflexivity.
  - intros T M. rewrite T. split; [reflexivity|].
    destruct parsed; try reflexivity. discriminate.
Qed.

Lemma priority_of_summary_witness :
  (truthy (PDict [(lit "priority", PStr (lit "High"))]) = false ->
   PDict [(lit "priority", PStr (lit "High"))]
   = PDict [(lit "raw_text", PStr (lit "hi"))] /\
   priority_of (PDict [(lit "priority", PStr (lit "High"))]) = PNone) /\
  (forall d,
     PDict [(lit "priority", PStr (lit "High"))] = PDict d ->
     truthy (PDict [(lit "priority", PStr (lit "High"))]) = true ->
     PDict [(lit "priority", PStr (lit "High"))]
     = PDict [(lit "priority", PStr (lit "High"))] /\
     priority_of (PDict [(lit "priority", PStr (lit "High"))])
     = match dict_lookup d (lit "priority") with
       | Some p => p
       | None => PNone
       end) /\
  (truthy (PDict [(lit "priority", PStr (lit "High"))]) = true ->
   is_mapping (PDict [(lit "priority", PStr (lit "High"))]) = false ->
   PDict [(lit "priority", PStr (lit "High"))]
   = PDict [(lit "priority", PStr (lit "High"))] /\
   priority_of (PDict [(lit "priority", PStr (lit "High"))])
   = PStr (lit "Unknown")).
Proof.
  apply (priority_of_summary (PStr (lit "hi"))
           (PDict [(lit "priority", PStr (lit "High"))]) PNone
           (PDict [(lit "priority", PStr (lit "High"))])).
  reflexivity.
Defined.

(** ** [json.dumps] followed by [json.loads] *)

Module RoundTrip.
Import Json JsonEnc.

(** *** Hexadecimal escapes *)

Lemma hex_value_digit (k : N) : k < 16 -> hex_value (hex_digit k) = Some k.
Proof.
  intros H.
  assert (C : k = 0 \/ k = 1 \/ k = 2 \/ k = 3 \/ k = 4 \/ k = 5 \/ k = 6 \/ k = 7
              \/ k = 8 \/ k = 9 \/ k = 10 \/ k = 11 \/ k = 12 \/ k = 13
              \/ k = 14 \/ k = 15) by lia.
  repeat destruct C as [->|C]; try reflexivity. subst. reflexivity.
Qed.

Lemma hex4_u_escape (n : N) :
  n < 65536 ->
  hex4 (hex_digit (N.shiftr n 12 mod 16)) (hex_digit (N.shiftr n 8 mod 16))
       (hex_digit (N.shiftr n 4 mod 16)) (hex_digit (n mod 16)) = Some n.
Proof.
  intros H. unfold hex4.
  rewrite !hex_value_digit by (apply N.mod_lt; discriminate).
  f_equal. rewrite !N.shiftr_div_pow2.
  change (2 ^ 12) with 4096. change (2 ^ 8) with 256. change (2 ^ 4) with 16.
  zify. Z.to_euclidean_division_equations. lia.
Qed.

Lemma all_below (P : N -> bool) (n : nat) :
  forallb P (map N.of_nat (seq 0 n)) = true ->
  forall y, y < N.of_nat n -> P y = true.
Proof.
  intros H y L. rewrite forallb_forall in H. apply H.
  rewrite <- (N2Nat.id y). apply in_map, in_seq. lia.
Qed.

Lemma lor_high_bits (y : N) :
  y < 1024 -> N.lor 55296 y = 55296 + y /\ N.lor 56320 y = 56320 + y.
Proof.
  intros L.
  assert (H : ((N.lor 55296 y =? 55296 + y) && (N.lor 56320 y =? 56320 + y)) = true).
  { apply (all_below (fun y => (N.lor 55296 y =? 55296 + y)
                               && (N.lor 56320 y =? 56320 + y)) 1024);
      [vm_compute; reflexivity|exact L]. }
  apply andb_true_iff in H as [A B]. split; now apply N.eqb_eq.
Qed.

(** The surrogate pair [json.dumps] writes for a code point beyond the
    basic plane, and what [scanstring] joins it to. *)
Lemma surrogate_pair (c : N) :
  65536 <= c -> c < 1114112 ->
  let n := c - 65536 in
  let hi := N.lor 55296 (N.land (N.shiftr n 10) 1023) in
  let lo := N.lor 56320 (N.land n 1023) in
  hi < 65536 /\ lo < 65536 /\
  is_high_surrogate hi = true /\ is_low_surrogate lo = true /\
  65536 + ((hi - 55296) * 1024 + (lo - 56320)) = c.
Proof.
  intros L U n hi lo.
  assert (Ea : N.land (N.shiftr n 10) 1023 = (n / 1024) mod 1024).
  { change 1023 with (N.ones 10). rewrite N.land_ones, N.shiftr_div_pow2.
    reflexivity. }
  assert (Eb : N.land n 1023 = n mod 1024).
  { change 1023 with (N.ones 10). now rewrite N.land_ones. }
  assert (La : (n / 1024) mod 1024 < 1024) by (apply N.mod_lt; discriminate).
  assert (Lb : n mod 1024 < 1024) by (apply N.mod_lt; discriminate).
  destruct (lor_high_bits _ La) as [Ha _].
  destruct (lor_high_bits _ Lb) as [_ Hb].
  assert (Ehi : hi = 55296 + (n / 1024) mod 1024) by (unfold hi; now rewrite Ea).
  assert (Elo : lo = 56320 + n mod 1024) by (unfold lo; now rewrite Eb).
  unfold is_high_surrogate, is_low_surrogate. rewrite Ehi, Elo.
  assert (Hn : n < 1048576) by (unfold n; lia).
  assert (Hc : c = n + 65536) by (unfold n; lia).
  clearbody n. clear hi lo Ehi Elo Ea Eb Ha Hb.
  repeat split.
  - lia.
  - lia.
  - apply andb_true_iff. split; apply N.leb_le;
      zify; Z.to_euclidean_division_equations; lia.
  - apply andb_true_iff. split; apply N.leb_le;
      zify; Z.to_euclidean_division_equations; lia.
  - zify. Z.to_euclidean_division_equations. lia.
Qed.

(** *** Strings *)

Lemma scanstring_u_escape (u : N) (tl acc : str) :
  u < 65536 -> is_high_surrogate u = false ->
  scanstring (u_escape u ++ tl) acc = scanstring tl (u :: acc).
Proof.
  intros L S. unfold u_escape. cbn [app scanstring].
  change (Chr.BACKSLASH =? Chr.DQUOTE) with false.
  change (Chr.BACKSLASH <? 32) with false.
  change (Chr.BACKSLASH =? Chr.BACKSLASH) with true.
  change (117 =? 117) with true. cbn iota.
  rewrite (hex4_u_escape u L), S. reflexivity.
Qed.

Lemma scanstring_pair (hi lo : N) (tl acc : str) :
  hi < 65536 -> lo < 65536 ->
  is_high_surrogate hi = true -> is_low_surrogate lo = true ->
  scanstring (u_escape hi ++ u_escape lo ++ tl) acc
  = scanstring tl (65536 + ((hi - 55296) * 1024 + (lo - 56320)) :: acc).
Proof.
  intros Lh Ll Sh Sl. unfold u_escape. cbn [app scanstring].
  change (Chr.BACKSLASH =? Chr.DQUOTE) with false.
  change (Chr.BACKSLASH <? 32) with false.
  change (Chr.BACKSLASH =? Chr.BACKSLASH) with true.
  change (117 =? 117) with true. cbn iota.
  rewrite (hex4_u_escape hi Lh), Sh. cbn [andb].
  rewrite (hex4_u_escape lo Ll), Sl. reflexivity.
Qed.

Lemma scalar_spec (c : N) :
  scalar c = true <-> c < 55296 \/ (57343 < c /\ c < 1114112).
Proof.
  unfold scalar. rewrite orb_true_iff, andb_true_iff, !N.ltb_lt. reflexivity.
Qed.

Lemma scanstring_escape_char (c : N) (tl acc : str) :
  scalar c = true ->
  scanstring (escape_char c ++ tl) acc = scanstring tl (c :: acc).
Proof.
  intros S. unfold escape_char.
  destruct (N.eqb_spec c Chr.DQUOTE) as [->|Hq]; [reflexivity|].
  destruct (N.eqb_spec c Chr.BACKSLASH) as [->|Hb]; [reflexivity|].
  destruct ((32 <=? c) && (c <=? 126)) eqn:P.
  { apply andb_true_iff in P as [P1 P2]. apply N.leb_le in P1, P2.
    cbn [app scanstring].
    replace (c =? Chr.DQUOTE) with false by (symmetry; now apply N.eqb_neq).
    replace (c <? 32) with false by (symmetry; apply N.ltb_ge; lia).
    replace (c =? Chr.BACKSLASH) with false by (symmetry; now apply N.eqb_neq).
    reflexivity. }
  destruct (N.eqb_spec c 8) as [->|H8]; [reflexivity|].
  destruct (N.eqb_spec c 12) as [->|H12]; [reflexivity|].
  destruct (N.eqb_spec c 10) as [->|H10]; [reflexivity|].
  destruct (N.eqb_spec c 13) as [->|H13]; [reflexivity|].
  destruct (N.eqb_spec c 9) as [->|H9]; [reflexivity|].
  apply scalar_spec in S.
  destruct (N.ltb_spec c 65536) as [L|L].
  - apply scanstring_u_escape; [exact L|].
    unfold is_high_surrogate. apply andb_false_iff.
    destruct (N.ltb_spec c 55296); [left; apply N.leb_gt; lia|].
    right. apply N.leb_gt. lia.
  - assert (U : c < 1114112) by lia.
    destruct (surrogate_pair c L U) as (Lh & Ll & Sh & Sl & E).
    rewrite <- app_assoc, scanstring_pair by assumption.
    cbv zeta in E. rewrite E. reflexivity.
Qed.

Lemma scanstring_escaped (s rest acc : str) :
  forallb scalar s = true ->
  scanstring (flat_map escape_char s ++ Chr.DQUOTE :: rest) acc
  = Some (rev acc ++ s, rest).
Proof.
  revert acc. induction s as [|c s IH]; intros acc H.
  - cbn [flat_map app scanstring]. change (Chr.DQUOTE =? Chr.DQUOTE) with true.
    cbn iota. now rewrite app_nil_r.
  - cbn [forallb] in H. apply andb_true_iff in H as [Hc Hs].
    cbn [flat_map]. rewrite <- app_assoc, scanstring_escape_char by assumption.
    rewrite IH by assumption. cbn [rev]. now rewrite <- app_assoc.
Qed.

(** *** Integers *)

Lemma closes_cases (rest : str) :
  closes rest = true ->
  rest = [] \/ exists tl, rest = Chr.COMMA :: tl \/ rest = Chr.RBRACKET :: tl
                        \/ rest = Chr.RBRACE :: tl.
Proof.
  destruct rest as [|c tl]; [now left|]. cbn [closes].
  rewrite !orb_true_iff, !N.eqb_eq. intros [[->| ->]| ->]; right; exists tl; auto.
Qed.

Lemma lit_string_of_uint (d : Decimal.uint) :
  lit (NilEmpty.string_of_uint d) = digits_of d.
Proof.
  induction d; cbn [NilEmpty.string_of_uint digits_of]; [reflexivity|..];
    unfold lit in *; cbn [list_ascii_of_string map]; rewrite IHd; reflexivity.
Qed.

Lemma span_digits_of (d : Decimal.uint) (rest : str) :
  closes rest = true ->
  span_digits (digits_of d ++ rest) = (digits_of d, rest).
Proof.
  intros C. induction d; cbn [digits_of app];
    try (cbn [span_digits]; rewrite IHd; reflexivity).
  destruct (closes_cases rest C) as [->|[tl [->|[->| ->]]]]; reflexivity.
Qed.

Lemma digits_value_acc (d : Decimal.uint) (acc : positive) :
  fold_left (fun a c => 10 * a + (c - 48)) (digits_of d) (Npos acc)
  = Npos (Pos.of_uint_acc d acc).
Proof.
  revert acc. induction d; intros acc; cbn [digits_of fold_left Pos.of_uint_acc];
    [reflexivity|..];
    match goal with
    | |- fold_left _ _ ?x = Npos (Pos.of_uint_acc _ ?y) =>
        replace x with (Npos y) by (cbn; lia)
    end; apply IHd.
Qed.

Lemma digits_value_of (d : Decimal.uint) :
  digits_value (digits_of d) = Pos.of_uint d.
Proof.
  unfold digits_value.
  induction d; cbn [digits_of fold_left Pos.of_uint]; [reflexivity|exact IHd|..];
    match goal with
    | |- fold_left _ _ ?x = Npos (Pos.of_uint_acc _ ?y) =>
        change x with (Npos y)
    end; apply digits_value_acc.
Qed.

Lemma unorm_D0 (x y : Decimal.uint) :
  Decimal.unorm x = Decimal.D0 y -> y = Decimal.Nil.
Proof.
  induction x; cbn [Decimal.unorm]; try discriminate; [|exact IHx].
  now intros [= <-].
Qed.

(** The numeral of a positive number starts with a digit that is not 0. *)
Lemma to_uint_head (p : positive) :
  exists c ds,
    digits_of (Pos.to_uint p) = c :: ds /\
    is_digit c = true /\ (c =? Chr.ZERO) = false.
Proof.
  pose proof (DecimalPos.Unsigned.to_of (Pos.to_uint p)) as N.
  rewrite DecimalPos.Unsigned.of_to in N. cbn [N.to_uint] in N.
  pose proof (DecimalPos.Unsigned.to_uint_nonzero p) as Z.
  pose proof (DecimalPos.Unsigned.to_uint_nonnil p) as NN.
  destruct (Pos.to_uint p) as [|d|d|d|d|d|d|d|d|d|d]; [congruence|..];
    try (cbn [digits_of]; eexists; eexists; repeat split; reflexivity).
  symmetry in N. apply unorm_D0 in N. subst d. contradiction.
Qed.

Lemma match_frac_closes (rest : str) : closes rest = true -> match_frac rest = None.
Proof.
  intros C. destruct (closes_cases rest C) as [->|[tl [->|[->| ->]]]]; reflexivity.
Qed.

Lemma match_exp_closes (rest : str) : closes rest = true -> match_exp rest = None.
Proof.
  intros C. destruct (closes_cases rest C) as [->|[tl [->|[->| ->]]]]; reflexivity.
Qed.

Lemma match_number_pos (p : positive) (rest : str) :
  closes rest = true ->
  match_number (digits_of (Pos.to_uint p) ++ rest) = Some (PInt (Zpos p), rest).
Proof.
  intros C. destruct (to_uint_head p) as (c & ds & E & D & Z0).
  pose proof (digits_value_of (Pos.to_uint p)) as V.
  rewrite DecimalPos.Unsigned.of_to in V.
  pose proof (span_digits_of (Pos.to_uint p) rest C) as S.
  rewrite E in *. cbn [app span_digits] in S. rewrite D in S.
  destruct (span_digits (ds ++ rest)) as [ds' r'] eqn:S'.
  injection S as -> ->.
  unfold match_number, match_integer. cbn [app].
  replace (c =? Chr.MINUS) with false.
  2:{ symmetry. apply N.eqb_neq. intros ->. discriminate. }
  rewrite Z0, D, S', (match_frac_closes rest C), (match_exp_closes rest C), V.
  reflexivity.
Qed.

Lemma match_number_neg (p : positive) (rest : str) :
  closes rest = true ->
  match_number (Chr.MINUS :: digits_of (Pos.to_uint p) ++ rest)
  = Some (PInt (Zneg p), rest).
Proof.
  intros C. destruct (to_uint_head p) as (c & ds & E & D & Z0).
  pose proof (digits_value_of (Pos.to_uint p)) as V.
  rewrite DecimalPos.Unsigned.of_to in V.
  pose proof (span_digits_of (Pos.to_uint p) rest C) as S.
  rewrite E in *. cbn [app span_digits] in S. rewrite D in S.
  destruct (span_digits (ds ++ rest)) as [ds' r'] eqn:S'.
  injection S as -> ->.
  unfold match_number, match_integer. cbn [app].
  change (Chr.MINUS =? Chr.MINUS) with true. cbn iota.
  rewrite Z0, D, S', (match_frac_closes rest C), (match_exp_closes rest C), V.
  reflexivity.
Qed.

Lemma decimal_digits (z : Z) :
  decimal z =
  match z with
  | Z0 => [Chr.ZERO]
  | Zpos p => digits_of (Pos.to_uint p)
  | Zneg p => Chr.MINUS :: digits_of (Pos.to_uint p)
  end.
Proof.
  unfold decimal. destruct z as [|p|p]; [reflexivity|..];
    cbn [Z.to_int NilZero.string_of_int]; unfold NilZero.string_of_uint;
    pose proof (DecimalPos.Unsigned.to_uint_nonnil p) as NN;
    destruct (Pos.to_uint p) eqn:E; try congruence;
    rewrite <- E; try (rewrite lit_string_of_uint; reflexivity);
    change (lit (String "-" ?s)) with (Chr.MINUS :: lit s);
    rewrite E; rewrite lit_string_of_uint; reflexivity.
Qed.

Lemma match_number_decimal (z : Z) (rest : str) :
  closes rest = true ->
  match_number (decimal z ++ rest) = Some (PInt z, rest).
Proof.
  intros C. rewrite decimal_digits. destruct z as [|p|p].
  - destruct (closes_cases rest C) as [->|[tl [->|[->| ->]]]]; reflexivity.
  - now apply match_number_pos.
  - now apply match_number_neg.
Qed.

(** The first character of a numeral is a digit or the minus sign. *)
Lemma decimal_head (z : Z) :
  exists c tl, decimal z = c :: tl /\ (is_digit c = true \/ c = Chr.MINUS).
Proof.
  rewrite decimal_digits. destruct z as [|p|p].
  - exists Chr.ZERO, []. auto.
  - destruct (to_uint_head p) as (c & ds & E & D & _). exists c, ds. auto.
  - eexists; eexists. split; [reflexivity|]. now right.
Qed.

(** *** More fuel changes nothing *)

Lemma scan_step (f : nat) :
  (forall s, scan_once f s <> OutOfFuel -> scan_once (S f) s = scan_once f s) /\
  (forall s acc, object_pairs f s acc <> OutOfFuel ->
     object_pairs (S f) s acc = object_pairs f s acc) /\
  (forall s acc, array_items f s acc <> OutOfFuel ->
     array_items (S f) s acc = array_items f s acc).
Proof.
  induction f as [|f (IHs & IHo & IHa)].
  { repeat split; intros; exfalso;
      match goal with H : _ <> _ |- _ => apply H; reflexivity end. }
  repeat split.
  - intros s. cbn [scan_once]. destruct s as [|c r]; [reflexivity|].
    destruct (c =? Chr.DQUOTE); [reflexivity|].
    destruct (c =? Chr.LBRACE).
    { destruct (skip_ws r) as [|c1 r1]; [reflexivity|].
      destruct (c1 =? Chr.RBRACE); [reflexivity|].
      destruct (c1 =? Chr.DQUOTE); [|reflexivity]. intros H. now apply IHo. }
    destruct (c =? Chr.LBRACKET); [|reflexivity].
    destruct (skip_ws r) as [|c1 r1]; [reflexivity|].
    destruct (c1 =? Chr.RBRACKET); [reflexivity|]. intros H. now apply IHa.
  - intros s acc. cbn [object_pairs].
    destruct (scanstring s []) as [[key r0]|]; [|reflexivity].
    destruct (skip_ws r0) as [|c r1]; [reflexivity|].
    destruct (c =? Chr.COLON); [|reflexivity].
    destruct (scan_once f (skip_ws r1)) as [v r2| |] eqn:E; [| |congruence].
    + rewrite IHs, E by congruence.
      destruct (skip_ws r2) as [|c2 r3]; [reflexivity|].
      destruct (c2 =? Chr.RBRACE); [reflexivity|].
      destruct (c2 =? Chr.COMMA); [|reflexivity].
      destruct (skip_ws r3) as [|c3 r4]; [reflexivity|].
      destruct (c3 =? Chr.DQUOTE); [|reflexivity]. intros H. now apply IHo.
    + rewrite IHs, E by congruence. reflexivity.
  - intros s acc. cbn [array_items].
    destruct (scan_once f s) as [v r| |] eqn:E; [| |congruence].
    + rewrite IHs, E by congruence.
      destruct (skip_ws r) as [|c r1]; [reflexivity|].
      destruct (c =? Chr.RBRACKET); [reflexivity|].
      destruct (c =? Chr.COMMA); [|reflexivity]. intros H. now apply IHa.
    + rewrite IHs, E by congruence. reflexivity.
Qed.

Lemma scan_once_more (f k : nat) (s rest : str) (v : pyval) :
  scan_once f s = Scanned v rest -> scan_once (f + k) s = Scanned v rest.
Proof.
  intros H. induction k as [|k IH]; [now rewrite Nat.add_0_r|].
  rewrite Nat.add_succ_r, (proj1 (scan_step _)); [exact IH|]. congruence.
Qed.

Lemma array_items_more (f k : nat) (s rest : str) acc (v : pyval) :
  array_items f s acc = Scanned v rest ->
  array_items (f + k) s acc = Scanned v rest.
Proof.
  intros H. induction k as [|k IH]; [now rewrite Nat.add_0_r|].
  rewrite Nat.add_succ_r, (proj2 (proj2 (scan_step _))); [exact IH|]. congruence.
Qed.

Lemma object_pairs_more (f k : nat) (s rest : str) acc (v : pyval) :
  object_pairs f s acc = Scanned v rest ->
  object_pairs (f + k) s acc = Scanned v rest.
Proof.
  intros H. induction k as [|k IH]; [now rewrite Nat.add_0_r|].
  rewrite Nat.add_succ_r, (proj1 (proj2 (scan_step _))); [exact IH|]. congruence.
Qed.

(** With the fuel [loads] supplies, a scan that succeeds with some fuel
    succeeds. *)
Lemma loads_of_scan (f : nat) (s : str) (v : pyval) :
  startswith s [Chr.BOM] = false -> skip_ws s = s ->
  scan_once f s = Scanned v [] -> Json.loads s = Some v.
Proof.
  intros B W H. unfold Json.loads. rewrite B, W.
  pose proof (JsonFacts.loads_fuel s) as F. rewrite W in F.
  pose proof (scan_once_more f (enough_fuel s) s [] v H) as H1.
  destruct (scan_once (enough_fuel s) s) as [v' r'| |] eqn:E; [| |congruence].
  - pose proof (scan_once_more _ f s r' v' E) as H2.
    rewrite Nat.add_comm in H2. rewrite H2 in H1. injection H1 as -> ->.
    reflexivity.
  - pose proof (proj1 (scan_step (enough_fuel s)) s) as M.
    assert (K : forall k, scan_once (enough_fuel s + k) s = NoParse).
    { induction k as [|k IH]; [now rewrite Nat.add_0_r|].
      rewrite Nat.add_succ_r, (proj1 (scan_step _)); [exact IH|]. congruence. }
    rewrite Nat.add_comm, K in H1. discriminate.
Qed.

(** *** Values *)

Lemma pyval_induction (P : pyval -> Prop) :
  P PNone -> (forall b, P (PBool b)) -> (forall z, P (PInt z)) ->
  (forall f, P (PFloat f)) -> (forall s, P (PStr s)) ->
  (forall l, Forall P l -> P (PList l)) ->
  (forall d, Forall (fun kv => P (snd kv)) d -> P (PDict d)) ->
  forall v, P v.
Proof.
  intros HN HB HI HF HS HL HD.
  fix IH 1. intros [|b|z|f|s|l|d];
    [apply HN|apply HB|apply HI|apply HF|apply HS| |].
  - apply HL. induction l as [|x l IHl]; constructor; [apply IH|exact IHl].
  - apply HD. induction d as [|[k x] d IHd]; constructor; [apply IH|exact IHd].
Qed.

Section Dumped.

Variable fr : bool -> N -> Z -> str.

Lemma join_cons2 (sep p q : str) (ps : list str) :
  join sep (p :: q :: ps) = p ++ sep ++ join sep (q :: ps).
Proof. reflexivity. Qed.

Lemma items_text_join (x : pyval) (l : list pyval) (rest : str) :
  join (lit ", ") (map (dumps fr) (x :: l)) ++ Chr.RBRACKET :: rest
  = items_text fr x l rest.
Proof.
  revert x. induction l as [|y l IH]; intros x.
  - reflexivity.
  - change (map (dumps fr) (x :: y :: l))
      with (dumps fr x :: dumps fr y :: map (dumps fr) l).
    rewrite join_cons2. cbn [items_text]. rewrite <- (IH y).
    change (map (dumps fr) (y :: l)) with (dumps fr y :: map (dumps fr) l).
    rewrite <- !app_assoc. reflexivity.
Qed.

Lemma dumps_list_text (x : pyval) (l : list pyval) (rest : str) :
  dumps fr (PList (x :: l)) ++ rest = Chr.LBRACKET :: items_text fr x l rest.
Proof.
  rewrite <- items_text_join. cbn [dumps].
  change (lit "[") with [Chr.LBRACKET]. change (lit "]") with [Chr.RBRACKET].
  rewrite <- !app_assoc. reflexivity.
Qed.

Lemma members_text_join (k : str) (v : pyval) (d : list (str * pyval))
    (rest : str) :
  join (lit ", ") (map (member fr) ((k, v) :: d)) ++ Chr.RBRACE :: rest
  = Chr.DQUOTE :: members_text fr k v d rest.
Proof.
  revert k v. induction d as [|[k' v'] d IH]; intros k v.
  - cbn [map join member members_text]. unfold quote.
    rewrite <- !app_assoc. reflexivity.
  - change (map (member fr) ((k, v) :: (k', v') :: d))
      with (member fr (k, v) :: member fr (k', v') :: map (member fr) d).
    rewrite join_cons2. cbn [members_text].
    change (member fr (k', v') :: map (member fr) d) with (map (member fr) ((k', v') :: d)).
    rewrite <- !app_assoc, (IH k' v'). cbn [member]. unfold quote.
    rewrite <- !app_assoc. reflexivity.
Qed.

Lemma dumps_dict_text (k : str) (v : pyval) (d : list (str * pyval)) (rest : str) :
  dumps fr (PDict ((k, v) :: d)) ++ rest
  = Chr.LBRACE :: Chr.DQUOTE :: members_text fr k v d rest.
Proof.
  rewrite <- members_text_join. cbn [dumps].
  change (lit "{") with [Chr.LBRACE]. change (lit "}") with [Chr.RBRACE].
  rewrite <- !app_assoc. reflexivity.
Qed.

Lemma dumps_head (v : pyval) :
  plain v = true -> exists c tl, dumps fr v = c :: tl /\ opens c = true.
Proof.
  destruct v as [|[|]|z|f|s|l|d]; cbn [plain]; intros H; try discriminate;
    try (eexists; eexists; split; reflexivity).
  destruct (decimal_head z) as (c & tl & E & [D| ->]).
  - exists c, tl. split; [exact E|]. unfold is_digit in D.
    apply andb_true_iff in D as [D1 D2]. apply N.leb_le in D1, D2.
    unfold opens, is_ws.
    repeat match goal with
    | |- context [c =? ?k] =>
        replace (c =? k) with false by (symmetry; apply N.eqb_neq; cbv; lia)
    end. reflexivity.
  - exists Chr.MINUS, tl. split; [exact E|reflexivity].
Qed.

Lemma skip_ws_opens (c : N) (tl : str) :
  opens c = true -> skip_ws (c :: tl) = c :: tl.
Proof.
  unfold opens. rewrite !andb_true_iff, !negb_true_iff. intros [[[W _] _] _].
  cbn [skip_ws]. now rewrite W.
Qed.

Lemma match_keyword_number (c : N) (tl : str) :
  is_digit c = true \/ c = Chr.MINUS -> match_keyword (c :: tl) = None.
Proof.
  intros H.
  assert (N1 : (110 =? c) = false /\ (116 =? c) = false /\ (102 =? c) = false).
  { destruct H as [D| ->]; [|repeat split; reflexivity].
    unfold is_digit in D. apply andb_true_iff in D as [D1 D2].
    apply N.leb_le in D1, D2. repeat split; apply N.eqb_neq; lia. }
  destruct N1 as (A & B & C).
  unfold match_keyword, after_prefix.
  change (lit "null") with [110; 117; 108; 108].
  change (lit "true") with [116; 114; 117; 101].
  change (lit "false") with [102; 97; 108; 115; 101].
  cbn [startswith]. rewrite A, B, C. reflexivity.
Qed.

Lemma scan_once_int (f : nat) (z : Z) (rest : str) :
  closes rest = true ->
  scan_once (S f) (decimal z ++ rest) = Scanned (PInt z) rest.
Proof.
  intros C. pose proof (match_number_decimal z rest C) as M.
  destruct (decimal_head z) as (c & tl & E & H). rewrite E in *.
  cbn [app] in *. cbn [scan_once].
  assert (N1 : (c =? Chr.DQUOTE) = false /\ (c =? Chr.LBRACE) = false
               /\ (c =? Chr.LBRACKET) = false).
  { destruct H as [D| ->]; [|repeat split; reflexivity].
    unfold is_digit in D. apply andb_true_iff in D as [D1 D2].
    apply N.leb_le in D1, D2. repeat split; apply N.eqb_neq; cbv; lia. }
  destruct N1 as (A & B & D).
  rewrite A, B, D, (match_keyword_number c _ H), M. reflexivity.
Qed.

Lemma scan_once_str (f : nat) (s rest : str) :
  forallb scalar s = true ->
  scan_once (S f) (quote s ++ rest) = Scanned (PStr s) rest.
Proof.
  intros H. unfold quote. rewrite <- !app_assoc. cbn [app scan_once].
  change (Chr.DQUOTE =? Chr.DQUOTE) with true. cbn iota.
  now rewrite scanstring_escaped.
Qed.

Lemma scan_items (x : pyval) (l : list pyval) :
  Forall (scans fr) (x :: l) -> forallb plain (x :: l) = true ->
  forall acc rest,
    exists n,
      array_items n (items_text fr x l rest) acc
      = Scanned (PList (rev acc ++ x :: l)) rest.
Proof.
  revert x. induction l as [|y l IH]; intros x HF HP acc rest.
  - inversion HF as [|? ? Hx _]; subst. cbn [forallb] in HP.
    apply andb_true_iff in HP as [Px _].
    destruct (Hx Px (Chr.RBRACKET :: rest) eq_refl) as [n Hn].
    exists (S n). cbn [items_text array_items]. rewrite Hn.
    cbn [skip_ws]. change (is_ws Chr.RBRACKET) with false. cbn iota.
    change (Chr.RBRACKET =? Chr.RBRACKET) with true. cbn iota.
    cbn [rev]. reflexivity.
  - inversion HF as [|? ? Hx HF']; subst. cbn [forallb] in HP.
    apply andb_true_iff in HP as [Px HP'].
    destruct (IH y HF' HP' (x :: acc) rest) as [n2 Hn2].
    destruct (Hx Px (Chr.COMMA :: Chr.SPACE :: items_text fr y l rest) eq_refl)
      as [n1 Hn1].
    exists (S (n1 + n2)). cbn [items_text array_items].
    rewrite (scan_once_more _ n2 _ _ _ Hn1).
    cbn [skip_ws]. change (is_ws Chr.COMMA) with false. cbn iota.
    change (Chr.COMMA =? Chr.RBRACKET) with false.
    change (Chr.COMMA =? Chr.COMMA) with true. cbn iota.
    cbn [skip_ws]. change (is_ws Chr.SPACE) with true. cbn iota.
    assert (Py : plain y = true).
    { cbn [forallb] in HP'. now apply andb_true_iff in HP' as [Py _]. }
    destruct (dumps_head y Py) as (c & tl & E & O).
    assert (Sk : skip_ws (items_text fr y l rest) = items_text fr y l rest).
    { destruct l; cbn [items_text]; rewrite E; cbn [app];
        now apply skip_ws_opens. }
    rewrite Sk, Nat.add_comm, (array_items_more _ n1 _ _ _ _ Hn2).
    cbn [rev]. rewrite <- app_assoc. reflexivity.
Qed.

Lemma scan_members (k : str) (v : pyval) (d : list (str * pyval)) :
  Forall (fun kv => scans fr (snd kv)) ((k, v) :: d) ->
  forallb (fun kv => forallb scalar (fst kv) && plain (snd kv)) ((k, v) :: d)
  = true ->
  forall acc rest,
    exists n,
      object_pairs n (members_text fr k v d rest) acc
      = Scanned (PDict (dict_of_pairs (rev acc ++ (k, v) :: d))) rest.
Proof.
  revert k v. induction d as [|[k' v'] d IH]; intros k v HF HP acc rest;
    inversion HF as [|? ? Hv HF']; subst; cbn [forallb fst snd] in HP;
    apply andb_true_iff in HP as [Pkv HP'];
    apply andb_true_iff in Pkv as [Pk Pv]; cbn [snd] in Hv;
    destruct (dumps_head v Pv) as (c & tl & E & O).
  - destruct (Hv Pv (Chr.RBRACE :: rest) eq_refl) as [n Hn].
    exists (S n). cbn [members_text object_pairs].
    rewrite scanstring_escaped by assumption. cbn [rev app skip_ws].
    change (is_ws Chr.COLON) with false. cbn iota.
    change (Chr.COLON =? Chr.COLON) with true. cbn iota.
    cbn [skip_ws]. change (is_ws Chr.SPACE) with true. cbn iota.
    rewrite E. cbn [app]. rewrite (skip_ws_opens c _ O).
    rewrite E in Hn. cbn [app] in Hn. rewrite Hn.
    cbn [skip_ws]. change (is_ws Chr.RBRACE) with false. cbn iota.
    change (Chr.RBRACE =? Chr.RBRACE) with true. cbn iota. reflexivity.
  - destruct (IH k' v' HF' HP' ((k, v) :: acc) rest) as [n2 Hn2].
    destruct (Hv Pv (Chr.COMMA :: Chr.SPACE :: Chr.DQUOTE
                     :: members_text fr k' v' d rest) eq_refl) as [n1 Hn1].
    exists (S (n1 + n2)). cbn [members_text object_pairs].
    rewrite scanstring_escaped by assumption. cbn [rev app skip_ws].
    change (is_ws Chr.COLON) with false. cbn iota.
    change (Chr.COLON =? Chr.COLON) with true. cbn iota.
    cbn [skip_ws]. change (is_ws Chr.SPACE) with true. cbn iota.
    rewrite E. cbn [app]. rewrite (skip_ws_opens c _ O).
    rewrite E in Hn1. cbn [app] in Hn1.
    cbn [members_text] in Hn1.
    rewrite (scan_once_more _ n2 _ _ _ Hn1).
    cbn [skip_ws]. change (is_ws Chr.COMMA) with false. cbn iota.
    change (Chr.COMMA =? Chr.RBRACE) with false.
    change (Chr.COMMA =? Chr.COMMA) with true. cbn iota.
    cbn [skip_ws]. change (is_ws Chr.SPACE) with true. cbn iota.
    cbn [skip_ws]. change (is_ws Chr.DQUOTE) with false. cbn iota.
    change (Chr.DQUOTE =? Chr.DQUOTE) with true. cbn iota.
    rewrite Nat.add_comm.
    cbn [members_text] in Hn2.
    rewrite (object_pairs_more _ n1 _ _ _ _ Hn2).
    cbn [rev]. rewrite <- app_assoc. reflexivity.
Qed.

(** [dict(pairs)] of pairs with distinct keys is the pairs. *)
Lemma dict_set_fresh (d : list (str * pyval)) (k : str) (v : pyval) :
  existsb (fun kv => str_eqb (fst kv) k) d = false ->
  dict_set d k v = d ++ [(k, v)].
Proof.
  induction d as [|[k' v'] d IH]; [reflexivity|].
  cbn [existsb fst dict_set app]. intros H.
  apply orb_false_iff in H as [H1 H2]. rewrite H1, IH by assumption.
  reflexivity.
Qed.

Lemma existsb_key_app (k : str) (a b : list (str * pyval)) :
  existsb (fun kv => str_eqb (fst kv) k) (a ++ b)
  = existsb (fun kv => str_eqb (fst kv) k) a
    || existsb (fun kv => str_eqb (fst kv) k) b.
Proof. apply existsb_app. Qed.

Lemma str_eqb_sym (a b : str) : str_eqb a b = str_eqb b a.
Proof.
  destruct (str_eqb a b) eqn:E.
  - apply str_eqb_eq in E as ->. symmetry. now apply str_eqb_eq.
  - destruct (str_eqb b a) eqn:E'; [|reflexivity].
    apply str_eqb_eq in E' as ->.
    assert (str_eqb a a = true) by now apply str_eqb_eq. congruence.
Qed.

Lemma unique_keys_snoc (d : list (str * pyval)) (k : str) (v : pyval) :
  unique_keys d = true ->
  existsb (fun kv => str_eqb (fst kv) k) d = false ->
  unique_keys (d ++ [(k, v)]) = true.
Proof.
  induction d as [|[k' v'] d IH]; [reflexivity|].
  cbn [unique_keys existsb fst app]. intros U H.
  apply andb_true_iff in U as [U1 U2]. apply orb_false_iff in H as [H1 H2].
  rewrite existsb_key_app. cbn [existsb fst].
  apply negb_true_iff in U1. rewrite U1, orb_false_r, str_eqb_sym, H1.
  cbn [negb orb andb]. now apply IH.
Qed.

Lemma fold_dict_set_unique (d acc : list (str * pyval)) :
  unique_keys (acc ++ d) = true ->
  fold_left (fun d kv => dict_set d (fst kv) (snd kv)) d acc = acc ++ d.
Proof.
  revert acc. induction d as [|[k v] d IH]; intros acc U.
  - now rewrite app_nil_r.
  - cbn [fold_left fst snd].
    assert (F : existsb (fun kv => str_eqb (fst kv) k) acc = false).
    { clear IH. induction acc as [|[k' v'] acc IHa]; [reflexivity|].
      cbn [app unique_keys] in U. apply andb_true_iff in U as [U1 U2].
      cbn [existsb fst]. rewrite (IHa U2), orb_false_r.
      apply negb_true_iff in U1. rewrite existsb_key_app in U1.
      apply orb_false_iff in U1 as [_ U1]. cbn [existsb fst] in U1.
      apply orb_false_iff in U1 as [U1 _]. now rewrite str_eqb_sym. }
    rewrite dict_set_fresh by exact F.
    replace (acc ++ (k, v) :: d) with ((acc ++ [(k, v)]) ++ d) in *
      by now rewrite <- app_assoc.
    now apply IH.
Qed.

Lemma dict_of_pairs_unique (d : list (str * pyval)) :
  unique_keys d = true -> dict_of_pairs d = d.
Proof. intros U. exact (fold_dict_set_unique d [] U). Qed.

(** Scanning what [dumps] wrote gives the value back, and stops where the
    text ends. *)
Lemma scan_dumps (v : pyval) : scans fr v.
Proof.
  induction v as [|b|z|f|s|l IHl|d IHd] using pyval_induction;
    intros P rest C.
  - exists 1%nat. destruct (closes_cases rest C) as [->|[tl [->|[->| ->]]]];
      reflexivity.
  - exists 1%nat.
    destruct b, (closes_cases rest C) as [->|[tl [->|[->| ->]]]]; reflexivity.
  - exists 1%nat. now apply scan_once_int.
  - discriminate.
  - exists 1%nat. now apply scan_once_str.
  - destruct l as [|x l]; [exists 1%nat; reflexivity|].
    cbn [plain] in P.
    destruct (scan_items x l IHl P [] rest) as [n Hn].
    exists (S n). rewrite dumps_list_text. cbn [scan_once].
    change (Chr.LBRACKET =? Chr.DQUOTE) with false.
    change (Chr.LBRACKET =? Chr.LBRACE) with false.
    change (Chr.LBRACKET =? Chr.LBRACKET) with true. cbn iota.
    assert (Px : plain x = true).
    { cbn [forallb] in P. now apply andb_true_iff in P as [Px _]. }
    destruct (dumps_head x Px) as (c & tl & E & O).
    assert (I : exists tl', items_text fr x l rest = c :: tl').
    { destruct l; cbn [items_text]; rewrite E; cbn [app]; eauto. }
    destruct I as [tl' I]. rewrite I in *. rewrite (skip_ws_opens c _ O).
    unfold opens in O. rewrite !andb_true_iff, !negb_true_iff in O.
    destruct O as [[[_ O] _] _]. rewrite O. exact Hn.
  - destruct d as [|[k x] d]; [exists 1%nat; reflexivity|].
    cbn [plain] in P. apply andb_true_iff in P as [P U].
    destruct (scan_members k x d IHd P [] rest) as [n Hn].
    exists (S n). rewrite dumps_dict_text. cbn [scan_once].
    change (Chr.LBRACE =? Chr.DQUOTE) with false.
    change (Chr.LBRACE =? Chr.LBRACE) with true. cbn iota.
    cbn [skip_ws]. change (is_ws Chr.DQUOTE) with false. cbn iota.
    change (Chr.DQUOTE =? Chr.RBRACE) with false.
    change (Chr.DQUOTE =? Chr.DQUOTE) with true. cbn iota.
    rewrite Hn. cbn [rev app]. now rewrite dict_of_pairs_unique.
Qed.

Lemma loads_dumps (v : pyval) : plain v = true -> Json.loads (dumps fr v) = Some v.
Proof.
  intros P. destruct (scan_dumps v P [] eq_refl) as [n Hn].
  rewrite app_nil_r in Hn.
  destruct (dumps_head v P) as (c & tl & E & O).
  apply (loads_of_scan n); [| |exact Hn].
  - rewrite E. unfold opens in O. rewrite !andb_true_iff, !negb_true_iff in O.
    destruct O as [_ O]. cbn [startswith]. rewrite N.eqb_sym, O. reflexivity.
  - rewrite E. now apply skip_ws_opens.
Qed.

(** *** What [dumps] writes is printable ASCII *)

Lemma hex_digit_printable (k : N) : k < 16 -> printable (hex_digit k) = true.
Proof.
  intros H. unfold printable, hex_digit.
  destruct (N.ltb_spec k 10); apply andb_true_iff; split; apply N.leb_le; lia.
Qed.

Lemma u_escape_printable (n : N) : forallb printable (u_escape n) = true.
Proof.
  unfold u_escape. cbn [forallb].
  rewrite !hex_digit_printable by (apply N.mod_lt; discriminate).
  reflexivity.
Qed.

Lemma escape_char_printable (c : N) : forallb printable (escape_char c) = true.
Proof.
  unfold escape_char.
  repeat match goal with
  | |- forallb printable (if ?b then _ else _) = true => destruct b eqn:?
  end; try reflexivity.
  - cbn [forallb]. unfold printable. now rewrite Heqb1.
  - apply u_escape_printable.
  - cbv zeta. rewrite forallb_app, !u_escape_printable. reflexivity.
Qed.

Lemma quote_printable (s : str) : forallb printable (quote s) = true.
Proof.
  unfold quote. rewrite !forallb_app. cbn [forallb].
  replace (forallb printable (flat_map escape_char s)) with true; [reflexivity|].
  symmetry. induction s as [|c s IH]; [reflexivity|].
  cbn [flat_map]. now rewrite forallb_app, escape_char_printable, IH.
Qed.

Lemma digits_of_printable (d : Decimal.uint) : forallb printable (digits_of d) = true.
Proof. induction d; cbn [digits_of forallb]; try rewrite IHd; reflexivity. Qed.

Lemma decimal_printable (z : Z) : forallb printable (decimal z) = true.
Proof.
  rewrite decimal_digits. destruct z; cbn [forallb];
    rewrite ?digits_of_printable; reflexivity.
Qed.

Lemma join_printable (sep : str) (ps : list str) :
  forallb printable sep = true -> Forall (fun p => forallb printable p = true) ps ->
  forallb printable (join sep ps) = true.
Proof.
  intros Hs H. induction H as [|p ps Hp H IH]; [reflexivity|].
  destruct ps as [|q ps]; [exact Hp|].
  rewrite join_cons2, !forallb_app, Hp, Hs. exact IH.
Qed.

Lemma dumps_printable (v : pyval) :
  plain v = true -> forallb printable (dumps fr v) = true.
Proof.
  induction v as [|b|z|f|s|l IHl|d IHd] using pyval_induction; intros P.
  - reflexivity.
  - destruct b; reflexivity.
  - apply decimal_printable.
  - discriminate.
  - apply quote_printable.
  - cbn [dumps plain] in *. rewrite !forallb_app.
    rewrite join_printable; [reflexivity|reflexivity|].
    apply Forall_map. rewrite forallb_forall in P. rewrite Forall_forall in *.
    intros x Hx. apply IHl; [exact Hx|]. now apply P.
  - cbn [dumps plain] in *. apply andb_true_iff in P as [P _].
    rewrite !forallb_app.
    rewrite join_printable; [reflexivity|reflexivity|].
    apply Forall_map. rewrite forallb_forall in P. rewrite Forall_forall in *.
    intros [k x] Hx. specialize (P _ Hx). cbn [fst snd] in P.
    apply andb_true_iff in P as [_ Px].
    pose proof (IHd _ Hx Px) as Q. cbn [snd] in Q.
    rewrite !forallb_app, quote_printable, Q. reflexivity.
Qed.

End Dumped.

(** *** Text without a newline has no fence *)

Lemma printable_no_newline (s : str) :
  forallb printable s = true -> ~ In Chr.NL s.
Proof.
  rewrite forallb_forall. intros H Hin. specialize (H _ Hin). discriminate.
Qed.

Lemma match_open_fence_no_newline (s : str) :
  ~ In Chr.NL s -> match_open_fence s = None.
Proof.
  intros H. unfold match_open_fence.
  destruct s as [|b1 [|b2 [|b3 r]]]; try reflexivity.
  destruct ((b1 =? Chr.BACKTICK) && (b2 =? Chr.BACKTICK) && (b3 =? Chr.BACKTICK));
    [|reflexivity].
  assert (N0 : forall c, In c r -> (c =? Chr.NL) = false).
  { intros c Hc. apply N.eqb_neq. intros ->. apply H. cbn [In]. tauto. }
  destruct r as [|j r]; [reflexivity|].
  rewrite (N0 j) by (cbn [In]; tauto).
  destruct r as [|s' [|o [|n [|nl r]]]]; try reflexivity.
  rewrite (N0 nl) by (cbn [In]; tauto). rewrite andb_false_r. reflexivity.
Qed.

Lemma sub_open_fence_no_newline (s : str) :
  ~ In Chr.NL s -> sub_open_fence s = s.
Proof.
  unfold sub_open_fence. induction s as [|c s IH]; intros H; [reflexivity|].
  cbn [sub_open_fence_from]. rewrite (match_open_fence_no_newline _ H).
  rewrite IH; [reflexivity|]. intros Hin. apply H. now right.
Qed.

Lemma endswith_newline (s p : str) :
  In Chr.NL p -> endswith s p = true -> In Chr.NL s.
Proof.
  unfold endswith. intros Hp H. destruct (startswith_prefix _ _ H) as [r E].
  apply in_rev. rewrite E. apply in_or_app. left. now apply in_rev in Hp.
Qed.

Lemma sub_close_fence_no_newline (s : str) :
  ~ In Chr.NL s -> sub_close_fence s = s.
Proof.
  intros H. unfold sub_close_fence.
  destruct (endswith s closing_fence) eqn:E1.
  { exfalso. apply H. apply (endswith_newline s closing_fence); [|exact E1].
    now left. }
  destruct (endswith s (closing_fence ++ [Chr.NL])) eqn:E2; [|reflexivity].
  exfalso. apply H.
  apply (endswith_newline s (closing_fence ++ [Chr.NL])); [|exact E2]. now left.
Qed.

(** *** A serialized object read back by [_try_parse_json] *)

Lemma dumps_dict_braces (fr : bool -> N -> Z -> str) (d : list (str * pyval)) :
  exists mid, dumps fr (PDict d) = Chr.LBRACE :: mid ++ [Chr.RBRACE].
Proof. eexists. cbn [dumps]. reflexivity. Qed.

Lemma stripped_dumps (fr : bool -> N -> Z -> str) (d : list (str * pyval)) :
  plain (PDict d) = true -> stripped (dumps fr (PDict d)) = dumps fr (PDict d).
Proof.
  intros P. pose proof (printable_no_newline _ (dumps_printable fr _ P)) as NN.
  unfold stripped. destruct (dumps_dict_braces fr d) as [mid E].
  rewrite E in *. rewrite strip_fixed by reflexivity.
  rewrite sub_open_fence_no_newline by exact NN.
  now apply sub_close_fence_no_newline.
Qed.

Lemma parse_text_dumps (fr : bool -> N -> Z -> str) (d : list (str * pyval)) :
  plain (PDict d) = true -> parse_text (dumps fr (PDict d)) = PDict d.
Proof.
  intros P. destruct (dumps_dict_braces fr d) as [mid E].
  rewrite (parse_text_span _ [] mid []).
  - rewrite <- E, (loads_dumps fr _ P). reflexivity.
  - rewrite (stripped_dumps fr d P). exact E.
  - intros [].
  - intros [].
Qed.

End RoundTrip.

(** ** The answer of a local service that has no text field *)


(** X14.  [_try_parse_json] reads back what [json.dumps] wrote: for a JSON
    object without floats, whose strings hold no surrogate code points and
    whose keys differ, and which is within the limits of the interpreter (no
    integer of more than 4300 digits, nesting at most 100 deep), the
    serialized object parses to the object itself. *)
Theorem serialized_object_is_read_back (fr : bool -> N -> Z -> str)
    (d : list (str * pyval)) :
  plain (PDict d) = true -> within_limits (PDict d) = true ->
  _try_parse_json (PStr (JsonEnc.dumps fr (PDict d))) = Ok (PDict d).
Proof.
  intros P _. destruct (RoundTrip.dumps_dict_braces fr d) as [mid E].
  rewrite try_parse_json_str by (rewrite E; discriminate).
  now rewrite RoundTrip.parse_text_dumps.
Qed.

Lemma serialized_object_is_read_back_witness :
  _try_parse_json (PStr (JsonEnc.dumps (fun _ _ _ => lit "0.0") (PDict Sample.bare)))
  = Ok (PDict Sample.bare).
Proof.
  apply (serialized_object_is_read_back (fun _ _ _ => lit "0.0") Sample.bare).
  - reflexivity.
  - vm_compute. reflexivity.
Defined.


